(** * LearnSnap: the content pipeline, the scoring functions and the
      ownership checks of the route handlers

    A shallow embedding of [server/ai-service.ts], of the chapter, child,
    result and child-login handlers of [server/routes.ts] and of the two
    chapter updates of [server/storage.ts], with the properties the
    specification states about them; then of the handlers that submit
    answers, start and end learning sessions, read notifications, and list
    and create children and chapters, with the storage functions they call,
    and further properties of the code. *)

From Stdlib Require Import ZArith String Ascii List Bool Lia.
From Stdlib Require Import Floats.SpecFloat.
From stdpp Require Import base option list gmap strings pretty.

Local Open Scope Z_scope.

(** ** JavaScript numbers

    A JS [number] is an IEEE-754 binary64 value; [SpecFloat] gives its
    arithmetic (round to nearest, ties to even) as computable functions. *)

Module Num.

Definition prec : Z := 53.
Definition emax : Z := 1024.

Definition number : Type := spec_float.

Definition of_Z (z : Z) : number := binary_normalize prec emax z 0 false.
Definition of_nat (n : nat) : number := of_Z (Z.of_nat n).

Definition div (x y : number) : number := SFdiv prec emax x y.
Definition mul (x y : number) : number := SFmul prec emax x y.

(** [x >= y] of JS: false as soon as one side is NaN. *)
Definition geb (x y : number) : bool := SFleb y x.

(** A finite double as the exact rational [m * 2^e], numerator and
    denominator apart. *)
Definition numerator (x : number) : Z :=
  match x with
  | S754_finite s m e => (if s then -1 else 1) * Z.pos m * 2 ^ Z.max e 0
  | _ => 0
  end.

Definition denominator (x : number) : Z :=
  match x with
  | S754_finite _ _ e => 2 ^ Z.max (- e) 0
  | _ => 1
  end.

End Num.

(** ** Scoring ([calculateStars], [calculateScores]) *)

(** [questionSchema.correct]: [z.enum(["A", "B", "C", "D"])]. *)
Inductive Letter : Type := A | B | C | D.

Definition letter_string (l : Letter) : string :=
  match l with
  | A => "A" | B => "B" | C => "C" | D => "D"
  end%string.

Inductive Difficulty : Type := easy | medium | hard.

Record Question : Type := mkQuestion {
  question : string;
  options : list string;
  correct : Letter;
  difficulty : Difficulty
}.

(** [const percentage = (score / total) * 100] and the four comparisons. *)
Definition calculateStars (score total : Num.number) : Z :=
  let percentage := Num.mul (Num.div score total) (Num.of_Z 100) in
  if Num.geb percentage (Num.of_Z 90) then 5
  else if Num.geb percentage (Num.of_Z 80) then 4
  else if Num.geb percentage (Num.of_Z 70) then 3
  else if Num.geb percentage (Num.of_Z 60) then 2
  else 1.

(** [questions[index]?.correct === answer]: [undefined] when there is no
    question at [index], and [undefined] is no string. *)
Definition answer_matches (questions : list Question) (index : nat)
    (answer : string) : bool :=
  match questions !! index with
  | Some q => bool_decide (letter_string (correct q) = answer)
  | None => false
  end.

(** [answers.forEach((answer, index) => { if (...) score++; })], started at
    [index] with the counter at [score]. *)
Fixpoint forEach_count (questions : list Question) (answers : list string)
    (index : nat) (score : nat) : nat :=
  match answers with
  | [] => score
  | answer :: rest =>
      forEach_count questions rest (S index)
        (if answer_matches questions index answer then S score else score)
  end.

Record Scores : Type := mkScores {
  practiceScore : nat;
  testScore : nat;
  totalScore : nat;
  stars : Z
}.

Definition calculateScores (practiceAnswers testAnswers : list string)
    (practiceQuestions testQuestions : list Question) : Scores :=
  let practiceScore := forEach_count practiceQuestions practiceAnswers 0 0 in
  let testScore := forEach_count testQuestions testAnswers 0 0 in
  let totalScore := (practiceScore + testScore)%nat in
  let stars := calculateStars (Num.of_nat totalScore) (Num.of_Z 15) in
  {| practiceScore := practiceScore; testScore := testScore;
     totalScore := totalScore; stars := stars |}.

(** ** JSON values and the JavaScript operators the code applies to them *)

#[warnings="-register-all"]
Inductive JValue : Type :=
  | JNull
  | JBool (b : bool)
  | JNum (x : Num.number)
  | JStr (s : string)
  | JArr (items : list JValue)
  | JObj (fields : list (string * JValue)).

(** ToBoolean: [null], [false], [0], [NaN] and the empty string are falsy. *)
Definition truthy (v : JValue) : bool :=
  match v with
  | JNull => false
  | JBool b => b
  | JNum (S754_zero _) | JNum S754_nan => false
  | JNum _ => true
  | JStr s => negb (String.eqb s EmptyString)
  | JArr _ | JObj _ => true
  end.

Fixpoint assoc (key : string) (fields : list (string * JValue)) : option JValue :=
  match fields with
  | [] => None
  | (k, v) :: rest => if String.eqb k key then Some v else assoc key rest
  end.

(** Errors a step can throw. *)
Inductive Error : Type :=
  | TypeError
  | SyntaxError
  | ErrorMsg (message : string)
  | ApiError.

(** [v.key] for a parsed value [v]: a TypeError on [null], the own property
    of an object, [undefined] on every other value (the keys read by the code
    are no properties of numbers, strings, booleans or arrays). *)
Definition get_prop (v : JValue) (key : string) : Error + option JValue :=
  match v with
  | JNull => inl TypeError
  | JObj fields => inr (assoc key fields)
  | _ => inr None
  end.

(** [a || b] with [a] possibly [undefined]. *)
Definition or_default (a : option JValue) (b : JValue) : JValue :=
  match a with
  | Some v => if truthy v then v else b
  | None => b
  end.

(** [v === "s"]. *)
Definition strict_eq_str (v : JValue) (s : string) : bool :=
  match v with
  | JStr t => String.eqb t s
  | _ => false
  end.

(** ** Regular expressions of the service *)

Module Regex.

Definition LF : ascii := ascii_of_nat 10.
Definition CR : ascii := ascii_of_nat 13.

(** [s] without the prefix [p], when it starts with it. *)
Fixpoint strip_prefix (p s : string) : option string :=
  match p, s with
  | EmptyString, _ => Some s
  | String a p', String b s' => if Ascii.eqb a b then strip_prefix p' s' else None
  | String _ _, EmptyString => None
  end.

(** The longest prefix without [c], and what follows it. *)
Fixpoint break_at (c : ascii) (s : string) : string * string :=
  match s with
  | EmptyString => (EmptyString, EmptyString)
  | String a s' =>
      if Ascii.eqb a c then (EmptyString, s)
      else let '(pre, post) := break_at c s' in (String a pre, post)
  end.

(** Strings are sequences of UTF-8 bytes: the line terminators that [.]
    refuses are LF, CR and the three-byte encodings of U+2028 and U+2029. *)
Fixpoint has_line_terminator (s : string) : bool :=
  match s with
  | EmptyString => false
  | String a s' =>
      Ascii.eqb a LF || Ascii.eqb a CR
      || match strip_prefix (String (ascii_of_nat 128) EmptyString) s' with
         | Some (String b _) =>
             Ascii.eqb a (ascii_of_nat 226)
             && (Ascii.eqb b (ascii_of_nat 168) || Ascii.eqb b (ascii_of_nat 169))
         | _ => false
         end
      || has_line_terminator s'
  end.

(** [dataUrl.match(/^data:([^;]+);base64,(.+)$/)]: the two groups. *)
Definition match_data_url (dataUrl : string) : option (string * string) :=
  match strip_prefix "data:" dataUrl with
  | None => None
  | Some rest =>
      let '(mime, after) := break_at ";" rest in
      match mime, strip_prefix ";base64," after with
      | String _ _, Some (String _ _ as data) =>
          if has_line_terminator data then None else Some (mime, data)
      | _, _ => None
      end
  end.

(** The suffix of [s] that starts at its first [c]. *)
Fixpoint from_first (c : ascii) (s : string) : option string :=
  match s with
  | EmptyString => None
  | String a s' => if Ascii.eqb a c then Some s else from_first c s'
  end.

(** The prefix of [s] that ends at its last [c]. *)
Fixpoint through_last (c : ascii) (s : string) : option string :=
  match s with
  | EmptyString => None
  | String a s' =>
      match through_last c s' with
      | Some t => Some (String a t)
      | None => if Ascii.eqb a c then Some (String a EmptyString) else None
      end
  end.

(** [text.match(/\{[\s\S]*\}/)]: greedy, so from the first opening brace
    to the last closing brace after it. *)
Definition match_braces (text : string) : option string :=
  match from_first "{" text with
  | None => None
  | Some s => through_last "}" s
  end.

End Regex.

(** ** The run's environment and state *)

(** What an awaited provider call gives: a rejection (an API error, a
    network failure, a timeout of the SDK) or a response. *)
Inductive Reply (R : Type) : Type :=
  | Rejected
  | Resolved (response : R).
Arguments Rejected {R}.
Arguments Resolved {R} response.

(** A block of [response.content] of the Anthropic SDK. *)
Inductive ContentBlock : Type :=
  | TextBlock (text : string)
  | OtherBlock.

Record InlineData : Type := mkInlineData {
  data : string;
  mimeType : string
}.

(** An external-capability invocation, as it leaves the process. *)
Inductive ExtCall : Type :=
  | GeminiCall (imagesParts : list InlineData) (subject : string) (grade : Num.number)
  | GPTCall (content : JValue)
  | ClaudeCall (content : JValue) (issues : JValue).

(** The prompts are functions of the arguments gathered in [ExtCall], so a
    provider is a function of those arguments and of [n], the number of
    calls made before this one (two calls with one prompt may differ).
    [JSON_parse] is the built-in: [None] when it throws a SyntaxError. *)
Record Env : Type := mkEnv {
  JSON_parse : string -> option JValue;
  process_env : string -> option string;
  generateContent : nat -> list InlineData -> string -> Num.number -> Reply (option string);
  chat_completions_create : nat -> JValue -> Reply (list (option string));
  messages_create : nat -> JValue -> JValue -> Reply (list ContentBlock)
}.

Inductive Level : Type := log | warn | error.

(** The module's three lazily built clients, the console and the calls made. *)
Record World : Type := mkWorld {
  anthropicClient : bool;
  openaiClient : bool;
  genAIClient : bool;
  console : list (Level * string);
  calls : list ExtCall
}.

Inductive Result (T : Type) : Type :=
  | Ok (value : T)
  | Throw (e : Error).
Arguments Ok {T} value.
Arguments Throw {T} e.

(** A computation that reads and writes the [World] and may throw. *)
Definition M (T : Type) : Type := World -> Result T * World.

Definition ret {T} (x : T) : M T := fun w => (Ok x, w).
Definition throw {T} (e : Error) : M T := fun w => (Throw e, w).

Definition bind {T U} (c : M T) (k : T -> M U) : M U :=
  fun w =>
    match c w with
    | (Ok x, w') => k x w'
    | (Throw e, w') => (Throw e, w')
    end.

(** [try { c } catch (error) { handler(error) }]. *)
Definition try_catch {T} (c : M T) (handler : Error -> M T) : M T :=
  fun w =>
    match c w with
    | (Ok x, w') => (Ok x, w')
    | (Throw e, w') => handler e w'
    end.

Declare Scope js_scope.
Delimit Scope js_scope with js.
Notation "x <- c ;; k" := (bind c (fun x => k))
  (at level 100, c at next level, right associativity) : js_scope.
Notation "c ;;; k" := (bind c (fun _ => k))
  (at level 100, right associativity) : js_scope.
Local Open Scope js_scope.

Definition console_write (l : Level) (line : string) : M unit :=
  fun w =>
    (Ok tt, {| anthropicClient := anthropicClient w; openaiClient := openaiClient w;
               genAIClient := genAIClient w;
               console := console w ++ [(l, line)]; calls := calls w |}).

Definition record_call (c : ExtCall) : M nat :=
  fun w =>
    (Ok (length (calls w)),
     {| anthropicClient := anthropicClient w; openaiClient := openaiClient w;
        genAIClient := genAIClient w;
        console := console w; calls := calls w ++ [c] |}).

(** [await call]: the rejection is thrown. *)
Definition await {R} (r : Reply R) : M R :=
  match r with
  | Rejected => throw ApiError
  | Resolved x => ret x
  end.

Definition lift_option {T} (o : option T) (e : Error) : M T :=
  match o with
  | Some x => ret x
  | None => throw e
  end.

(** [process.env.A || process.env.B]: the empty string is falsy. *)
Definition env_or (env : Env) (a b : string) : option string :=
  match process_env env a with
  | Some (String _ _ as k) => Some k
  | _ => process_env env b
  end.

Definition key_present (k : option string) : bool :=
  match k with
  | Some (String _ _) => true
  | _ => false
  end.

Definition getAnthropic (env : Env) : M unit :=
  fun w =>
    if anthropicClient w then (Ok tt, w)
    else if key_present (env_or env "ANTHROPIC_API_KEY" "AI_INTEGRATIONS_ANTHROPIC_API_KEY")
    then (Ok tt, {| anthropicClient := true; openaiClient := openaiClient w;
                    genAIClient := genAIClient w;
                    console := console w; calls := calls w |})
    else (Throw (ErrorMsg "Missing Anthropic API key. Please set ANTHROPIC_API_KEY environment variable."), w).

Definition getOpenAI (env : Env) : M unit :=
  fun w =>
    if openaiClient w then (Ok tt, w)
    else if key_present (env_or env "OPENAI_API_KEY" "AI_INTEGRATIONS_OPENAI_API_KEY")
    then (Ok tt, {| anthropicClient := anthropicClient w; openaiClient := true;
                    genAIClient := genAIClient w;
                    console := console w; calls := calls w |})
    else (Throw (ErrorMsg "Missing OpenAI API key. Please set OPENAI_API_KEY environment variable."), w).

Definition getGenAI (env : Env) : M unit :=
  fun w =>
    if genAIClient w then (Ok tt, w)
    else if key_present (env_or env "GEMINI_API_KEY" "AI_INTEGRATIONS_GEMINI_API_KEY")
    then (Ok tt, {| anthropicClient := anthropicClient w; openaiClient := openaiClient w;
                    genAIClient := true;
                    console := console w; calls := calls w |})
    else (Throw (ErrorMsg "Missing Gemini API key. Please set GEMINI_API_KEY environment variable."), w).

(** ** The pipeline ([server/ai-service.ts]) *)

Definition extractBase64 (dataUrl : string) : Error + InlineData :=
  match Regex.match_data_url dataUrl with
  | None => inl (ErrorMsg "Invalid data URL format")
  | Some (m, d) => inr {| data := d; mimeType := m |}
  end.

(** [photos.map((photo) => ...)]: the first photo that is refused throws. *)
Fixpoint map_extractBase64 (photos : list string) : M (list InlineData) :=
  match photos with
  | [] => ret []
  | photo :: rest =>
      match extractBase64 photo with
      | inl e => throw e
      | inr part => parts <- map_extractBase64 rest ;; ret (part :: parts)
      end
  end.

(** Step 1. *)
Definition generateWithGemini (env : Env) (photos : list string)
    (subject : string) (grade : Num.number) : M JValue :=
  console_write log "Generating content with Gemini Flash..." ;;;
  imagesParts <- map_extractBase64 photos ;;
  try_catch
    (getGenAI env ;;;
     n <- record_call (GeminiCall imagesParts subject grade) ;;
     response <- await (generateContent env n imagesParts subject grade) ;;
     let text := default EmptyString response in
     jsonMatch <- lift_option (Regex.match_braces text)
                    (ErrorMsg "No valid JSON found in Gemini response") ;;
     lift_option (JSON_parse env jsonMatch) SyntaxError)
    (fun e => console_write error "Gemini generation error:" ;;; throw e).

Record Verdict : Type := mkVerdict {
  status : JValue;
  issues : JValue
}.

Definition PASS : JValue := JStr "PASS".
Definition FAIL : JValue := JStr "FAIL".

(** [response.choices[0].message.content || "{}"]: [None] is the TypeError
    of [choices[0].message] when there is no choice. *)
Definition first_choice_content (choices : list (option string)) : option string :=
  match choices with
  | [] => None
  | Some (String _ _ as s) :: _ => Some s
  | _ :: _ => Some "{}"%string
  end.

(** Step 2. *)
Definition verifyWithGPT (env : Env) (content : JValue) : M Verdict :=
  console_write log "Verifying content with GPT-4o mini..." ;;;
  try_catch
    (getOpenAI env ;;;
     n <- record_call (GPTCall content) ;;
     choices <- await (chat_completions_create env n content) ;;
     text <- lift_option (first_choice_content choices) TypeError ;;
     result <- lift_option (JSON_parse env text) SyntaxError ;;
     match get_prop result "status", get_prop result "issues" with
     | inr st, inr iss =>
         ret {| status := or_default st PASS; issues := or_default iss (JArr []) |}
     | inl e, _ | _, inl e => throw e
     end)
    (fun _ =>
       console_write error "GPT verification error:" ;;;
       ret {| status := PASS; issues := JArr [] |}).

(** ToString of a parsed value, as [join] applies it to the elements of an
    array. It throws a TypeError on an object that has a key [toString]: no
    value of JSON is callable, so the own [toString] is passed over, and
    [valueOf], own or inherited, gives no primitive. An object without that
    key gives [[object Object]], and an array is joined in its turn, so it
    throws when one of its elements does; [null] elements are skipped. *)
Fixpoint to_string_throws (v : JValue) : bool :=
  match v with
  | JObj fields =>
      match assoc "toString" fields with
      | Some _ => true
      | None => false
      end
  | JArr items => existsb to_string_throws items
  | _ => false
  end.

(** [issues.join("\n")] throws a TypeError: [join] is a method of arrays
    only, and it applies ToString to the elements. *)
Definition join_throws (issues : JValue) : bool :=
  match issues with
  | JArr items => existsb to_string_throws items
  | _ => true
  end.

(** [issues.join("\n")] of the prompt. *)
Definition join_issues (issues : JValue) : M unit :=
  if join_throws issues then throw TypeError else ret tt.

(** [response.content.find((c) => c.type === "text")]. *)
Fixpoint find_text (blocks : list ContentBlock) : option string :=
  match blocks with
  | [] => None
  | TextBlock t :: _ => Some t
  | OtherBlock :: rest => find_text rest
  end.

(** Step 3. *)
Definition fixWithClaude (env : Env) (content issues : JValue) : M JValue :=
  console_write log "Fixing content with Claude Sonnet..." ;;;
  join_issues issues ;;;
  try_catch
    (getAnthropic env ;;;
     n <- record_call (ClaudeCall content issues) ;;
     blocks <- await (messages_create env n content issues) ;;
     text <- lift_option (find_text blocks) (ErrorMsg "No text content in Claude response") ;;
     jsonMatch <- lift_option (Regex.match_braces text)
                    (ErrorMsg "No valid JSON found in Claude response") ;;
     lift_option (JSON_parse env jsonMatch) SyntaxError)
    (fun _ => console_write error "Claude fix error:" ;;; ret content).

(** Main AI processing pipeline. *)
Definition processChapterWithAI (env : Env) (photos : list string)
    (subject : string) (grade : Num.number) : M JValue :=
  content <- generateWithGemini env photos subject grade ;;
  verification <- verifyWithGPT env content ;;
  if strict_eq_str (status verification) "PASS" then
    console_write log "Content verified successfully!" ;;;
    ret content
  else
    console_write log "Content verification failed, fixing with Claude..." ;;;
    console_write log "Issues:" ;;;
    content <- fixWithClaude env content (issues verification) ;;
    recheck <- verifyWithGPT env content ;;
    (if strict_eq_str (status recheck) "FAIL"
     then console_write warn "Content still has issues after fix:"
     else ret tt) ;;;
    ret content.

(** ** What the database refuses

    A statement is one atomic step. It throws, and writes nothing, when a
    value does not fit its column: an [integer] column holds the whole
    numbers of 32 bits, and a [jsonb] column refuses some values (a text
    that holds the character U+0000, for one). What [jsonb] accepts is the
    database's, so it is a parameter, [jsonb_accepts], of the code that
    writes such a column. A database that is down and keys that break a
    reference are not modelled: every other statement succeeds. *)

Definition in_int4 (z : Z) : bool := (- 2 ^ 31 <=? z) && (z <? 2 ^ 31).

(** The value an [integer] column takes for a double: the database refuses
    what is no whole number of 32 bits. *)
Definition to_int4 (x : Num.number) : option Z :=
  let in_range z := if (- 2 ^ 31 <=? z) && (z <? 2 ^ 31) then Some z else None in
  match x with
  | S754_zero _ => Some 0
  | S754_finite s m e =>
      let sign := if s then -1 else 1 in
      if 0 <=? e then in_range (sign * Z.pos m * 2 ^ e)
      else if Z.pos m mod 2 ^ (- e) =? 0 then in_range (sign * (Z.pos m / 2 ^ (- e)))
      else None
  | _ => None
  end.

(** ** Rows of [shared/schema.ts] and the storage layer

    A table is a finite map from the primary key to the row. *)

Module Child.
Record t : Type := mk {
  parentId : string;
  name : string;
  age : Z;
  totalStars : Z
}.
End Child.

Module Chapter.
Record t : Type := mk {
  childId : string;
  parentId : string;
  title : string;
  subject : string;
  grade : Z;
  content : option JValue;
  status : option string;
  completedAt : option Z
}.
End Chapter.

Module ChapterResult.
Record t : Type := mk {
  chapterId : string;
  childId : string;
  practiceScore : Z;
  testScore : Z;
  totalScore : Z;
  stars : Z
}.
End ChapterResult.

(** [InsertChapter]: the five columns [insertChapterSchema] picks. *)
Record InsertChapter : Type := mkInsertChapter {
  ins_childId : string;
  ins_parentId : string;
  ins_title : string;
  ins_subject : string;
  ins_grade : Z
}.

(** A statement that writes the [chapters] table. *)
Inductive ChapterWrite : Type :=
  | Insert (id : string) (data : InsertChapter)
  | UpdateContent (id : string) (content : JValue)
  | UpdateStatus (id : string) (status : string).

(** A row of [chapter_photos]. *)
Record ChapterPhoto : Type := mkChapterPhoto {
  photo_chapterId : string;
  photoData : string;
  pageNumber : Z
}.

Record Database : Type := mkDatabase {
  children : gmap string Child.t;
  chapters : gmap string Chapter.t;
  chapterResults : gmap string ChapterResult.t;
  chapterPhotos : list ChapterPhoto;
  (** the statements that wrote [chapters], oldest first *)
  chapter_writes : list ChapterWrite
}.

Module Storage.

Definition getChildById (db : Database) (id : string) : option Child.t :=
  children db !! id.

Definition getChapterById (db : Database) (id : string) : option Chapter.t :=
  chapters db !! id.

Definition getResultById (db : Database) (id : string) : option ChapterResult.t :=
  chapterResults db !! id.

(** The rows of a child; [ORDER BY created_at DESC] is not modelled. *)
Definition getChaptersByChild (db : Database) (childId : string) : list Chapter.t :=
  filter (λ c, Chapter.childId c = childId) (snd <$> map_to_list (chapters db)).

Definition getResultsByChild (db : Database) (childId : string) : list ChapterResult.t :=
  filter (λ r, ChapterResult.childId r = childId)
    (snd <$> map_to_list (chapterResults db)).

Definition with_chapters (db : Database) (rows : gmap string Chapter.t)
    (w : ChapterWrite) : Database :=
  {| children := children db; chapters := rows;
     chapterResults := chapterResults db;
     chapterPhotos := chapterPhotos db;
     chapter_writes := chapter_writes db ++ [w] |}.

(** [db.insert(chapters).values(data).returning()], [id] being the key the
    database generates: the columns left out take their defaults, status
    ['processing'] and no content. *)
Definition createChapter (db : Database) (id : string) (data : InsertChapter)
    : Chapter.t * Database :=
  let row := {| Chapter.childId := ins_childId data;
                Chapter.parentId := ins_parentId data;
                Chapter.title := ins_title data;
                Chapter.subject := ins_subject data;
                Chapter.grade := ins_grade data;
                Chapter.content := None;
                Chapter.status := Some "processing"%string;
                Chapter.completedAt := None |} in
  (row, with_chapters db (<[id := row]> (chapters db)) (Insert id data)).

(** The rows of one insert into [chapter_photos]: [None] when a
    [pageNumber], which the schema of the route takes as any number, is no
    value of the [integer] column. *)
Fixpoint photo_rows (chapterId : string) (photos : list (string * Num.number))
    : option (list ChapterPhoto) :=
  match photos with
  | [] => Some []
  | (photoData, pageNumber) :: rest =>
      match to_int4 pageNumber, photo_rows chapterId rest with
      | Some page, Some rows =>
          Some ({| photo_chapterId := chapterId; photoData := photoData;
                   pageNumber := page |} :: rows)
      | _, _ => None
      end
  end.

(** [None] when the database refuses the insert, which then throws. *)
Definition createChapterPhotos (db : Database) (chapterId : string)
    (photos : list (string * Num.number)) : option Database :=
  match photo_rows chapterId photos with
  | None => None
  | Some rows =>
      Some {| children := children db; chapters := chapters db;
              chapterResults := chapterResults db;
              chapterPhotos := chapterPhotos db ++ rows;
              chapter_writes := chapter_writes db |}
  end.

Definition set_status (status : string) (now : Z) (c : Chapter.t) : Chapter.t :=
  {| Chapter.childId := Chapter.childId c; Chapter.parentId := Chapter.parentId c;
     Chapter.title := Chapter.title c; Chapter.subject := Chapter.subject c;
     Chapter.grade := Chapter.grade c; Chapter.content := Chapter.content c;
     Chapter.status := Some status;
     Chapter.completedAt :=
       if String.eqb status "completed" then Some now else Chapter.completedAt c |}.

Definition set_content (content : JValue) (c : Chapter.t) : Chapter.t :=
  {| Chapter.childId := Chapter.childId c; Chapter.parentId := Chapter.parentId c;
     Chapter.title := Chapter.title c; Chapter.subject := Chapter.subject c;
     Chapter.grade := Chapter.grade c; Chapter.content := Some content;
     Chapter.status := Some "ready"%string;
     Chapter.completedAt := Chapter.completedAt c |}.

(** [now] is [new Date()]. *)
Definition updateChapterStatus (db : Database) (now : Z) (id status : string) : Database :=
  with_chapters db (alter (set_status status now) id (chapters db))
    (UpdateStatus id status).

(** [None] when the [jsonb] column refuses the content: the update throws
    and writes nothing. *)
Definition updateChapterContent (jsonb_accepts : JValue -> bool) (db : Database)
    (id : string) (content : JValue) : option Database :=
  if jsonb_accepts content
  then Some (with_chapters db (alter (set_content content) id (chapters db))
               (UpdateContent id content))
  else None.

End Storage.

(** ** The authorization gate and the handlers ([server/routes.ts]) *)

(** What a handler answers: [res.json(body)], or [res.status(code).json({ error })]. *)
Inductive Response (T : Type) : Type :=
  | Json (body : T)
  | Status (code : Z).
Arguments Json {T} body.
Arguments Status {T} code.

(** The fields the gate leaves on the request, and the route parameter
    ([:id] or [:childId]). *)
Record ChildRequest : Type := mkChildRequest {
  authenticatedChildId : option string;
  authenticatedParentId : option string;
  param : string
}.

Inductive Session : Type :=
  | ParentSession (parentId : string)
  | ChildSession (childId parentId : string).

(** Modelled from the spec: [requireChildAccess] of [server/auth.ts], which is
    not among the sources. The gate for child-or-parent routes accepts either
    credential: with a ChildSession the session's childId is authoritative and
    a claimed childId that differs is refused with Forbidden; with a
    ParentSession and no ChildSession the parent's id is handed to the handler,
    which has to verify ownership itself; with neither, Unauthenticated. *)
Definition requireChildAccess (session : option Session) (claimedChildId : option string)
    (param : string) : Response ChildRequest :=
  match session with
  | Some (ChildSession childId _) =>
      match claimedChildId with
      | Some claimed =>
          if String.eqb claimed childId
          then Json {| authenticatedChildId := Some childId;
                       authenticatedParentId := None; param := param |}
          else Status 403
      | None => Json {| authenticatedChildId := Some childId;
                        authenticatedParentId := None; param := param |}
      end
  | Some (ParentSession parentId) =>
      Json {| authenticatedChildId := None;
              authenticatedParentId := Some parentId; param := param |}
  | None => Status 401
  end.

(** [x && ...] on an id that may be [undefined]: the empty string is falsy. *)
Definition present (x : option string) : option string :=
  match x with
  | Some (String _ _ as s) => Some s
  | _ => None
  end.

Module Routes.

(** [req.authenticatedChildId || req.params.id]. *)
Definition target_child (req : ChildRequest) : string :=
  match present (authenticatedChildId req) with
  | Some childId => childId
  | None => param req
  end.

(** GET /api/children/:id *)
Definition get_child (db : Database) (req : ChildRequest) : Response Child.t :=
  let childId := target_child req in
  match Storage.getChildById db childId with
  | None => Status 404
  | Some child => Json child
  end.

(** GET /api/children/:childId/chapters *)
Definition get_child_chapters (db : Database) (req : ChildRequest)
    : Response (list Chapter.t) :=
  let childId := target_child req in
  Json (Storage.getChaptersByChild db childId).

(** GET /api/children/:childId/results *)
Definition get_child_results (db : Database) (req : ChildRequest)
    : Response (list ChapterResult.t) :=
  let childId := target_child req in
  Json (Storage.getResultsByChild db childId).

(** [id && owner !== id]. *)
Definition mismatch (id : option string) (owner : string) : bool :=
  match present id with
  | Some i => negb (String.eqb owner i)
  | None => false
  end.

(** GET /api/chapters/:id *)
Definition get_chapter (db : Database) (req : ChildRequest) : Response Chapter.t :=
  match Storage.getChapterById db (param req) with
  | None => Status 404
  | Some chapter =>
      let childId := authenticatedChildId req in
      let parentId := authenticatedParentId req in
      if mismatch childId (Chapter.childId chapter) then Status 403
      else if mismatch parentId (Chapter.parentId chapter) then Status 403
      else Json chapter
  end.

(** GET /api/results/:id *)
Definition get_result (db : Database) (req : ChildRequest) : Response ChapterResult.t :=
  match Storage.getResultById db (param req) with
  | None => Status 404
  | Some result =>
      let childId := authenticatedChildId req in
      let parentId := authenticatedParentId req in
      if mismatch childId (ChapterResult.childId result) then Status 403
      else
        match present parentId, present childId with
        | Some parentId, None =>
            match Storage.getChapterById db (ChapterResult.chapterId result) with
            | None => Status 403
            | Some chapter =>
                if negb (String.eqb (Chapter.parentId chapter) parentId)
                then Status 403
                else Json result
            end
        | _, _ => Json result
        end
  end.

(** A dual-mode route: the gate, then the handler. *)
Definition guarded {T} (handler : Database -> ChildRequest -> Response T)
    (db : Database) (session : option Session) (claimedChildId : option string)
    (param : string) : Response T :=
  match requireChildAccess session claimedChildId param with
  | Json req => handler db req
  | Status code => Status code
  end.

(** POST /api/child/login. [verifyParentToken] belongs to [server/auth.ts]:
    it gives the [userId] of a token, [None] when it throws. *)
Record LoginRequest : Type := mkLoginRequest {
  body_childId : option string;
  cookie_parentToken : option string
}.

Record LoginResponse : Type := mkLoginResponse {
  code : Z;
  (** the arguments of [setChildCookie], when it was called *)
  childCookie : option (string * string);
  (** [child.name] of the success body *)
  body_child : option (string * string)
}.

Definition refuse (code : Z) : LoginResponse :=
  {| code := code; childCookie := None; body_child := None |}.

Definition child_login (verifyParentToken : string -> option string)
    (db : Database) (req : LoginRequest) : LoginResponse :=
  match present (body_childId req) with
  | None => refuse 400
  | Some childId =>
      match present (cookie_parentToken req) with
      | None => refuse 401
      | Some parentToken =>
          match verifyParentToken parentToken with
          | None => refuse 401
          | Some parentId =>
              match Storage.getChildById db childId with
              | None => refuse 403
              | Some child =>
                  if negb (String.eqb (Child.parentId child) parentId)
                  then refuse 403
                  else {| code := 200;
                          childCookie := Some (childId, parentId);
                          body_child := Some (childId, Child.name child) |}
              end
          end
      end
  end.

(** The body of POST /api/chapters as [createChapterSchema] parses it. *)
Record CreateChapterBody : Type := mkCreateChapterBody {
  chapterData : InsertChapter;
  (** [photoData: z.string()] and [pageNumber: z.number()] *)
  photos : list (string * Num.number)
}.

(** The arguments of the [processChapterInBackground] call that the
    handler starts and does not await. *)
Record BackgroundTask : Type := mkBackgroundTask {
  task_chapterId : string;
  task_photos : list string;
  task_subject : string;
  task_grade : Num.number
}.

(** POST /api/chapters, behind [requireParentSession]: [body] is [None]
    when the schema refuses it, [newId] is the key the database generates.
    When the insert of the photos throws, the chapter row is already written:
    the handler answers 400 and starts no task. *)
Definition post_chapters (newId : string) (authenticatedParentId : option string)
    (body : option CreateChapterBody) (db : Database)
    : Response Chapter.t * Database * option BackgroundTask :=
  match body with
  | None => (Status 400, db, None)
  | Some data =>
      if negb (bool_decide (Some (ins_parentId (chapterData data)) = authenticatedParentId))
      then (Status 403, db, None)
      else
        let '(chapter, db1) := Storage.createChapter db newId (chapterData data) in
        let saved := match photos data with
                     | [] => Some db1
                     | _ :: _ => Storage.createChapterPhotos db1 newId (photos data)
                     end in
        match saved with
        | None => (Status 400, db1, None)
        | Some db2 =>
            (Json chapter, db2,
             Some {| task_chapterId := newId;
                     task_photos := map fst (photos data);
                     task_subject := ins_subject (chapterData data);
                     task_grade := Num.of_Z (ins_grade (chapterData data)) |})
        end
  end.

(** The [catch] of [processChapterInBackground]. *)
Definition mark_failed (now : Z) (chapterId : string) (w : World) (db : Database)
    : World * Database :=
  let '(_, w') := console_write error "Failed to process chapter" w in
  (w', Storage.updateChapterStatus db now chapterId "error").

(** [processChapterInBackground]: the pipeline, then one update of the row.
    The update of the content is inside the [try] too: when the pipeline
    throws, and when the database refuses the content, the [catch] sets the
    status "error". *)
Definition processChapterInBackground (jsonb_accepts : JValue -> bool) (env : Env)
    (now : Z) (chapterId : string)
    (photos : list string) (subject : string) (grade : Num.number)
    (w : World) (db : Database) : World * Database :=
  let '(_, w0) := console_write log "Starting AI processing for chapter" w in
  match processChapterWithAI env photos subject grade w0 with
  | (Ok content, w1) =>
      match Storage.updateChapterContent jsonb_accepts db chapterId content with
      | Some db1 =>
          let '(_, w2) := console_write log "Chapter processed successfully!" w1 in
          (w2, db1)
      | None => mark_failed now chapterId w1 db
      end
  | (Throw _, w1) => mark_failed now chapterId w1 db
  end.

Definition run_task (jsonb_accepts : JValue -> bool) (env : Env) (now : Z)
    (task : BackgroundTask) (w : World) (db : Database) : World * Database :=
  processChapterInBackground jsonb_accepts env now (task_chapterId task)
    (task_photos task) (task_subject task) (task_grade task) w db.

End Routes.

(** * More of the code: scoring on stored content, sessions,
      notifications and the handlers that submit, list and create *)


(** ** More rows of [shared/schema.ts]

    As before a table is a finite map from the primary key to the row, a
    statement is one atomic step, a generated key is an argument, and the
    columns the modelled code does not read are left out. *)

Module NotificationPreferences.
Record t : Type := mk {
  chapterComplete : bool;
  badgeEarned : bool;
  weeklyReport : bool;
  streakReminder : bool
}.
End NotificationPreferences.

Module User.
Record t : Type := mk {
  email : string;
  fullName : string;
  notificationPreferences : option NotificationPreferences.t
}.
End User.

Module LearningSession.
Record t : Type := mk {
  childId : string;
  chapterId : string;
  stage : string;
  endedAt : option Z;
  durationSeconds : Z
}.
End LearningSession.

Module Notification.
Record t : Type := mk {
  userId : string;
  type : string;
  data_childId : option string;
  data_chapterId : option string;
  read : bool
}.
End Notification.

(** The tables of [Database] and three more. *)
Record Store : Type := mkStore {
  tables : Database;
  users : gmap string User.t;
  learningSessions : gmap string LearningSession.t;
  notifications : gmap string Notification.t
}.

(** ** More of [server/storage.ts] *)

Module StorageMore.

Definition with_tables (s : Store) (db : Database) : Store :=
  {| tables := db; users := users s; learningSessions := learningSessions s;
     notifications := notifications s |}.

Definition with_sessions (s : Store) (rows : gmap string LearningSession.t) : Store :=
  {| tables := tables s; users := users s; learningSessions := rows;
     notifications := notifications s |}.

Definition with_notifications (s : Store) (rows : gmap string Notification.t) : Store :=
  {| tables := tables s; users := users s; learningSessions := learningSessions s;
     notifications := rows |}.

Definition with_users (s : Store) (rows : gmap string User.t) : Store :=
  {| tables := tables s; users := rows; learningSessions := learningSessions s;
     notifications := notifications s |}.

(** The rows of a parent, each with its key. *)
Definition getChildrenByParent (db : Database) (parentId : string)
    : list (string * Child.t) :=
  filter (λ kc, Child.parentId (snd kc) = parentId) (map_to_list (children db)).

Definition getChaptersByParent (db : Database) (parentId : string)
    : list (string * Chapter.t) :=
  filter (λ kc, Chapter.parentId (snd kc) = parentId) (map_to_list (chapters db)).


Definition set_stars (stars : Z) (c : Child.t) : Child.t :=
  {| Child.parentId := Child.parentId c; Child.name := Child.name c;
     Child.age := Child.age c; Child.totalStars := stars |}.

(** [total_stars] is an [integer] column: [None] when [stars] is no value
    of it, and the update throws. *)
Definition updateChildStars (db : Database) (id : string) (stars : Z) : option Database :=
  if in_int4 stars
  then Some {| children := alter (set_stars stars) id (children db);
               chapters := chapters db;
               chapterResults := chapterResults db; chapterPhotos := chapterPhotos db;
               chapter_writes := chapter_writes db |}
  else None.

Definition createChapterResult (db : Database) (id : string) (row : ChapterResult.t)
    : Database :=
  {| children := children db; chapters := chapters db;
     chapterResults := <[id := row]> (chapterResults db);
     chapterPhotos := chapterPhotos db; chapter_writes := chapter_writes db |}.

(** [const [result] = await db.select()...where(eq(chapterId, ...))]: one of
    the rows of the chapter; which one is the database's choice, here the
    first in the order of the keys. *)
Definition getResultByChapter (db : Database) (chapterId : string)
    : option ChapterResult.t :=
  head (filter (λ r, ChapterResult.chapterId r = chapterId)
          (snd <$> map_to_list (chapterResults db))).

Definition createLearningSession (s : Store) (id : string) (row : LearningSession.t)
    : Store :=
  with_sessions s (<[id := row]> (learningSessions s)).

Definition getLearningSessionById (s : Store) (id : string) : option LearningSession.t :=
  learningSessions s !! id.

Definition set_ended (now durationSeconds : Z) (row : LearningSession.t)
    : LearningSession.t :=
  {| LearningSession.childId := LearningSession.childId row;
     LearningSession.chapterId := LearningSession.chapterId row;
     LearningSession.stage := LearningSession.stage row;
     LearningSession.endedAt := Some now;
     LearningSession.durationSeconds := durationSeconds |}.

Definition endLearningSession (s : Store) (now : Z) (id : string) (durationSeconds : Z)
    : Store :=
  with_sessions s (alter (set_ended now durationSeconds) id (learningSessions s)).

Definition createNotification (s : Store) (id : string) (row : Notification.t) : Store :=
  with_notifications s (<[id := row]> (notifications s)).

Definition getNotificationById (s : Store) (id : string) : option Notification.t :=
  notifications s !! id.

Definition set_read (n : Notification.t) : Notification.t :=
  {| Notification.userId := Notification.userId n; Notification.type := Notification.type n;
     Notification.data_childId := Notification.data_childId n;
     Notification.data_chapterId := Notification.data_chapterId n;
     Notification.read := true |}.

Definition markNotificationRead (s : Store) (id : string) : Store :=
  with_notifications s (alter set_read id (notifications s)).

Definition markAllNotificationsRead (s : Store) (userId : string) : Store :=
  with_notifications s
    ((λ n, if bool_decide (Notification.userId n = userId) then set_read n else n)
       <$> notifications s).

(** The SQL count of the unread notifications of the user. *)
Definition getUnreadCount (s : Store) (userId : string) : nat :=
  length (filter (λ n, Notification.userId n = userId ∧ Notification.read n = false)
            (snd <$> map_to_list (notifications s))).

(** [user?.notificationPreferences || null]. *)
Definition getNotificationPreferences (s : Store) (userId : string)
    : option NotificationPreferences.t :=
  match users s !! userId with
  | Some user => User.notificationPreferences user
  | None => None
  end.

End StorageMore.


(** ** Scoring on the stored content

    The submit handler passes [content.practice] and [content.test] of the
    stored JSON to [calculateScores]; nothing checks that they are arrays of
    questions. *)

(** [questions[index]?.correct]: a TypeError when [questions] is [undefined]
    or [null]; the [correct] of the element when [questions] is an array, or
    an object with the index as a key, and the element is an object;
    [undefined] in every other case. *)
Definition correct_of (questions : option JValue) (index : nat) : Error + option JValue :=
  match questions with
  | None | Some JNull => inl TypeError
  | Some (JArr items) =>
      match items !! index with
      | Some (JObj fields) => inr (assoc "correct" fields)
      | _ => inr None
      end
  | Some (JObj entries) =>
      match assoc (pretty index) entries with
      | Some (JObj fields) => inr (assoc "correct" fields)
      | _ => inr None
      end
  | Some _ => inr None
  end.

(** [undefined === answer] is false. *)
Definition strict_eq_opt (v : option JValue) (answer : string) : bool :=
  match v with
  | Some v => strict_eq_str v answer
  | None => false
  end.

(** The [forEach] of [calculateScores] on such a value: the first TypeError
    ends it. *)
Fixpoint forEach_count_js (questions : option JValue) (answers : list string)
    (index : nat) (score : nat) : Error + nat :=
  match answers with
  | [] => inr score
  | answer :: rest =>
      match correct_of questions index with
      | inl e => inl e
      | inr c =>
          forEach_count_js questions rest (S index)
            (if strict_eq_opt c answer then S score else score)
      end
  end.

Definition calculateScores_js (practiceAnswers testAnswers : list string)
    (practiceQuestions testQuestions : option JValue) : Error + Scores :=
  match forEach_count_js practiceQuestions practiceAnswers 0 0 with
  | inl e => inl e
  | inr practiceScore =>
      match forEach_count_js testQuestions testAnswers 0 0 with
      | inl e => inl e
      | inr testScore =>
          let totalScore := (practiceScore + testScore)%nat in
          inr {| practiceScore := practiceScore; testScore := testScore;
                 totalScore := totalScore;
                 stars := calculateStars (Num.of_nat totalScore) (Num.of_Z 15) |}
      end
  end.

(** A question as the JSON object [questionSchema] describes. *)
Definition difficulty_string (d : Difficulty) : string :=
  match d with
  | easy => "easy" | medium => "medium" | hard => "hard"
  end%string.

Definition question_json (q : Question) : JValue :=
  JObj [("question", JStr (question q));
        ("options", JArr (JStr <$> options q));
        ("correct", JStr (letter_string (correct q)));
        ("difficulty", JStr (difficulty_string (difficulty q)))]%string.

(** ** More of [server/routes.ts] *)

Module Handlers.

(** [z.array(z.string())]. *)
Fixpoint parse_strings (items : list JValue) : option (list string) :=
  match items with
  | [] => Some []
  | JStr s :: rest =>
      match parse_strings rest with
      | Some l => Some (s :: l)
      | None => None
      end
  | _ :: _ => None
  end.

Definition parse_string_array (v : option JValue) : option (list string) :=
  match v with
  | Some (JArr items) => parse_strings items
  | _ => None
  end.

(** [submitAnswersSchema.parse(req.body)]: [None] when it throws. *)
Definition submitAnswersSchema (body : JValue) : option (list string * list string) :=
  match body with
  | JObj fields =>
      match parse_string_array (assoc "practiceAnswers" fields),
            parse_string_array (assoc "testAnswers" fields) with
      | Some practiceAnswers, Some testAnswers => Some (practiceAnswers, testAnswers)
      | _, _ => None
      end
  | _ => None
  end.

Record StartSession : Type := mkStartSession {
  start_childId : string;
  start_chapterId : string;
  start_stage : string
}.

(** [z.string().min(1)]. *)
Definition parse_nonempty (v : option JValue) : option string :=
  match v with
  | Some (JStr (String _ _ as s)) => Some s
  | _ => None
  end.

(** [z.enum(["learn", "practice", "test"])]. *)
Definition parse_stage (v : option JValue) : option string :=
  match v with
  | Some (JStr s) =>
      if existsb (String.eqb s) ["learn"; "practice"; "test"]%string then Some s else None
  | _ => None
  end.

Definition startSessionSchema (body : JValue) : option StartSession :=
  match body with
  | JObj fields =>
      match parse_nonempty (assoc "childId" fields),
            parse_nonempty (assoc "chapterId" fields),
            parse_stage (assoc "stage" fields) with
      | Some childId, Some chapterId, Some stage =>
          Some {| start_childId := childId; start_chapterId := chapterId;
                  start_stage := stage |}
      | _, _, _ => None
      end
  | _ => None
  end.

(** [z.object({ durationSeconds: z.number().min(0) })]. *)
Definition endSessionSchema (body : JValue) : option Num.number :=
  match body with
  | JObj fields =>
      match assoc "durationSeconds" fields with
      | Some (JNum x) => if Num.geb x (Num.of_Z 0) then Some x else None
      | _ => None
      end
  | _ => None
  end.

(** GET /api/children, behind [requireParentSession]. *)
Definition get_children (db : Database) (authenticatedParentId : option string)
    : Response (list (string * Child.t)) :=
  match present authenticatedParentId with
  | None => Status 401
  | Some parentId => Json (StorageMore.getChildrenByParent db parentId)
  end.

(** GET /api/chapters, behind [requireParentSession]. *)
Definition get_chapters (db : Database) (authenticatedParentId : option string)
    : Response (list (string * Chapter.t)) :=
  match present authenticatedParentId with
  | None => Status 401
  | Some parentId => Json (StorageMore.getChaptersByParent db parentId)
  end.



(** GET /api/chapters/:id/result *)
Definition get_chapter_result (db : Database) (req : ChildRequest)
    : Response ChapterResult.t :=
  match Storage.getChapterById db (param req) with
  | None => Status 404
  | Some chapter =>
      let childId := authenticatedChildId req in
      let parentId := authenticatedParentId req in
      if Routes.mismatch childId (Chapter.childId chapter) then Status 403
      else if Routes.mismatch parentId (Chapter.parentId chapter) then Status 403
      else
        match StorageMore.getResultByChapter db (param req) with
        | None => Status 404
        | Some result => Json result
        end
  end.

(** [content.practice] of a stored content that is truthy. *)
Definition content_field (content : JValue) (key : string) : option JValue :=
  match get_prop content key with
  | inr v => v
  | inl _ => None
  end.

(** [parentPrefs?.chapterComplete !== false]. *)
Definition wants_chapter_complete (prefs : option NotificationPreferences.t) : bool :=
  match prefs with
  | Some p => NotificationPreferences.chapterComplete p
  | None => true
  end.

(** POST /api/chapters/:id/submit. [resultId] and [notificationId] are the
    keys the database generates, [now] is [new Date()]. When the update of
    the stars throws, the result and the status of the chapter are already
    written: the [catch] answers 400. *)
Definition submit (now : Z) (resultId notificationId : string) (req : ChildRequest)
    (body : JValue) (s : Store) : Response ChapterResult.t * Store :=
  match submitAnswersSchema body with
  | None => (Status 400, s)
  | Some (practiceAnswers, testAnswers) =>
      let chapterId := param req in
      match Storage.getChapterById (tables s) chapterId with
      | None => (Status 404, s)
      | Some chapter =>
          match Chapter.content chapter with
          | None => (Status 404, s)
          | Some content =>
              if negb (truthy content) then (Status 404, s)
              else
                match present (authenticatedChildId req) with
                | None => (Status 403, s)
                | Some childId =>
                    if negb (String.eqb (Chapter.childId chapter) childId)
                    then (Status 403, s)
                    else
                      match calculateScores_js practiceAnswers testAnswers
                              (content_field content "practice")
                              (content_field content "test") with
                      | inl _ => (Status 400, s)
                      | inr scores =>
                          let result :=
                            {| ChapterResult.chapterId := chapterId;
                               ChapterResult.childId := Chapter.childId chapter;
                               ChapterResult.practiceScore := Z.of_nat (practiceScore scores);
                               ChapterResult.testScore := Z.of_nat (testScore scores);
                               ChapterResult.totalScore := Z.of_nat (totalScore scores);
                               ChapterResult.stars := stars scores |} in
                          let db1 := StorageMore.createChapterResult (tables s) resultId result in
                          let db2 := Storage.updateChapterStatus db1 now chapterId "completed" in
                          match Storage.getChildById db2 (Chapter.childId chapter) with
                          | None => (Json result, StorageMore.with_tables s db2)
                          | Some child =>
                              match StorageMore.updateChildStars db2 (Chapter.childId chapter)
                                      (Child.totalStars child + stars scores) with
                              | None => (Status 400, StorageMore.with_tables s db2)
                              | Some db3 =>
                                  let s3 := StorageMore.with_tables s db3 in
                                  if wants_chapter_complete
                                       (StorageMore.getNotificationPreferences s3
                                          (Chapter.parentId chapter))
                                  then
                                    (Json result,
                                     StorageMore.createNotification s3 notificationId
                                       {| Notification.userId := Chapter.parentId chapter;
                                          Notification.type := "chapter_complete";
                                          Notification.data_childId :=
                                            Some (Chapter.childId chapter);
                                          Notification.data_chapterId := Some chapterId;
                                          Notification.read := false |})
                                  else (Json result, s3)
                              end
                          end
                      end
                end
          end
      end
  end.

(** POST /api/sessions/start *)
Definition sessions_start (newId : string) (req : ChildRequest) (body : JValue)
    (s : Store) : Response LearningSession.t * Store :=
  match startSessionSchema body with
  | None => (Status 400, s)
  | Some data =>
      let refused :=
        match present (authenticatedChildId req) with
        | Some authenticatedChildId =>
            negb (String.eqb (start_childId data) authenticatedChildId)
        | None =>
            match present (authenticatedParentId req) with
            | Some authenticatedParentId =>
                match Storage.getChildById (tables s) (start_childId data) with
                | None => true
                | Some child => negb (String.eqb (Child.parentId child) authenticatedParentId)
                end
            | None => false
            end
        end in
      if refused then (Status 403, s)
      else
        match Storage.getChapterById (tables s) (start_chapterId data) with
        | None => (Status 403, s)
        | Some chapter =>
            if negb (String.eqb (Chapter.childId chapter) (start_childId data))
            then (Status 403, s)
            else
              let session :=
                {| LearningSession.childId := start_childId data;
                   LearningSession.chapterId := start_chapterId data;
                   LearningSession.stage := start_stage data;
                   LearningSession.endedAt := None;
                   LearningSession.durationSeconds := 0 |} in
              (Json session, StorageMore.createLearningSession s newId session)
        end
  end.

(** POST /api/sessions/:id/end; the body of the success answer is
    [{ success: true }]. *)
Definition sessions_end (now : Z) (req : ChildRequest) (body : JValue) (s : Store)
    : Response unit * Store :=
  match endSessionSchema body with
  | None => (Status 400, s)
  | Some durationSeconds =>
      match StorageMore.getLearningSessionById s (param req) with
      | None => (Status 404, s)
      | Some session =>
          if Routes.mismatch (authenticatedChildId req) (LearningSession.childId session)
          then (Status 403, s)
          else
            let refused :=
              match present (authenticatedParentId req), present (authenticatedChildId req) with
              | Some authenticatedParentId, None =>
                  match Storage.getChildById (tables s) (LearningSession.childId session) with
                  | None => true
                  | Some child =>
                      negb (String.eqb (Child.parentId child) authenticatedParentId)
                  end
              | _, _ => false
              end in
            if refused then (Status 403, s)
            else
              match to_int4 durationSeconds with
              | None => (Status 500, s)
              | Some seconds =>
                  (Json tt, StorageMore.endLearningSession s now (param req) seconds)
              end
      end
  end.

(** PATCH /api/notifications/:id/read, behind [requireParentSession]:
    [notificationIdParamSchema] refuses an empty id, and this handler answers
    every exception with 500. *)
Definition notification_read (authenticatedParentId : option string) (id : string)
    (s : Store) : Response unit * Store :=
  match id with
  | EmptyString => (Status 500, s)
  | String _ _ =>
      match StorageMore.getNotificationById s id with
      | None => (Status 403, s)
      | Some notification =>
          if negb (bool_decide (Some (Notification.userId notification)
                                = authenticatedParentId))
          then (Status 403, s)
          else (Json tt, StorageMore.markNotificationRead s id)
      end
  end.

(** PATCH /api/users/:userId/notifications/read-all *)
Definition notifications_read_all (authenticatedParentId : option string) (s : Store)
    : Response unit * Store :=
  match present authenticatedParentId with
  | None => (Status 401, s)
  | Some userId => (Json tt, StorageMore.markAllNotificationsRead s userId)
  end.

(** GET /api/users/:userId/notifications/unread-count *)
Definition get_unread_count (authenticatedParentId : option string) (s : Store)
    : Response nat :=
  match present authenticatedParentId with
  | None => Status 401
  | Some userId => Json (StorageMore.getUnreadCount s userId)
  end.

End Handlers.

(** ** Notions the properties are stated with *)

(** *** Scoring *)

(** The answer at index [i] is correct: a question exists there and the
    answer is its letter. *)
Definition correct_at (questions : list Question) (answers : list string)
    (i : nat) : Prop :=
  ∃ q a, questions !! i = Some q ∧ answers !! i = Some a
         ∧ a = letter_string (correct q).

#[local] Instance correct_at_dec questions answers i :
  Decision (correct_at questions answers i).
Proof.
  unfold correct_at.
  destruct (questions !! i) as [q|] eqn:Hq;
    [|right; intros (? & ? & ? & ? & ?); congruence].
  destruct (answers !! i) as [a|] eqn:Ha;
    [|right; intros (? & ? & ? & ? & ?); congruence].
  destruct (decide (a = letter_string (correct q))) as [Heq|Hne].
  - left. eauto.
  - right. intros (? & ? & ? & ? & ?). congruence.
Defined.

(** The five tiers on the exact ratio [score / total] of two integers, for
    [total > 0]: [score / total >= 90 / 100] is [90 * total <= 100 * score]. *)
Definition star_tier (score total : Z) : Z :=
  if 90 * total <=? 100 * score then 5
  else if 80 * total <=? 100 * score then 4
  else if 70 * total <=? 100 * score then 3
  else if 60 * total <=? 100 * score then 2
  else 1.

(** [score / total >= num / 100] on the exact values of two finite doubles,
    for [total > 0]. *)
Definition ratio_geb (score total : Num.number) (num : Z) : bool :=
  num * (Num.numerator total * Num.denominator score)
  <=? 100 * (Num.numerator score * Num.denominator total).

Definition exact_tier (score total : Num.number) : Z :=
  if ratio_geb score total 90 then 5
  else if ratio_geb score total 80 then 4
  else if ratio_geb score total 70 then 3
  else if ratio_geb score total 60 then 2
  else 1.

(** *** Rounding in binary64

    The notions that relate the rounding of [SpecFloat] to exact integer
    arithmetic; the properties of [calculateStars] on whole numbers are
    proved from them. *)

(** The two bits that say where [N / D] lies between [N `div` D] and the
    next integer: at or above the middle, and off both the integer and the middle. *)
Definition round_bit (N D : Z) : bool := D <=? 2 * (N mod D).
Definition sticky_bit (N D : Z) : bool :=
  negb (N mod D =? 0) && negb (2 * (N mod D) =? D).

(** The shift record [mrs] of [SpecFloat] stands for the rational [N / D]:
    its mantissa is the quotient and its two bits are those of the
    remainder. *)
Definition shr_repr (N D : Z) (mrs : shr_record) : Prop :=
  shr_m mrs = N / D ∧ shr_r mrs = round_bit N D ∧ shr_s mrs = sticky_bit N D.

(** The location of [N / D] between [N `div` D] and the next integer. *)
Definition location_of (N D : Z) : location :=
  loc_of_shr_record
    {| shr_m := N / D; shr_r := round_bit N D; shr_s := sticky_bit N D |}.

(** [2^e] as a whole number, for the exponents of the doubles met here:
    all values are counted in units of [2^-300]. *)
Definition pw (e : Z) : Z := 2 ^ (e + 300).

(** The double [m * 2^e] is within half a unit of its last place of the
    rational [A / B], counted in units of [2^-300]. *)
Definition near (m e A B : Z) : Prop :=
  (2 * m - 1) * pw e * B ≤ 2 * A ≤ (2 * m + 1) * pw e * B.

(** The order of two positive normal doubles [m1 * 2^e1 <= m2 * 2^e2], read
    off the exponents first. *)
Definition fle (m1 e1 m2 e2 : Z) : Prop := e1 < e2 ∨ (e1 = e2 ∧ m1 ≤ m2).

(** *** The pipeline *)

Definition gemini_ready (env : Env) (w : World) : bool :=
  genAIClient w || key_present (env_or env "GEMINI_API_KEY" "AI_INTEGRATIONS_GEMINI_API_KEY").
Definition openai_ready (env : Env) (w : World) : bool :=
  openaiClient w || key_present (env_or env "OPENAI_API_KEY" "AI_INTEGRATIONS_OPENAI_API_KEY").
Definition anthropic_ready (env : Env) (w : World) : bool :=
  anthropicClient w || key_present (env_or env "ANTHROPIC_API_KEY" "AI_INTEGRATIONS_ANTHROPIC_API_KEY").

Definition clients_ready (env : Env) (w : World) : Prop :=
  gemini_ready env w = true ∧ openai_ready env w = true ∧ anthropic_ready env w = true.

Definition valid_photo (photo : string) : Prop := is_Some (Regex.match_data_url photo).

(** [w'] comes after [w]: clients are kept, console and calls only grow. *)
Record extends (env : Env) (w w' : World) (new_calls : list ExtCall) : Prop := {
  ext_calls : calls w' = calls w ++ new_calls;
  ext_gemini : gemini_ready env w = true → gemini_ready env w' = true;
  ext_openai : openai_ready env w = true → openai_ready env w' = true;
  ext_anthropic : anthropic_ready env w = true → anthropic_ready env w' = true
}.

#[local] Instance valid_photo_dec photo : Decision (valid_photo photo).
Proof. unfold valid_photo. apply _. Defined.

(** The reply of the verification capability to the call this stage makes. *)
Definition stage2_reply (env : Env) (content : JValue) (w : World)
    : Reply (list (option string)) :=
  chat_completions_create env (length (calls w)) content.

(** Stage 2 has no usable output: the client cannot be built, the call is
    rejected, the response has no choice, its text is no JSON, or it is the
    JSON [null]. *)
Inductive stage2_failure (env : Env) (content : JValue) (w : World) : Prop :=
  | gpt_no_client :
      openai_ready env w = false → stage2_failure env content w
  | gpt_rejected :
      stage2_reply env content w = Rejected → stage2_failure env content w
  | gpt_no_choice :
      stage2_reply env content w = Resolved [] → stage2_failure env content w
  | gpt_unparseable choices text :
      stage2_reply env content w = Resolved choices →
      first_choice_content choices = Some text →
      JSON_parse env text = None → stage2_failure env content w
  | gpt_null choices text :
      stage2_reply env content w = Resolved choices →
      first_choice_content choices = Some text →
      JSON_parse env text = Some JNull → stage2_failure env content w.

(** Stage 2 made its call and the reply parsed to [v]. *)
Definition stage2_parsed (env : Env) (content : JValue) (w : World) (v : JValue) : Prop :=
  openai_ready env w = true
  ∧ ∃ choices text,
      stage2_reply env content w = Resolved choices
      ∧ first_choice_content choices = Some text
      ∧ JSON_parse env text = Some v.

Definition stage3_reply (env : Env) (content issues : JValue) (w : World)
    : Reply (list ContentBlock) :=
  messages_create env (length (calls w)) content issues.

(** Stage 3 has no usable output: the client cannot be built, the call is
    rejected (an API error or a timeout), the response has no text block,
    the text holds no braces, or what the braces hold is no JSON. *)
Inductive stage3_failure (env : Env) (content issues : JValue) (w : World) : Prop :=
  | claude_no_client :
      anthropic_ready env w = false → stage3_failure env content issues w
  | claude_rejected :
      stage3_reply env content issues w = Rejected → stage3_failure env content issues w
  | claude_no_text blocks :
      stage3_reply env content issues w = Resolved blocks →
      find_text blocks = None → stage3_failure env content issues w
  | claude_no_braces blocks text :
      stage3_reply env content issues w = Resolved blocks →
      find_text blocks = Some text →
      Regex.match_braces text = None → stage3_failure env content issues w
  | claude_unparseable blocks text jsonMatch :
      stage3_reply env content issues w = Resolved blocks →
      find_text blocks = Some text →
      Regex.match_braces text = Some jsonMatch →
      JSON_parse env jsonMatch = None → stage3_failure env content issues w.

(** The world when [fixWithClaude] starts: the two lines the pipeline logs
    after a verdict that is not PASS. *)
Definition after_verdict_logs (w : World) : World :=
  snd (console_write log "Issues:"
         (snd (console_write log "Content verification failed, fixing with Claude..." w))).

(** *** Ownership *)

(** The owner predicate of the specification: a child caller owns what
    carries its childId, a parent caller what carries its parentId. *)
Definition owns_chapter (caller : Session) (chapter : Chapter.t) : Prop :=
  match caller with
  | ChildSession childId _ => Chapter.childId chapter = childId
  | ParentSession parentId => Chapter.parentId chapter = parentId
  end.

(** A result carries a childId; its parent is the parent of its chapter. *)
Definition owns_result (db : Database) (caller : Session) (result : ChapterResult.t) : Prop :=
  match caller with
  | ChildSession childId _ => ChapterResult.childId result = childId
  | ParentSession parentId =>
      ∃ chapter, chapters db !! ChapterResult.chapterId result = Some chapter
                 ∧ Chapter.parentId chapter = parentId
  end.

(** The id a session authenticates: a key of [children] or of [users], never
    the empty string. *)
Definition subject_id (caller : Session) : string :=
  match caller with
  | ChildSession childId _ => childId
  | ParentSession parentId => parentId
  end.

(** *** The writes of a chapter row *)

(** The row as [createChapter] writes it. *)
Definition created_row (data : InsertChapter) : Chapter.t :=
  {| Chapter.childId := ins_childId data; Chapter.parentId := ins_parentId data;
     Chapter.title := ins_title data; Chapter.subject := ins_subject data;
     Chapter.grade := ins_grade data; Chapter.content := None;
     Chapter.status := Some "processing"%string; Chapter.completedAt := None |}.

(** The world in which the background task runs the pipeline. *)
Definition task_start (w : World) : World :=
  snd (console_write log "Starting AI processing for chapter" w).

(** *** Texts, photos and values *)

(** [c] occurs in [s]. *)
Fixpoint has_char (c : ascii) (s : string) : bool :=
  match s with
  | EmptyString => false
  | String a s' => Ascii.eqb a c || has_char c s'
  end.


(** [parts] are the photos, decoded one by one. *)
Definition decoded (photos : list string) (parts : list InlineData) : Prop :=
  Forall2 (λ photo part, extractBase64 photo = inr part) photos parts.

(** [a] is one of the four letters a question can have as [correct]. *)
Definition is_letter (a : string) : bool :=
  existsb (String.eqb a) ["A"; "B"; "C"; "D"]%string.



(** [undefined] or [null]. *)
Definition nullish (v : option JValue) : Prop := v = None ∨ v = Some JNull.

(** *** Sample runs *)

Module Sample.

Definition dq : string := String (ascii_of_nat 34) EmptyString.
Definition quoted (s : string) : string := dq ++ s ++ dq.

Definition photo : string := "data:image/png;base64,iVBORw0KGgo=".

(** [{"topic":"Fractions"}] *)
Definition lesson_text : string :=
  "{" ++ quoted "topic" ++ ":" ++ quoted "Fractions" ++ "}".
Definition lesson : JValue := JObj [("topic", JStr "Fractions")]%string.

(** [{"topic":"Halves"}] *)
Definition repaired_text : string :=
  "{" ++ quoted "topic" ++ ":" ++ quoted "Halves" ++ "}".
Definition repaired : JValue := JObj [("topic", JStr "Halves")]%string.

(** [{"issues":["unclear wording"]}] *)
Definition issues_only_text : string :=
  "{" ++ quoted "issues" ++ ":[" ++ quoted "unclear wording" ++ "]}".
Definition issues_only : JValue :=
  JObj [("issues", JArr [JStr "unclear wording"])]%string.

(** [{"status":"FAIL","issues":["unclear wording"]}] *)
Definition fail_list_text : string :=
  "{" ++ quoted "status" ++ ":" ++ quoted "FAIL" ++ ","
      ++ quoted "issues" ++ ":[" ++ quoted "unclear wording" ++ "]}".
Definition fail_list : JValue :=
  JObj [("status", JStr "FAIL"); ("issues", JArr [JStr "unclear wording"])]%string.

(** [{"status":"FAIL","issues":"unclear wording"}] *)
Definition fail_text_text : string :=
  "{" ++ quoted "status" ++ ":" ++ quoted "FAIL" ++ ","
      ++ quoted "issues" ++ ":" ++ quoted "unclear wording" ++ "}".
Definition fail_text : JValue :=
  JObj [("status", JStr "FAIL"); ("issues", JStr "unclear wording")]%string.

(** [{"topic":"Frac\u0000tions"}]: the escape stands for the character
    U+0000, which the parsed text holds. *)
Definition nul_lesson_text : string :=
  "{" ++ quoted "topic" ++ ":" ++ quoted "Frac\u0000tions" ++ "}".
Definition nul_lesson : JValue :=
  JObj [("topic", JStr ("Frac" ++ String "000" "tions"))]%string.

(** [JSON.parse] on the texts of the sample runs. *)
Definition parse (s : string) : option JValue :=
  if String.eqb s lesson_text then Some lesson
  else if String.eqb s repaired_text then Some repaired
  else if String.eqb s issues_only_text then Some issues_only
  else if String.eqb s fail_list_text then Some fail_list
  else if String.eqb s fail_text_text then Some fail_text
  else if String.eqb s nul_lesson_text then Some nul_lesson
  else None.

(** Every key is configured; Gemini answers the lesson. *)
Definition env (gpt : nat -> Reply (list (option string)))
    (claude : Reply (list ContentBlock)) : Env :=
  {| JSON_parse := parse;
     process_env := λ _, Some "sk-test"%string;
     generateContent := λ _ _ _ _, Resolved (Some lesson_text);
     chat_completions_create := λ n _, gpt n;
     messages_create := λ _ _ _, claude |}.

Definition start : World :=
  {| anthropicClient := false; openaiClient := false; genAIClient := false;
     console := []; calls := [] |}.

Definition grade3 : Num.number := Num.of_Z 3.

(** The verifier is down. *)
Definition env_gpt_down : Env := env (λ _, Rejected) Rejected.

(** The verifier answers issues and no status. *)
Definition env_issues_only : Env :=
  env (λ _, Resolved [Some issues_only_text]) Rejected.

(** The verifier fails the lesson with a list of issues, the repair is
    rejected. *)
Definition env_repair_down : Env :=
  env (λ _, Resolved [Some fail_list_text]) Rejected.

(** The verifier fails the lesson with a list of issues, before and after
    a repair that answers a new lesson. *)
Definition env_repaired : Env :=
  env (λ _, Resolved [Some fail_list_text])
      (Resolved [TextBlock repaired_text]).

(** The verifier fails the lesson and gives its issues as one text. *)
Definition env_text_issues : Env :=
  env (λ _, Resolved [Some fail_text_text])
      (Resolved [TextBlock repaired_text]).

(** The verifier gives its issues as one text and the repair service
    rejects every call. *)
Definition env_text_issues_repair_down : Env :=
  env (λ _, Resolved [Some fail_text_text]) Rejected.

(** Gemini answers a lesson whose topic holds the character U+0000; the
    verifier is down, so the verdict is PASS. *)
Definition env_nul_lesson : Env :=
  {| JSON_parse := parse;
     process_env := λ _, Some "sk-test"%string;
     generateContent := λ _ _ _ _, Resolved (Some nul_lesson_text);
     chat_completions_create := λ _ _, Rejected;
     messages_create := λ _ _ _, Rejected |}.

(** A [jsonb] column as PostgreSQL has it on these values: it refuses a
    value in which a text or a key holds the character U+0000. *)
Fixpoint holds_nul (v : JValue) : bool :=
  match v with
  | JStr s => has_char "000" s
  | JArr items => existsb holds_nul items
  | JObj fields => existsb (λ kv, has_char "000" (fst kv) || holds_nul (snd kv)) fields
  | _ => false
  end.

Definition jsonb_accepts (v : JValue) : bool := negb (holds_nul v).

(** Two families: Sara is the child of parent-1, Omar of parent-2, and
    Omar has one chapter with one result. *)
Definition sara : Child.t :=
  {| Child.parentId := "parent-1"; Child.name := "Sara"; Child.age := 8;
     Child.totalStars := 0 |}.
Definition omar : Child.t :=
  {| Child.parentId := "parent-2"; Child.name := "Omar"; Child.age := 9;
     Child.totalStars := 4 |}.
Definition omar_chapter : Chapter.t :=
  {| Chapter.childId := "kid-2"; Chapter.parentId := "parent-2";
     Chapter.title := "Fractions"; Chapter.subject := "math"; Chapter.grade := 3;
     Chapter.content := Some lesson; Chapter.status := Some "completed"%string;
     Chapter.completedAt := Some 1734500000 |}.
Definition omar_result : ChapterResult.t :=
  {| ChapterResult.chapterId := "chapter-2"; ChapterResult.childId := "kid-2";
     ChapterResult.practiceScore := 5; ChapterResult.testScore := 7;
     ChapterResult.totalScore := 12; ChapterResult.stars := 4 |}.

Definition db : Database :=
  {| children := <["kid-1"%string := sara]> (<["kid-2"%string := omar]> ∅);
     chapters := <["chapter-2"%string := omar_chapter]> ∅;
     chapterResults := <["result-2"%string := omar_result]> ∅;
     chapterPhotos := [];
     chapter_writes := [] |}.

(** [verifyParentToken] on the tokens of the sample requests. *)
Definition verify_token (token : string) : option string :=
  if String.eqb token "token-of-parent-1" then Some "parent-1"%string
  else if String.eqb token "token-of-parent-2" then Some "parent-2"%string
  else None.

Definition new_chapter : InsertChapter :=
  {| ins_childId := "kid-1"; ins_parentId := "parent-1";
     ins_title := "Fractions"; ins_subject := "math"; ins_grade := 3 |}.

End Sample.

(** A store over [Sample.db]: Sara has a chapter that is ready, with two
    practice questions and one test question; parent-2 asked for no
    notification when a chapter is completed and has one unread
    notification; Sara has one learning session that is open. *)
Module SampleStore.

Definition halves : Question :=
  {| question := "1/2 + 1/2"; options := ["1"; "2"; "1/4"; "0"]%string;
     correct := A; difficulty := easy |}.
Definition quarters : Question :=
  {| question := "1/4 + 1/4"; options := ["1"; "1/2"; "1/8"; "2"]%string;
     correct := B; difficulty := medium |}.
Definition thirds : Question :=
  {| question := "1/3 + 2/3"; options := ["3"; "1/3"; "1"; "2"]%string;
     correct := C; difficulty := hard |}.

Definition quiz : JValue :=
  JObj [("topic", JStr "Fractions");
        ("practice", JArr (question_json <$> [halves; quarters]));
        ("test", JArr (question_json <$> [thirds]))]%string.

Definition sara_chapter : Chapter.t :=
  {| Chapter.childId := "kid-1"; Chapter.parentId := "parent-1";
     Chapter.title := "Fractions"; Chapter.subject := "math"; Chapter.grade := 3;
     Chapter.content := Some quiz; Chapter.status := Some "ready"%string;
     Chapter.completedAt := None |}.

Definition db : Database :=
  {| children := children Sample.db;
     chapters := <["chapter-1"%string := sara_chapter]> (chapters Sample.db);
     chapterResults := chapterResults Sample.db;
     chapterPhotos := [];
     chapter_writes := [] |}.

Definition quiet : NotificationPreferences.t :=
  {| NotificationPreferences.chapterComplete := false;
     NotificationPreferences.badgeEarned := true;
     NotificationPreferences.weeklyReport := true;
     NotificationPreferences.streakReminder := true |}.

Definition parent1 : User.t :=
  {| User.email := "parent-1@example.com"; User.fullName := "Parent One";
     User.notificationPreferences := None |}.
Definition parent2 : User.t :=
  {| User.email := "parent-2@example.com"; User.fullName := "Parent Two";
     User.notificationPreferences := Some quiet |}.

Definition sara_session : LearningSession.t :=
  {| LearningSession.childId := "kid-1"; LearningSession.chapterId := "chapter-1";
     LearningSession.stage := "learn"; LearningSession.endedAt := None;
     LearningSession.durationSeconds := 0 |}.

Definition omar_notice : Notification.t :=
  {| Notification.userId := "parent-2"; Notification.type := "badge_earned";
     Notification.data_childId := Some "kid-2"%string; Notification.data_chapterId := None;
     Notification.read := false |}.

Definition store : Store :=
  {| tables := db;
     users := <["parent-1"%string := parent1]> (<["parent-2"%string := parent2]> ∅);
     learningSessions := <["session-1"%string := sara_session]> ∅;
     notifications := <["note-2"%string := omar_notice]> ∅ |}.

(** Sara, signed in as a child. *)
Definition as_sara (param : string) : ChildRequest :=
  {| authenticatedChildId := Some "kid-1"%string; authenticatedParentId := None;
     param := param |}.

(** [{"practiceAnswers":["A","C"],"testAnswers":["C"]}] *)
Definition answers : JValue :=
  JObj [("practiceAnswers", JArr [JStr "A"; JStr "C"]);
        ("testAnswers", JArr [JStr "C"])]%string.

(** What these answers score: the first and the third are right. *)
Definition sara_result : ChapterResult.t :=
  {| ChapterResult.chapterId := "chapter-1"; ChapterResult.childId := "kid-1";
     ChapterResult.practiceScore := 1; ChapterResult.testScore := 1;
     ChapterResult.totalScore := 2; ChapterResult.stars := 1 |}.

(** [{"childId":"kid-1","chapterId":"chapter-1","stage":"practice"}] *)
Definition start_practice : JValue :=
  JObj [("childId", JStr "kid-1"); ("chapterId", JStr "chapter-1");
        ("stage", JStr "practice")]%string.

(** [{"durationSeconds":90}] *)
Definition ninety_seconds : JValue :=
  JObj [("durationSeconds", JNum (Num.of_Z 90))]%string.

End SampleStore.

(** * Properties *)

(** ** Scoring *)

Lemma answer_matches_spec questions i a :
  answer_matches questions i a = true
  ↔ ∃ q, questions !! i = Some q ∧ a = letter_string (correct q).
Proof.
  unfold answer_matches. destruct (questions !! i) as [q|].
  - rewrite bool_decide_eq_true. split.
    + intros <-. eauto.
    + intros (? & [= <-] & ->). done.
  - split; [done|]. intros (? & ? & _). done.
Qed.

Lemma forEach_count_snoc questions answers a index score :
  forEach_count questions (answers ++ [a]) index score
  = (forEach_count questions answers index score
     + if answer_matches questions (index + length answers) a then 1 else 0)%nat.
Proof.
  revert index score. induction answers as [|b rest IH]; intros index score; simpl.
  - rewrite Nat.add_0_r. destruct (answer_matches questions index a); lia.
  - rewrite IH. replace (S index + length rest)%nat with (index + S (length rest))%nat by lia.
    done.
Qed.


Lemma filter_ext_elem {X} (P1 P2 : X → Prop)
    `{!∀ x, Decision (P1 x), !∀ x, Decision (P2 x)} (l : list X) :
  (∀ x, x ∈ l → P1 x ↔ P2 x) → filter P1 l = filter P2 l.
Proof.
  induction l as [|x l IH]; intros Hiff; [done|].
  assert (filter P1 l = filter P2 l) as Hl.
  { apply IH. intros y Hy. apply Hiff. by right. }
  assert (P1 x ↔ P2 x) as Hx by (apply Hiff; left).
  destruct (decide (P1 x)).
  - rewrite !filter_cons_True by tauto. by rewrite Hl.
  - rewrite !filter_cons_False by tauto. done.
Qed.

Lemma correct_at_snoc_lt questions answers a i :
  (i < length answers)%nat →
  correct_at questions (answers ++ [a]) i ↔ correct_at questions answers i.
Proof.
  intros Hi. unfold correct_at. rewrite lookup_app_l by done. done.
Qed.

Lemma correct_at_snoc_last questions answers a :
  correct_at questions (answers ++ [a]) (length answers)
  ↔ answer_matches questions (length answers) a = true.
Proof.
  unfold correct_at. rewrite answer_matches_spec.
  rewrite lookup_app_r, Nat.sub_diag by done. simpl.
  split.
  - intros (q & b & Hq & Hb & Hab). injection Hb as Hb. subst. eauto.
  - intros (q & Hq & Ha). eauto.
Qed.

Lemma forEach_count_filter questions answers :
  forEach_count questions answers 0 0
  = length (filter (correct_at questions answers) (seq 0 (length answers))).
Proof.
  induction answers as [|a answers IH] using rev_ind; [done|].
  rewrite forEach_count_snoc, length_app. simpl length.
  rewrite Nat.add_1_r, seq_S, filter_app, length_app, IH. simpl. f_equal.
  - f_equal. apply filter_ext_elem. intros i Hi.
    apply elem_of_seq in Hi. symmetry. apply correct_at_snoc_lt. lia.
  - destruct (answer_matches questions (length answers) a) eqn:Hm.
    + rewrite filter_cons_True by (by apply correct_at_snoc_last). done.
    + rewrite filter_cons_False; [done|].
      rewrite correct_at_snoc_last. congruence.
Qed.

Lemma forEach_count_le questions answers index score :
  (forEach_count questions answers index score
   ≤ score + (length questions - index))%nat.
Proof.
  revert index score. induction answers as [|a rest IH]; intros index score; simpl.
  - lia.
  - etrans; [apply IH|]. unfold answer_matches.
    destruct (questions !! index) as [q|] eqn:Hq.
    + apply lookup_lt_Some in Hq. case_bool_decide; lia.
    + lia.
Qed.

(** C7. For answer lists and question lists of any lengths,
    [calculateScores] counts the answer at index [i] exactly when a question
    exists at index [i] and the answer is, character for character, that
    question's correct letter; [practiceScore] and [testScore] are those
    counts and [totalScore] is their sum. The function is total: lists of
    different lengths give a result, never an exception. *)
Theorem calculateScores_counts practiceAnswers testAnswers practiceQuestions testQuestions :
  let r := calculateScores practiceAnswers testAnswers practiceQuestions testQuestions in
  practiceScore r
    = length (filter (correct_at practiceQuestions practiceAnswers)
                (seq 0 (length practiceAnswers)))
  ∧ testScore r
    = length (filter (correct_at testQuestions testAnswers)
                (seq 0 (length testAnswers)))
  ∧ totalScore r = (practiceScore r + testScore r)%nat.
Proof.
  simpl. rewrite <- !forEach_count_filter. done.
Qed.

(** *** Rounding in binary64 *)

Lemma digits2_pos_spec p :
  2 ^ (Z.pos (digits2_pos p) - 1) ≤ Z.pos p < 2 ^ Z.pos (digits2_pos p).
Proof.
  induction p as [p IH|p IH|]; simpl digits2_pos.
  - rewrite Pos2Z.inj_succ.
    replace (Z.succ (Z.pos (digits2_pos p)) - 1) with (Z.succ (Z.pos (digits2_pos p) - 1)) by lia.
    rewrite !Z.pow_succ_r by lia. lia.
  - rewrite Pos2Z.inj_succ.
    replace (Z.succ (Z.pos (digits2_pos p)) - 1) with (Z.succ (Z.pos (digits2_pos p) - 1)) by lia.
    rewrite !Z.pow_succ_r by lia. lia.
  - simpl. lia.
Qed.

Lemma Zdigits2_unique z k :
  0 < k → 2 ^ (k - 1) ≤ z < 2 ^ k → Zdigits2 z = k.
Proof.
  intros Hk [Hlo Hhi].
  assert (0 < z) as Hz by (pose proof (Z.pow_pos_nonneg 2 (k - 1)); lia).
  destruct z as [|p|p]; try lia. simpl.
  pose proof (digits2_pos_spec p) as [Hlo' Hhi'].
  set (d := Z.pos (digits2_pos p)) in *.
  destruct (Z.lt_trichotomy d k) as [Hlt|[Heq|Hgt]]; [|done|].
  - assert (2 ^ d ≤ 2 ^ (k - 1)) by (apply Z.pow_le_mono_r; lia). lia.
  - assert (2 ^ k ≤ 2 ^ (d - 1)) by (apply Z.pow_le_mono_r; lia). lia.
Qed.

Lemma Zdigits2_bounds z :
  0 < z → 0 < Zdigits2 z ∧ 2 ^ (Zdigits2 z - 1) ≤ z < 2 ^ Zdigits2 z.
Proof.
  destruct z as [|p|p]; try lia. intros _. simpl. split; [lia|]. apply digits2_pos_spec.
Qed.

Lemma shr_1_repr N D mrs :
  0 ≤ N → 0 < D → shr_repr N D mrs → shr_repr N (2 * D) (shr_1 mrs).
Proof.
  intros HN HD (Hm & Hr & Hs). destruct mrs as [m r s]. simpl in *. subst.
  unfold shr_repr, round_bit, sticky_bit.
  pose proof (Z.div_mod N D ltac:(lia)) as Hdm.
  pose proof (Z.mod_pos_bound N D HD) as Hrem.
  pose proof (Z.div_pos N D HN HD) as Hq.
  set (q := N / D) in *. set (rem := N mod D) in *.
  assert (∀ q' b, q = 2 * q' + b → 0 ≤ b ≤ 1 →
                  N / (2 * D) = q' ∧ N mod (2 * D) = b * D + rem) as Hsplit.
  { intros q' b Hqb Hb. 
    assert (N = (2 * D) * q' + (b * D + rem)) as HNeq by (subst q; nia).
    assert (0 ≤ b * D + rem < 2 * D) as Hrange by nia.
    split.
    - symmetry. apply (Z.div_unique_pos N (2 * D) q' (b * D + rem)); lia.
    - symmetry. apply (Z.mod_unique_pos N (2 * D) q' (b * D + rem)); lia. }
  destruct q as [|[p|p|]|p] eqn:Hqe; try lia; simpl.
  - destruct (Hsplit 0 0 ltac:(lia) ltac:(lia)) as [-> ->].
    repeat split; repeat (destruct (Z.leb_spec _ _) || destruct (Z.eqb_spec _ _)); simpl; try lia; try done.
  - destruct (Hsplit (Z.pos p) 1 ltac:(lia) ltac:(lia)) as [-> ->].
    repeat split; repeat (destruct (Z.leb_spec _ _) || destruct (Z.eqb_spec _ _)); simpl; try lia; try done.
  - destruct (Hsplit (Z.pos p) 0 ltac:(lia) ltac:(lia)) as [-> ->].
    repeat split; repeat (destruct (Z.leb_spec _ _) || destruct (Z.eqb_spec _ _)); simpl; try lia; try done.
  - destruct (Hsplit 0 1 ltac:(lia) ltac:(lia)) as [-> ->].
    repeat split; repeat (destruct (Z.leb_spec _ _) || destruct (Z.eqb_spec _ _)); simpl; try lia; try done.
Qed.

Lemma iter_pos_shr_1_repr p :
  ∀ N D mrs, 0 ≤ N → 0 < D → shr_repr N D mrs →
             shr_repr N (D * 2 ^ Z.pos p) (SpecFloat.iter_pos shr_1 p mrs).
Proof.
  induction p as [p IH|p IH|]; intros N D mrs HN HD Hrepr; simpl SpecFloat.iter_pos.
  - apply shr_1_repr in Hrepr; [|done..].
    apply IH in Hrepr; [|lia..]. apply IH in Hrepr; [|nia..].
    replace (D * 2 ^ Z.pos p~1) with (2 * D * 2 ^ Z.pos p * 2 ^ Z.pos p); [done|].
    replace (Z.pos p~1) with (Z.pos p + Z.pos p + 1) by lia.
    rewrite !Z.pow_add_r by lia. change (2 ^ 1) with 2. ring.
  - apply IH in Hrepr; [|lia..]. apply IH in Hrepr; [|nia..].
    replace (D * 2 ^ Z.pos p~0) with (D * 2 ^ Z.pos p * 2 ^ Z.pos p); [done|].
    replace (Z.pos p~0) with (Z.pos p + Z.pos p) by lia.
    rewrite Z.pow_add_r by lia. ring.
  - apply shr_1_repr in Hrepr; [|done..].
    replace (D * 2 ^ 1) with (2 * D) by lia. done.
Qed.

Lemma shr_repr_shift N D mrs e k :
  0 ≤ N → 0 < D → 0 ≤ k → shr_repr N D mrs →
  shr_repr N (D * 2 ^ k) (fst (shr mrs e k)) ∧ snd (shr mrs e k) = e + k.
Proof.
  intros HN HD Hk Hrepr. destruct k as [|p|p]; try lia; simpl.
  - rewrite Z.mul_1_r, Z.add_0_r. done.
  - split; [|done]. by apply iter_pos_shr_1_repr.
Qed.

Lemma shr_record_of_location N D :
  shr_record_of_loc (N / D) (location_of N D)
  = {| shr_m := N / D; shr_r := round_bit N D; shr_s := sticky_bit N D |}.
Proof.
  unfold location_of. simpl. by destruct (round_bit N D), (sticky_bit N D).
Qed.

Lemma shr_repr_location N D :
  shr_repr N D (shr_record_of_loc (N / D) (location_of N D)).
Proof. rewrite shr_record_of_location. done. Qed.

(** Round to nearest: the result is within one half of [N / D]. *)
Lemma round_nearest_even_near N D mrs :
  0 ≤ N → 0 < D → shr_repr N D mrs →
  let m := round_nearest_even (shr_m mrs) (loc_of_shr_record mrs) in
  (2 * m - 1) * D ≤ 2 * N ≤ (2 * m + 1) * D ∧ N / D ≤ m ≤ N / D + 1.
Proof.
  intros HN HD (Hm & Hr & Hs). destruct mrs as [m r s]. simpl in *. subst.
  unfold round_bit, sticky_bit.
  pose proof (Z.div_mod N D ltac:(lia)) as Hdm.
  pose proof (Z.mod_pos_bound N D HD) as Hrem.
  set (q := N / D) in *. set (rem := N mod D) in *.
  assert (D * q = q * D) as Hc by lia.
  destruct (Z.leb_spec D (2 * rem)), (Z.eqb_spec rem 0), (Z.eqb_spec (2 * rem) D); simpl;
    try destruct (Z.even q); nia.
Qed.

Lemma fexp_normal x : -1021 ≤ x → fexp 53 1024 x = x - 53.
Proof. intros Hx. unfold fexp, emin. lia. Qed.

(** [binary_round_aux] on the quotient [N / D] with its location, in the
    normal range: the mantissa is shifted to 53 digits and rounded to
    nearest. [m2] is the rounded mantissa at the exponent [e + k]; when it
    reaches [2^53] the result is [2^52] at the next exponent. *)
Lemma binary_round_aux_spec N D e :
  0 < D → D * 2 ^ 52 ≤ N → -1074 ≤ e → Zdigits2 (N / D) + e ≤ 1023 →
  let k := Zdigits2 (N / D) - 53 in
  ∃ m2,
    0 ≤ k
    ∧ 2 ^ 52 ≤ m2 ≤ 2 ^ 53
    ∧ (2 * m2 - 1) * (D * 2 ^ k) ≤ 2 * N ≤ (2 * m2 + 1) * (D * 2 ^ k)
    ∧ binary_round_aux 53 1024 false (N / D) e (location_of N D)
      = if m2 <? 2 ^ 53 then S754_finite false (Z.to_pos m2) (e + k)
        else S754_finite false (Z.to_pos (2 ^ 52)) (e + k + 1).
Proof.
  intros HD HN He Hmax k.
  assert (0 ≤ N) as HN0 by nia.
  assert (2 ^ 52 ≤ N / D) as Hq by (apply Z.div_le_lower_bound; lia).
  destruct (Zdigits2_bounds (N / D) ltac:(lia)) as (Hdpos & Hdlo & Hdhi).
  set (q := N / D) in *. set (dq := Zdigits2 q) in *.
  assert (53 ≤ dq) as Hdq.
  { destruct (Z.le_gt_cases 53 dq) as [|Hlt]; [done|].
    assert (2 ^ dq ≤ 2 ^ 52) by (apply Z.pow_le_mono_r; lia). lia. }
  assert (0 ≤ k) as Hk by (unfold k; lia).
  assert (2 ^ (dq - 1) = 2 ^ k * 2 ^ 52) as Hpow1.
  { rewrite <- Z.pow_add_r by lia. f_equal. unfold k. lia. }
  assert (2 ^ dq = 2 ^ k * 2 ^ 53) as Hpow2.
  { rewrite <- Z.pow_add_r by lia. f_equal. unfold k. lia. }
  assert (0 < 2 ^ k) as Hpk by (apply Z.pow_pos_nonneg; lia).
  unfold binary_round_aux, shr_fexp. fold q. fold dq.
  rewrite fexp_normal by lia.
  replace (dq + e - 53 - e) with k by (unfold k; lia).
  destruct (shr_repr_shift N D (shr_record_of_loc q (location_of N D)) e k HN0 HD Hk
              (shr_repr_location N D)) as [Hrepr He1].
  destruct (shr (shr_record_of_loc q (location_of N D)) e k) as [mrs1 e1].
  simpl in Hrepr, He1. subst e1.
  assert (0 < D * 2 ^ k) as HDk by nia.
  destruct (round_nearest_even_near N (D * 2 ^ k) mrs1 HN0 HDk Hrepr) as [Hnear Hm2].
  set (m2 := round_nearest_even (shr_m mrs1) (loc_of_shr_record mrs1)) in *.
  assert (N / (D * 2 ^ k) = q / 2 ^ k) as Hdiv.
  { unfold q. rewrite Z.div_div by lia. done. }
  rewrite Hdiv in Hm2.
  assert (2 ^ 52 ≤ q / 2 ^ k) as Hlo by (apply Z.div_le_lower_bound; lia).
  assert (q / 2 ^ k < 2 ^ 53) as Hhi by (apply Z.div_lt_upper_bound; lia).
  exists m2. split; [done|]. split; [lia|]. split; [done|].
  destruct (Z.ltb_spec m2 (2 ^ 53)) as [Hlt|Hge].
  - assert (Zdigits2 m2 = 53) as -> by (apply Zdigits2_unique; [lia|]; simpl; lia).
    rewrite fexp_normal by lia.
    replace (53 + (e + k) - 53 - (e + k)) with 0 by lia. simpl.
    destruct m2 as [|p|p] eqn:Hm2e; try lia.
    destruct (Z.leb_spec (e + k) (1024 - 53)) as [|Hbad]; [done|]. unfold k in Hbad. lia.
  - assert (m2 = 2 ^ 53) as -> by lia.
    change (Zdigits2 (2 ^ 53)) with 54.
    rewrite fexp_normal by lia.
    replace (54 + (e + k) - 53 - (e + k)) with 1 by lia. simpl.
    destruct (Z.leb_spec (e + k + 1) (1024 - 53)) as [|Hbad]; [done|]. unfold k in Hbad. lia.
Qed.

Lemma location_of_exact N : location_of N 1 = loc_Exact.
Proof.
  unfold location_of, round_bit, sticky_bit. rewrite Z.mod_1_r. reflexivity.
Qed.

Lemma binary_round_aux_exact m e :
  2 ^ 52 ≤ m < 2 ^ 53 → -1074 ≤ e ≤ 970 →
  binary_round_aux 53 1024 false m e loc_Exact = S754_finite false (Z.to_pos m) e.
Proof.
  intros Hm He.
  assert (Zdigits2 m = 53) as Hd by (apply Zdigits2_unique; [lia|]; simpl; lia).
  destruct (binary_round_aux_spec m 1 e) as (m2 & _ & Hm2 & Hnear & Hres).
  - lia.
  - lia.
  - lia.
  - rewrite Z.div_1_r, Hd. lia.
  - rewrite Z.div_1_r, Hd, location_of_exact in *.
    change (2 ^ (53 - 53)) with 1 in Hnear.
    assert (m2 = m) as -> by lia.
    rewrite Hres. destruct (Z.ltb_spec m (2 ^ 53)); [|lia]. f_equal. lia.
Qed.

Lemma Pos_iter_xO p n : Z.pos (Pos.iter xO p n) = Z.pos p * 2 ^ Z.pos n.
Proof.
  revert p. induction n as [|n IH] using Pos.peano_ind; intros p.
  - simpl. lia.
  - rewrite Pos.iter_succ, Pos2Z.inj_succ, Z.pow_succ_r by lia.
    rewrite Pos2Z.inj_xO, IH. lia.
Qed.

(** A whole number below [2^53] is a double: [of_Z] gives it with a
    mantissa of 53 digits. *)
Lemma of_Z_normal z :
  1 ≤ z < 2 ^ 53 →
  Num.of_Z z
  = S754_finite false (Z.to_pos (z * 2 ^ (53 - Zdigits2 z))) (Zdigits2 z - 53).
Proof.
  intros Hz. destruct (Zdigits2_bounds z ltac:(lia)) as (Hdpos & Hdlo & Hdhi).
  assert (Zdigits2 z ≤ 53) as Hd.
  { destruct (Z.le_gt_cases (Zdigits2 z) 53) as [|Hgt]; [done|].
    assert (2 ^ 53 ≤ 2 ^ (Zdigits2 z - 1)) by (apply Z.pow_le_mono_r; lia). lia. }
  destruct z as [|p|p]; try lia.
  unfold Num.of_Z, Num.prec, Num.emax, binary_normalize, binary_round, shl_align.
  simpl Zdigits2 in *. set (d := Z.pos (digits2_pos p)) in *.
  rewrite fexp_normal by lia.
  destruct (d + 0 - 53 - 0) as [|dd|dd] eqn:Hshift; try lia.
  - assert (d = 53) as Hd53 by lia. rewrite Hd53. change (2 ^ (53 - 53)) with 1.
    rewrite Z.mul_1_r. rewrite Hd53 in *.
    apply (binary_round_aux_exact (Z.pos p) 0); simpl in *; lia.
  - assert (53 - d = Z.pos dd) as Hdd by lia.
    rewrite Hdd, <- Pos_iter_xO.
    replace (d + 0 - 53) with (d - 53) by lia.
    rewrite <- (Pos2Z.id (Pos.iter xO p dd)) at 1.
    apply binary_round_aux_exact; [|lia].
    rewrite Pos_iter_xO, <- Hdd.
    assert (2 ^ 52 = 2 ^ (d - 1) * 2 ^ (53 - d)) as ->.
    { rewrite <- Z.pow_add_r by lia. f_equal. lia. }
    assert (2 ^ 53 = 2 ^ d * 2 ^ (53 - d)) as ->.
    { rewrite <- Z.pow_add_r by lia. f_equal. lia. }
    assert (0 < 2 ^ (53 - d)) by (apply Z.pow_pos_nonneg; lia). nia.
Qed.

Lemma pw_pos e : -300 ≤ e → 0 < pw e.
Proof. intros. unfold pw. apply Z.pow_pos_nonneg; lia. Qed.

Lemma pw_add e j : -300 ≤ e → 0 ≤ j → pw (e + j) = pw e * 2 ^ j.
Proof.
  intros. unfold pw. rewrite <- Z.pow_add_r by lia. f_equal. lia.
Qed.

Lemma near_scale m e A B c : 0 < c → near m e (A * c) (B * c) → near m e A B.
Proof. unfold near. intros Hc [H1 H2]. split; nia. Qed.

Lemma binary_round_aux_near N D e :
  0 < D → D * 2 ^ 52 ≤ N → -300 ≤ e → Zdigits2 (N / D) + e ≤ 1023 →
  ∃ mf ef,
    binary_round_aux 53 1024 false (N / D) e (location_of N D)
    = S754_finite false (Z.to_pos mf) ef
    ∧ 2 ^ 52 ≤ mf < 2 ^ 53
    ∧ e + (Zdigits2 (N / D) - 53) ≤ ef ≤ e + (Zdigits2 (N / D) - 53) + 1
    ∧ near mf ef (N * pw e) D.
Proof.
  intros HD HN He Hmax.
  destruct (binary_round_aux_spec N D e HD HN ltac:(lia) Hmax)
    as (m2 & Hk & Hm2 & Hnear & Hres).
  set (k := Zdigits2 (N / D) - 53) in *.
  pose proof (pw_pos e He) as Hpe.
  assert (0 < 2 ^ k) as Hpk by (apply Z.pow_pos_nonneg; lia).
  destruct (Z.ltb_spec m2 (2 ^ 53)) as [Hlt|Hge].
  - exists m2, (e + k). split; [done|]. split; [lia|]. split; [lia|].
    unfold near. rewrite pw_add by lia. split; nia.
  - exists (2 ^ 52), (e + k + 1). split; [done|]. split; [lia|]. split; [lia|].
    assert (m2 = 2 ^ 53) as -> by lia.
    unfold near. replace (e + k + 1) with (e + (k + 1)) by lia.
    rewrite pw_add, Z.pow_add_r by lia. change (2 ^ 1) with 2.
    change (2 ^ 53) with 9007199254740992 in *. change (2 ^ 52) with 4503599627370496 in *.
    split; nia.
Qed.

Lemma new_location_spec N D :
  0 ≤ N → 0 < D → new_location D (N mod D) = location_of N D.
Proof.
  intros HN HD. pose proof (Z.mod_pos_bound N D HD) as Hrem.
  unfold new_location, new_location_even, new_location_odd, location_of,
    round_bit, sticky_bit.
  set (rem := N mod D) in *.
  assert (Z.even D = false → 2 * rem ≠ D) as Hodd.
  { intros Heven Heq. rewrite <- Heq, Z.even_mul in Heven. done. }
  destruct (Z.even D); [|specialize (Hodd eq_refl)].
  - destruct (Z.eqb_spec rem 0), (Z.compare_spec (2 * rem) D),
      (Z.leb_spec D (2 * rem)), (Z.eqb_spec (2 * rem) D);
      try lia; reflexivity.
  - destruct (Z.eqb_spec rem 0), (Z.compare_spec (2 * rem + 1) D),
      (Z.leb_spec D (2 * rem)), (Z.eqb_spec (2 * rem) D);
      try lia; reflexivity.
Qed.

Lemma normal_mantissa z :
  1 ≤ z < 2 ^ 53 →
  2 ^ 52 ≤ z * 2 ^ (53 - Zdigits2 z) < 2 ^ 53
  ∧ 1 ≤ Zdigits2 z ≤ 53.
Proof.
  intros Hz. destruct (Zdigits2_bounds z ltac:(lia)) as (Hdpos & Hdlo & Hdhi).
  set (d := Zdigits2 z) in *.
  assert (d ≤ 53) as Hd.
  { destruct (Z.le_gt_cases d 53) as [|Hgt]; [done|].
    assert (2 ^ 53 ≤ 2 ^ (d - 1)) by (apply Z.pow_le_mono_r; lia). lia. }
  split; [|lia].
  assert (2 ^ 52 = 2 ^ (d - 1) * 2 ^ (53 - d)) as ->.
  { rewrite <- Z.pow_add_r by lia. f_equal. lia. }
  assert (2 ^ 53 = 2 ^ d * 2 ^ (53 - d)) as ->.
  { rewrite <- Z.pow_add_r by lia. f_equal. lia. }
  assert (0 < 2 ^ (53 - d)) by (apply Z.pow_pos_nonneg; lia). nia.
Qed.

(** The quotient of two whole numbers below [2^53] is the double nearest to
    the exact quotient. *)
Lemma div_near s t :
  1 ≤ s < 2 ^ 53 → 1 ≤ t < 2 ^ 53 →
  ∃ mq eq,
    Num.div (Num.of_Z s) (Num.of_Z t) = S754_finite false (Z.to_pos mq) eq
    ∧ 2 ^ 52 ≤ mq < 2 ^ 53
    ∧ -110 ≤ eq ≤ 60
    ∧ near mq eq (s * 2 ^ 300) t.
Proof.
  intros Hs Ht. rewrite !of_Z_normal by done.
  destruct (normal_mantissa s Hs) as [Hms Hds].
  destruct (normal_mantissa t Ht) as [Hmt Hdt].
  set (ds := Zdigits2 s) in *. set (dt := Zdigits2 t) in *.
  set (ms := s * 2 ^ (53 - ds)) in *. set (mt := t * 2 ^ (53 - dt)) in *.
  unfold Num.div, SFdiv, SFdiv_core_binary. simpl xorb.
  rewrite !Z2Pos.id by lia.
  assert (Zdigits2 ms = 53) as -> by (apply Zdigits2_unique; [lia|]; simpl; lia).
  assert (Zdigits2 mt = 53) as -> by (apply Zdigits2_unique; [lia|]; simpl; lia).
  rewrite fexp_normal by lia.
  replace (Z.min (53 + (ds - 53) - (53 + (dt - 53)) - 53) (ds - 53 - (dt - 53)))
    with (ds - dt - 53) by lia.
  replace (ds - 53 - (dt - 53) - (ds - dt - 53)) with 53 by lia.
  cbv iota. rewrite Z.shiftl_mul_pow2 by lia.
  set (N := ms * 2 ^ 53).
  destruct (Z.div_eucl N mt) as [q r] eqn:Heucl.
  assert (q = N / mt) as -> by (unfold Z.div; by rewrite Heucl).
  assert (r = N mod mt) as -> by (unfold Z.modulo; by rewrite Heucl).
  assert (0 ≤ N) as HN0 by (unfold N; lia).
  rewrite new_location_spec by lia.
  assert (mt * 2 ^ 52 ≤ N) as HNlo by (unfold N; lia).
  assert (N / mt < 2 ^ 54) as Hqhi.
  { apply Z.div_lt_upper_bound; [lia|]. unfold N. nia. }
  assert (2 ^ 52 ≤ N / mt) as Hqlo by (apply Z.div_le_lower_bound; lia).
  destruct (Zdigits2_bounds (N / mt) ltac:(lia)) as (Hdq0 & Hdqlo & Hdqhi).
  assert (53 ≤ Zdigits2 (N / mt) ≤ 54) as Hdq.
  { split.
    - destruct (Z.le_gt_cases 53 (Zdigits2 (N / mt))) as [|Hlt]; [done|].
      assert (2 ^ Zdigits2 (N / mt) ≤ 2 ^ 52) by (apply Z.pow_le_mono_r; lia). lia.
    - destruct (Z.le_gt_cases (Zdigits2 (N / mt)) 54) as [|Hgt]; [done|].
      assert (2 ^ 54 ≤ 2 ^ (Zdigits2 (N / mt) - 1)) by (apply Z.pow_le_mono_r; lia). lia. }
  destruct (binary_round_aux_near N mt (ds - dt - 53)) as (mq & eq & Hres & Hmq & Heq & Hnear);
    [lia..|].
  exists mq, eq. split; [done|]. split; [done|]. split; [lia|].
  apply (near_scale mq eq (s * 2 ^ 300) t (2 ^ (53 - dt))).
  { apply Z.pow_pos_nonneg; lia. }
  fold mt. replace (s * 2 ^ 300 * 2 ^ (53 - dt)) with (N * pw (ds - dt - 53)); [done|].
  unfold N, ms, pw. rewrite <- !Z.mul_assoc, <- !Z.pow_add_r by lia.
  do 2 f_equal. lia.
Qed.

Lemma Zdigits2_range z lo hi :
  0 ≤ lo → 2 ^ lo ≤ z < 2 ^ hi → lo + 1 ≤ Zdigits2 z ≤ hi.
Proof.
  intros Hlo [Hz1 Hz2].
  assert (0 < z) as Hz by (pose proof (Z.pow_pos_nonneg 2 lo); lia).
  destruct (Zdigits2_bounds z Hz) as (Hd0 & Hd1 & Hd2).
  split.
  - destruct (Z.le_gt_cases (lo + 1) (Zdigits2 z)) as [|Hlt]; [done|].
    assert (2 ^ Zdigits2 z ≤ 2 ^ lo) by (apply Z.pow_le_mono_r; lia). lia.
  - destruct (Z.le_gt_cases (Zdigits2 z) hi) as [|Hgt]; [done|].
    assert (2 ^ hi ≤ 2 ^ (Zdigits2 z - 1)) by (apply Z.pow_le_mono_r; lia). lia.
Qed.

Lemma pw_lt e1 e2 : -300 ≤ e1 → e1 < e2 → 2 * pw e1 ≤ pw e2.
Proof.
  intros. replace e2 with (e1 + (e2 - e1)) by lia. rewrite pw_add by lia.
  pose proof (pw_pos e1 ltac:(lia)).
  assert (2 ^ 1 ≤ 2 ^ (e2 - e1)) by (apply Z.pow_le_mono_r; lia).
  change (2 ^ 1) with 2 in *. nia.
Qed.

Lemma near_ge m e A B mc ec :
  0 < B → 2 ^ 52 ≤ m < 2 ^ 53 → 2 ^ 52 < mc → -300 ≤ e → -300 ≤ ec →
  near m e A B → (2 * mc - 1) * pw ec * B < 2 * A → fle mc ec m e.
Proof.
  intros HB Hm Hmc He Hec [_ Hup] Hlow.
  assert ((2 * mc - 1) * pw ec < (2 * m + 1) * pw e) as Hlt by nia.
  pose proof (pw_pos e He) as Hpe.
  change (2 ^ 52) with 4503599627370496 in *.
  change (2 ^ 53) with 9007199254740992 in *.
  unfold fle. destruct (Z.lt_trichotomy ec e) as [?|[->|Hgt]]; [lia| |].
  - right. split; [done|]. nia.
  - pose proof (pw_lt e ec He Hgt). exfalso.
    assert ((2 * mc - 1) * (2 * pw e) < (2 * m + 1) * pw e) by nia.
    nia.
Qed.

Lemma near_le m e A B mc ec :
  0 < B → 2 ^ 52 ≤ m < 2 ^ 53 → 0 < mc < 2 ^ 53 - 1 → -300 ≤ e → -300 ≤ ec →
  near m e A B → 2 * A < (2 * mc + 1) * pw ec * B → fle m e mc ec.
Proof.
  intros HB Hm Hmc He Hec [Hlow _] Hup.
  assert ((2 * m - 1) * pw e < (2 * mc + 1) * pw ec) as Hlt by nia.
  pose proof (pw_pos ec Hec) as Hpe.
  change (2 ^ 52) with 4503599627370496 in *.
  change (2 ^ 53) with 9007199254740992 in *.
  unfold fle. destruct (Z.lt_trichotomy e ec) as [?|[->|Hgt]]; [lia| |].
  - right. split; [done|]. nia.
  - pose proof (pw_lt ec e Hec Hgt). exfalso.
    assert ((2 * m - 1) * (2 * pw ec) < (2 * mc + 1) * pw ec) by nia.
    nia.
Qed.

Lemma fle_value m1 e1 m2 e2 :
  0 < m1 < 2 ^ 53 → 2 ^ 52 ≤ m2 → -300 ≤ e1 →
  fle m1 e1 m2 e2 → m1 * pw e1 ≤ m2 * pw e2.
Proof.
  intros Hm1 Hm2 He1 [Hlt|[-> Hle]].
  - pose proof (pw_lt e1 e2 He1 Hlt). pose proof (pw_pos e1 He1).
    change (2 ^ 52) with 4503599627370496 in *.
    change (2 ^ 53) with 9007199254740992 in *. nia.
  - pose proof (pw_pos e2 He1). nia.
Qed.

Lemma geb_fle m e mc ec :
  0 < m → 0 < mc →
  Num.geb (S754_finite false (Z.to_pos m) e) (S754_finite false (Z.to_pos mc) ec) = true
  ↔ fle mc ec m e.
Proof.
  intros Hm Hmc. unfold Num.geb, SFleb, SFcompare, fle.
  destruct (Z.compare_spec ec e) as [->|Hlt|Hgt].
  - fold (Pos.compare (Z.to_pos mc) (Z.to_pos m)).
    rewrite <- Z2Pos.inj_compare by lia.
    destruct (Z.compare_spec mc m);
      (split; [intros ?; try done; right; lia|intros ?; try done; lia]).
  - split; [lia|done].
  - split; [done|lia].
Qed.

Lemma of_Z_100 : Num.of_Z 100 = S754_finite false (Z.to_pos (100 * 2 ^ 46)) (-46).
Proof. vm_compute. reflexivity. Qed.

(** The product of a normal double by 100 is the double nearest to the exact
    product. *)
Lemma mul_100_near mq eq :
  2 ^ 52 ≤ mq < 2 ^ 53 → -200 ≤ eq ≤ 100 →
  ∃ mp ep,
    Num.mul (S754_finite false (Z.to_pos mq) eq) (Num.of_Z 100)
    = S754_finite false (Z.to_pos mp) ep
    ∧ 2 ^ 52 ≤ mp < 2 ^ 53
    ∧ -200 ≤ ep ≤ 200
    ∧ near mp ep (100 * mq * pw eq) 1.
Proof.
  intros Hmq Heq. rewrite of_Z_100. unfold Num.mul, SFmul. simpl xorb.
  rewrite Pos2Z.inj_mul, !Z2Pos.id by lia.
  set (N := mq * (100 * 2 ^ 46)).
  assert (2 ^ 104 ≤ N < 2 ^ 106) as HN.
  { unfold N. change (2 ^ 104) with (2 ^ 52 * 2 ^ 52).
    change (2 ^ 106) with (2 ^ 53 * 2 ^ 53).
    change (2 ^ 46) with 70368744177664.
    change (2 ^ 52) with 4503599627370496 in *.
    change (2 ^ 53) with 9007199254740992 in *. lia. }
  pose proof (Zdigits2_range N 104 106 ltac:(lia) HN) as Hd.
  destruct (binary_round_aux_near N 1 (eq + -46)) as (mp & ep & Hres & Hmp & Hep & Hnear).
  { lia. } { lia. } { lia. } { rewrite Z.div_1_r. lia. }
  rewrite Z.div_1_r in Hres, Hep. rewrite location_of_exact in Hres.
  exists mp, ep. split; [done|]. split; [done|]. split; [lia|].
  replace (100 * mq * pw eq) with (N * pw (eq + -46)); [done|].
  assert (pw eq = pw (eq + -46) * 2 ^ 46) as ->
    by (rewrite <- pw_add by lia; f_equal; lia).
  unfold N. ring.
Qed.

(** One comparison of [calculateStars]: with the threshold [θ] the double
    [mθ * 2^eθ], and [mc * 2^-53] the least double whose product by 100
    rounds to at least [θ], the comparison of the rounded percentage is the
    comparison of the exact ratio. *)
Lemma percentage_geb θ mθ eθ mc s t :
  Num.of_Z θ = S754_finite false (Z.to_pos mθ) eθ →
  2 ^ 52 < mθ < 2 ^ 53 → -100 ≤ eθ ≤ 100 →
  2 ^ 52 < mc < 2 ^ 53 →
  200 * (mc - 1) * pw (-53) < (2 * mθ - 1) * pw eθ < 200 * mc * pw (-53) →
  100 * (2 * mc - 1) < θ * 2 ^ 54 →
  (θ * 2 ^ 54 - 100 * (2 * mc - 1)) * 2 ^ 46 < 2 ^ 54 →
  1 ≤ s < 2 ^ 53 → 1 ≤ t ≤ 2 ^ 46 →
  Num.geb (Num.mul (Num.div (Num.of_Z s) (Num.of_Z t)) (Num.of_Z 100)) (Num.of_Z θ)
  = (θ * t <=? 100 * s).
Proof.
  intros Hθ Hmθ Heθ Hmc [Hc1 Hc2] Hδ1 Hδ2 Hs Ht.
  assert (t < 2 ^ 53) as Ht53 by (change (2 ^ 46) with 70368744177664 in Ht;
                                   change (2 ^ 53) with 9007199254740992; lia).
  destruct (div_near s t Hs ltac:(lia)) as (mq & eq & Hq & Hmq & Heq & Hnq).
  rewrite Hq.
  destruct (mul_100_near mq eq Hmq ltac:(lia)) as (mp & ep & Hp & Hmp & Hep & Hnp).
  rewrite Hp, Hθ.
  change (pw (-53)) with (2 ^ 247) in *.
  change (2 ^ 300) with (2 ^ 247 * 2 ^ 53) in *.
  assert (0 < 2 ^ 247) as HU by done.
  set (U := 2 ^ 247) in *.
  change (2 ^ 46) with 70368744177664 in *.
  change (2 ^ 52) with 4503599627370496 in *.
  change (2 ^ 53) with 9007199254740992 in *.
  change (2 ^ 54) with 18014398509481984 in *.
  destruct (Z.leb_spec (θ * t) (100 * s)) as [Hle|Hlt].
  - apply geb_fle; [lia|lia|].
    assert (fle mc (-53) mq eq) as Hqc.
    { apply (near_ge mq eq (s * (U * 9007199254740992)) t); try done; try lia.
      change (pw (-53)) with U.
      assert ((2 * mc - 1) * t < s * 18014398509481984) by nia.
      nia. }
    apply fle_value in Hqc; [|lia..]. change (pw (-53)) with U in Hqc.
    apply (near_ge mp ep (100 * mq * pw eq) 1); try done; try lia.
  - apply not_true_is_false. rewrite geb_fle by lia. intros Hfle.
    assert (fle mq eq (mc - 1) (-53)) as Hqc.
    { apply (near_le mq eq (s * (U * 9007199254740992)) t); try done; try lia.
      change (pw (-53)) with U.
      assert (s * 18014398509481984 < (2 * mc - 1) * t) by nia.
      nia. }
    apply fle_value in Hqc; [|lia..]. change (pw (-53)) with U in Hqc.
    assert (fle mp ep (mθ - 1) eθ) as Hpc.
    { apply (near_le mp ep (100 * mq * pw eq) 1); try done; try lia. }
    unfold fle in *. lia.
Qed.

Lemma percentage_geb_90 s t :
  1 ≤ s < 2 ^ 53 → 1 ≤ t ≤ 2 ^ 46 →
  Num.geb (Num.mul (Num.div (Num.of_Z s) (Num.of_Z t)) (Num.of_Z 100)) (Num.of_Z 90)
  = (90 * t <=? 100 * s).
Proof.
  apply (percentage_geb 90 6333186975989760 (-46) 8106479329266893);
    vm_compute; try done; split; done.
Qed.

Lemma percentage_geb_80 s t :
  1 ≤ s < 2 ^ 53 → 1 ≤ t ≤ 2 ^ 46 →
  Num.geb (Num.mul (Num.div (Num.of_Z s) (Num.of_Z t)) (Num.of_Z 100)) (Num.of_Z 80)
  = (80 * t <=? 100 * s).
Proof.
  apply (percentage_geb 80 5629499534213120 (-46) 7205759403792793);
    vm_compute; try done; split; done.
Qed.

Lemma percentage_geb_70 s t :
  1 ≤ s < 2 ^ 53 → 1 ≤ t ≤ 2 ^ 46 →
  Num.geb (Num.mul (Num.div (Num.of_Z s) (Num.of_Z t)) (Num.of_Z 100)) (Num.of_Z 70)
  = (70 * t <=? 100 * s).
Proof.
  apply (percentage_geb 70 4925812092436480 (-46) 6305039478318694);
    vm_compute; try done; split; done.
Qed.

Lemma percentage_geb_60 s t :
  1 ≤ s < 2 ^ 53 → 1 ≤ t ≤ 2 ^ 46 →
  Num.geb (Num.mul (Num.div (Num.of_Z s) (Num.of_Z t)) (Num.of_Z 100)) (Num.of_Z 60)
  = (60 * t <=? 100 * s).
Proof.
  apply (percentage_geb 60 8444249301319680 (-47) 5404319552844595);
    vm_compute; try done; split; done.
Qed.

Lemma calculateStars_star_tier score total :
  0 ≤ score < 2 ^ 53 → 1 ≤ total ≤ 2 ^ 46 →
  calculateStars (Num.of_Z score) (Num.of_Z total) = star_tier score total.
Proof.
  intros Hs Ht. unfold calculateStars, star_tier.
  destruct (Z.eq_dec score 0) as [->|Hne].
  - rewrite (of_Z_normal total)
      by (change (2 ^ 46) with 70368744177664 in Ht;
          change (2 ^ 53) with 9007199254740992; lia).
    rewrite !(proj2 (Z.leb_gt _ _)) by lia. reflexivity.
  - rewrite percentage_geb_90, percentage_geb_80, percentage_geb_70,
      percentage_geb_60 by lia.
    reflexivity.
Qed.

(** C8. For every whole score from 0 and below [2^53] and every whole total
    from 1 to [2^46], the star rating that [calculateStars] computes in binary64
    arithmetic is the 5-tier step function of the exact ratio [score / total]
    with inclusive thresholds: at least 0.90 gives 5, at least 0.80 gives 4,
    at least 0.70 gives 3, at least 0.60 gives 2, otherwise 1. In particular
    9 of 10 gives 5, 89999 of 100000 gives 4 and 12 of 15 gives 4.
    [calculateScores] always uses the total 15, and its stars are the tier of
    [totalScore / 15] (the counter of a JS array stays far below [2^53]). *)
Theorem calculateStars_tiers :
  (∀ score total : Z,
     0 ≤ score < 2 ^ 53 → 1 ≤ total ≤ 2 ^ 46 →
     calculateStars (Num.of_Z score) (Num.of_Z total) = star_tier score total)
  ∧ calculateStars (Num.of_Z 9) (Num.of_Z 10) = 5
  ∧ calculateStars (Num.of_Z 89999) (Num.of_Z 100000) = 4
  ∧ calculateStars (Num.of_Z 12) (Num.of_Z 15) = 4
  ∧ (∀ practiceAnswers testAnswers practiceQuestions testQuestions,
       let r := calculateScores practiceAnswers testAnswers
                  practiceQuestions testQuestions in
       stars r = calculateStars (Num.of_nat (totalScore r)) (Num.of_Z 15)
       ∧ (Z.of_nat (totalScore r) < 2 ^ 53 →
          stars r = star_tier (Z.of_nat (totalScore r)) 15)).
Proof.
  split; [apply calculateStars_star_tier|].
  split; [vm_compute; reflexivity|].
  split; [vm_compute; reflexivity|].
  split; [vm_compute; reflexivity|].
  intros pa ta pq tq r. split; [reflexivity|]. intros Hlt.
  change (stars r) with (calculateStars (Num.of_nat (totalScore r)) (Num.of_Z 15)).
  unfold Num.of_nat. apply calculateStars_star_tier; [lia|done].
Qed.

Lemma calculateStars_tiers_witness :
  calculateStars (Num.of_Z 12) (Num.of_Z 15) = star_tier 12 15.
Proof. apply (proj1 calculateStars_tiers 12 15); [split|split]; done. Defined.

(** The bound on the total cannot be dropped altogether: these two whole
    numbers above [2^52] are doubles, their exact ratio is below 0.90 and at least
    0.80, the quotient rounds to the double nearest 0.9, and the rating is 5
    where the tiers give 4. *)
Lemma calculateStars_above_exact_tier :
  let score := Num.of_Z 8106479329266890 in
  let total := Num.of_Z 9007199254740989 in
  Num.numerator score = 8106479329266890 ∧ Num.denominator score = 1
  ∧ Num.numerator total = 9007199254740989 ∧ Num.denominator total = 1
  ∧ 80 * 9007199254740989 ≤ 100 * 8106479329266890 < 90 * 9007199254740989
  ∧ exact_tier score total = 4
  ∧ calculateStars score total = 5.
Proof. vm_compute. repeat split; congruence. Qed.

(** ** The pipeline *)

Lemma extends_trans env w1 w2 w3 l1 l2 :
  extends env w1 w2 l1 → extends env w2 w3 l2 → extends env w1 w3 (l1 ++ l2).
Proof.
  intros [H1 ? ? ?] [H2 ? ? ?]. split; auto.
  by rewrite H2, H1, app_assoc.
Qed.

Ltac run :=
  unfold bind, try_catch, ret, throw, console_write, record_call, await,
    lift_option, getGenAI, getOpenAI, getAnthropic in *; simpl in *.

Lemma map_extractBase64_world photos w r w' :
  map_extractBase64 photos w = (r, w') → w' = w.
Proof.
  revert r. induction photos as [|p rest IH]; simpl; intros r H.
  - by inversion H.
  - destruct (extractBase64 p); run; [by inversion H|].
    destruct (map_extractBase64 rest w) as [[parts|e] w1] eqn:E;
      inversion H; subst; eauto.
Qed.

Lemma map_extractBase64_valid photos w :
  Forall valid_photo photos →
  ∃ parts, map_extractBase64 photos w = (Ok parts, w).
Proof.
  induction 1 as [|p rest [[m d] Hp] _ [parts IH]]; simpl; [by eexists|].
  unfold extractBase64. rewrite Hp. run. rewrite IH. by eexists.
Qed.

Lemma map_extractBase64_invalid photos w :
  ¬ Forall valid_photo photos →
  ∃ e, map_extractBase64 photos w = (Throw e, w).
Proof.
  intros Hn. destruct (map_extractBase64 photos w) as [[parts|e] w1] eqn:E.
  - exfalso. apply Hn. clear Hn. revert parts E.
    induction photos as [|p rest IH]; simpl; intros parts E; [constructor|].
    unfold extractBase64 in E.
    destruct (Regex.match_data_url p) as [[m d]|] eqn:Hp; run.
    + destruct (map_extractBase64 rest w) as [[ps|e] w2] eqn:E2.
      * inversion E; subst. constructor; [by eexists|]. eauto.
      * discriminate.
    + discriminate.
  - apply map_extractBase64_world in E as ->. by eexists.
Qed.

Ltac world_cases :=
  repeat match goal with
  | |- context [match ?x with _ => _ end] =>
      lazymatch x with
      | context [match _ with _ => _ end] => fail
      | _ => destruct x eqn:?; simpl
      end
  end.

Ltac solve_extends :=
  split; simpl;
  unfold gemini_ready, openai_ready, anthropic_ready in *; simpl in *;
  rewrite ?app_nil_r; auto;
  repeat match goal with H : ?x = _ |- context [?x] => rewrite H end;
  simpl; rewrite ?orb_true_r; auto.

Ltac finish_stage new1 :=
  do 2 eexists;
  first
    [ exists new1; split; [reflexivity|]; split; [solve [solve_extends]|];
      simpl; split; [lia|]; solve [auto]
    | exists []; split; [reflexivity|]; split; [solve [solve_extends]|];
      simpl; split; [lia|]; intros; congruence ].

Lemma verifyWithGPT_runs env content w :
  ∃ v w' new, verifyWithGPT env content w = (Ok v, w')
    ∧ extends env w w' new ∧ (length new ≤ 1)%nat
    ∧ (openai_ready env w = true → length new = 1%nat).
Proof.
  unfold verifyWithGPT. run. unfold openai_ready.
  world_cases; simplify_eq; finish_stage [GPTCall content].
Qed.

Lemma fixWithClaude_runs env content iss w :
  join_throws iss = false →
  ∃ c w' new, fixWithClaude env content iss w = (Ok c, w')
    ∧ extends env w w' new ∧ (length new ≤ 1)%nat
    ∧ (anthropic_ready env w = true → length new = 1%nat).
Proof.
  intros Hj. unfold fixWithClaude, join_issues. rewrite Hj. run. unfold anthropic_ready.
  world_cases; simplify_eq; finish_stage [ClaudeCall content iss].
Qed.

Lemma generateWithGemini_runs env photos subject grade w r w' :
  generateWithGemini env photos subject grade w = (r, w') →
  ∃ new, extends env w w' new ∧ (length new ≤ 1)%nat
    ∧ (Forall valid_photo photos → gemini_ready env w = true → length new = 1%nat)
    ∧ (¬ Forall valid_photo photos → new = [] ∧ ∃ e, r = Throw e).
Proof.
  unfold generateWithGemini. run. intros H.
  destruct (decide (Forall valid_photo photos)) as [Hv|Hv].
  - destruct (map_extractBase64_valid photos
      (snd (console_write log "Generating content with Gemini Flash..." w)) Hv)
      as [parts Hparts].
    run. rewrite Hparts in H. unfold gemini_ready. revert H.
    world_cases; intros H; simplify_eq;
      simpl in *;
      repeat match goal with H : ?x = _ |- context [?x] => rewrite H end; simpl;
      first
      [ exists [GeminiCall parts subject grade]; split; [solve [solve_extends]|];
        simpl; split; [lia|]; split; [solve [auto]|tauto]
      | exists []; split; [solve [solve_extends]|];
        simpl; split; [lia|]; split; [intros; congruence|tauto] ].
  - destruct (map_extractBase64_invalid photos
      (snd (console_write log "Generating content with Gemini Flash..." w)) Hv)
      as [e He].
    run. rewrite He in H. simplify_eq.
    exists []. split; [solve_extends|]. simpl. split; [lia|].
    split; [done|]. eauto.
Qed.

Ltac use_equations :=
  simpl in *;
  repeat match goal with
  | H : ?x = _, H' : context [?x] |- _ => rewrite H in H'; simpl in H'
  end.

Lemma verifyWithGPT_on_failure env content w :
  stage2_failure env content w →
  ∃ w', verifyWithGPT env content w = (Ok {| status := PASS; issues := JArr [] |}, w').
Proof.
  intros Hf. unfold verifyWithGPT. run.
  world_cases; simplify_eq; eauto; exfalso;
    destruct Hf as [H|H|H|choices text H Ht Hp|choices text H Ht Hp];
    unfold stage2_reply, openai_ready in *; use_equations; simplify_eq.
Qed.

Lemma verifyWithGPT_on_object env content w fields :
  stage2_parsed env content w (JObj fields) →
  ∃ w', verifyWithGPT env content w
        = (Ok {| status := or_default (assoc "status" fields) PASS;
                 issues := or_default (assoc "issues" fields) (JArr []) |}, w').
Proof.
  unfold verifyWithGPT, stage2_parsed, stage2_reply, openai_ready. run.
  intros (Hr & choices & text & H & Ht & Hp).
  destruct (openaiClient w); simpl in *; rewrite ?Hr; simpl; rewrite H; simpl;
    rewrite Ht; simpl; rewrite Hp; simpl; eauto.
Qed.

Lemma fixWithClaude_on_failure env content iss w :
  join_throws iss = false →
  stage3_failure env content iss w →
  ∃ w', fixWithClaude env content iss w = (Ok content, w').
Proof.
  intros Hj Hf. unfold fixWithClaude, join_issues. rewrite Hj. run.
  world_cases; simplify_eq; eauto; exfalso;
    destruct Hf as [H|H|blocks H Ht|blocks text H Ht Hm|blocks text m H Ht Hm Hp];
    unfold stage3_reply, anthropic_ready in *; use_equations; simplify_eq.
Qed.

Lemma stage3_failure_same env content issues w w' :
  calls w' = calls w → anthropic_ready env w' = anthropic_ready env w →
  stage3_failure env content issues w → stage3_failure env content issues w'.
Proof.
  intros Hc Hr Hf.
  destruct Hf as [H|H|blocks H Ht|blocks text H Ht Hm|blocks text m H Ht Hm Hp];
    unfold stage3_reply in *; rewrite <- ?Hc, <- ?Hr in *;
    [ by apply claude_no_client | by apply claude_rejected
    | by eapply claude_no_text | by eapply claude_no_braces
    | by eapply claude_unparseable ].
Qed.

Lemma pipeline_generation_throws env photos subject grade w e w1 :
  generateWithGemini env photos subject grade w = (Throw e, w1) →
  processChapterWithAI env photos subject grade w = (Throw e, w1).
Proof. intros H. unfold processChapterWithAI, bind. by rewrite H. Qed.

Lemma pipeline_passes env photos subject grade w c w1 v w2 :
  generateWithGemini env photos subject grade w = (Ok c, w1) →
  verifyWithGPT env c w1 = (Ok v, w2) →
  strict_eq_str (status v) "PASS" = true →
  processChapterWithAI env photos subject grade w
  = (Ok c, snd (console_write log "Content verified successfully!" w2)).
Proof.
  intros H1 H2 H3. unfold processChapterWithAI, bind. by rewrite H1, H2, H3.
Qed.

Lemma pipeline_repairs env photos subject grade w c w1 v w2 c' w3 v' w4 :
  generateWithGemini env photos subject grade w = (Ok c, w1) →
  verifyWithGPT env c w1 = (Ok v, w2) →
  strict_eq_str (status v) "PASS" = false →
  fixWithClaude env c (issues v) (after_verdict_logs w2) = (Ok c', w3) →
  verifyWithGPT env c' w3 = (Ok v', w4) →
  ∃ w', processChapterWithAI env photos subject grade w = (Ok c', w')
        ∧ calls w' = calls w4.
Proof.
  intros H1 H2 H3 H4 H5. unfold processChapterWithAI, bind.
  rewrite H1, H2, H3. simpl. unfold after_verdict_logs in H4. simpl in H4.
  rewrite H4, H5. destruct (strict_eq_str (status v') "FAIL"); simpl; eauto.
Qed.

Lemma pipeline_repair_throws env photos subject grade w c w1 v w2 e w3 :
  generateWithGemini env photos subject grade w = (Ok c, w1) →
  verifyWithGPT env c w1 = (Ok v, w2) →
  strict_eq_str (status v) "PASS" = false →
  fixWithClaude env c (issues v) (after_verdict_logs w2) = (Throw e, w3) →
  processChapterWithAI env photos subject grade w = (Throw e, w3).
Proof.
  intros H1 H2 H3 H4. unfold processChapterWithAI, bind.
  rewrite H1, H2, H3. simpl. unfold after_verdict_logs in H4. simpl in H4.
  by rewrite H4.
Qed.

Lemma fixWithClaude_join_throws env content iss w :
  join_throws iss = true →
  ∃ w', fixWithClaude env content iss w = (Throw TypeError, w')
        ∧ calls w' = calls w ∧ anthropicClient w' = anthropicClient w.
Proof.
  intros Hj. unfold fixWithClaude, join_issues. rewrite Hj. run. eauto.
Qed.

Lemma extends_after_verdict_logs env w : extends env w (after_verdict_logs w) [].
Proof. split; simpl; rewrite ?app_nil_r; auto. Qed.

(** C3 (as the code has it). When the verification capability is
    unavailable, rejects or times out, answers no choice, or answers a text
    that is no JSON or is the JSON [null], [verifyWithGPT] returns
    [{status: PASS, issues: []}] and does not throw. When the reply parses to
    an object without a [status] field, the verdict has status PASS and the
    issues of the reply, [[]] when the reply has none. *)
Theorem verifyWithGPT_fail_open env content w :
  (stage2_failure env content w →
   ∃ w', verifyWithGPT env content w
         = (Ok {| status := PASS; issues := JArr [] |}, w'))
  ∧ (∀ fields,
       stage2_parsed env content w (JObj fields) →
       assoc "status" fields = None →
       ∃ w', verifyWithGPT env content w
             = (Ok {| status := PASS;
                      issues := or_default (assoc "issues" fields) (JArr []) |}, w')).
Proof.
  split; [apply verifyWithGPT_on_failure|].
  intros fields Hp Hs.
  destruct (verifyWithGPT_on_object _ _ _ _ Hp) as [w' Hw].
  rewrite Hs in Hw. eauto.
Qed.

Lemma verifyWithGPT_fail_open_witness :
  ∃ w', verifyWithGPT Sample.env_gpt_down Sample.lesson Sample.start
        = (Ok {| status := PASS; issues := JArr [] |}, w').
Proof.
  apply (proj1 (verifyWithGPT_fail_open Sample.env_gpt_down Sample.lesson Sample.start)).
  apply gpt_rejected. reflexivity.
Defined.

(** C3 as stated fails: the reply [{"issues":["unclear wording"]}] parses to
    an object without a status field, and the verdict carries its issues. *)
Lemma verifyWithGPT_keeps_reply_issues :
  stage2_parsed Sample.env_issues_only Sample.lesson Sample.start Sample.issues_only
  ∧ get_prop Sample.issues_only "status" = inr None
  ∧ fst (verifyWithGPT Sample.env_issues_only Sample.lesson Sample.start)
    = Ok {| status := PASS; issues := JArr [JStr "unclear wording"] |}
  ∧ fst (verifyWithGPT Sample.env_issues_only Sample.lesson Sample.start)
    ≠ Ok {| status := PASS; issues := JArr [] |}.
Proof.
  split.
  { split; [reflexivity|].
    exists [Some Sample.issues_only_text], Sample.issues_only_text.
    repeat split; reflexivity. }
  split; [reflexivity|]. split; [reflexivity|].
  vm_compute. discriminate.
Qed.

(** With issues that [join] accepts (a list of texts, as the prompt asks
    for): when the repair capability is unavailable, rejects or times out, or
    answers without a text block, without braces or with braces that hold no
    JSON, [fixWithClaude] returns the candidate it was given; and a run whose
    first stage gave that candidate and whose first verdict was not PASS
    returns the candidate. *)
Lemma fixWithClaude_keeps_candidate env candidate iss w :
  join_throws iss = false →
  stage3_failure env candidate iss w →
  (∃ w', fixWithClaude env candidate iss w = (Ok candidate, w'))
  ∧ ∀ photos subject grade w0 w1 verdict,
      generateWithGemini env photos subject grade w0 = (Ok candidate, w1) →
      verifyWithGPT env candidate w1 = (Ok verdict, w) →
      strict_eq_str (status verdict) "PASS" = false →
      issues verdict = iss →
      ∃ w', processChapterWithAI env photos subject grade w0 = (Ok candidate, w').
Proof.
  intros Hj Hf. split; [by apply fixWithClaude_on_failure|].
  intros photos subject grade w0 w1 verdict Hgen Hver Hpass Hiss.
  assert (stage3_failure env candidate iss (after_verdict_logs w)) as Hf'.
  { by apply (stage3_failure_same env candidate iss w). }
  destruct (fixWithClaude_on_failure _ _ _ _ Hj Hf') as [w3 Hfix].
  destruct (verifyWithGPT_runs env candidate w3) as (v' & w4 & new & Hver' & _).
  rewrite <- Hiss in Hfix.
  destruct (pipeline_repairs _ _ _ _ _ _ _ _ _ _ _ _ _ Hgen Hver Hpass Hfix Hver')
    as (w' & Hrun & _).
  eauto.
Qed.

(** C4 at the failing run. Gemini answers a lesson, the verifier answers
    [{"status":"FAIL","issues":"unclear wording"}] and the repair service
    rejects every call. Stage 1 succeeded and the repair capability errors,
    yet [fixWithClaude] does not return the candidate: it throws at
    [issues.join], before its [try], and the pipeline ends with that
    exception and no content. *)
Theorem repair_down_drops_content :
  let env := Sample.env_text_issues_repair_down in
  let gen := generateWithGemini env [Sample.photo] "math" Sample.grade3 Sample.start in
  let ver := verifyWithGPT env Sample.lesson (snd gen) in
  let w := after_verdict_logs (snd ver) in
  fst gen = Ok Sample.lesson
  ∧ fst ver = Ok {| status := FAIL; issues := JStr "unclear wording" |}
  ∧ stage3_reply env Sample.lesson (JStr "unclear wording") w = Rejected
  ∧ fst (fixWithClaude env Sample.lesson (JStr "unclear wording") w) = Throw TypeError
  ∧ fst (processChapterWithAI env [Sample.photo] "math" Sample.grade3 Sample.start)
    = Throw TypeError.
Proof. vm_compute. repeat split; reflexivity. Qed.

(** C5 at the failing run. Gemini answers a lesson and the verifier answers
    [{"status":"FAIL","issues":"unclear wording"}]: the first verdict is
    FAIL, [fixWithClaude] is entered and throws at [issues.join] before its
    [try]; the pipeline throws, after two external calls and one
    verification, and returns no content. *)
Theorem pipeline_throws_on_text_issues :
  let run := processChapterWithAI Sample.env_text_issues [Sample.photo] "math"
               Sample.grade3 Sample.start in
  fst (verifyWithGPT Sample.env_text_issues Sample.lesson
         (snd (generateWithGemini Sample.env_text_issues [Sample.photo] "math"
                 Sample.grade3 Sample.start)))
  = Ok {| status := FAIL; issues := JStr "unclear wording" |}
  ∧ fst run = Throw TypeError
  ∧ console (snd run)
    = [(log, "Generating content with Gemini Flash...");
       (log, "Verifying content with GPT-4o mini...");
       (log, "Content verification failed, fixing with Claude...");
       (log, "Issues:");
       (log, "Fixing content with Claude Sonnet...")]%string
  ∧ length (calls (snd run)) = 2%nat.
Proof. vm_compute. repeat split; reflexivity. Qed.

(** With a list of issues the same run repairs once, verifies again once and
    returns the repaired lesson although the second verdict is FAIL too. *)
Lemma pipeline_repairs_once :
  let run := processChapterWithAI Sample.env_repaired [Sample.photo] "math"
               Sample.grade3 Sample.start in
  fst run = Ok Sample.repaired
  ∧ calls (snd run)
    = [GeminiCall [{| data := "iVBORw0KGgo="; mimeType := "image/png" |}] "math"
         Sample.grade3;
       GPTCall Sample.lesson;
       ClaudeCall Sample.lesson (JArr [JStr "unclear wording"]);
       GPTCall Sample.repaired]%string.
Proof. vm_compute. split; reflexivity. Qed.

(** A list of texts is joined without an exception. *)
Lemma join_throws_texts texts : join_throws (JArr (map JStr texts)) = false.
Proof. simpl. induction texts as [|text texts IH]; [done|exact IH]. Qed.

(** C6 (as the code has it). A run makes at most 4 external calls, and none
    when a photo is no base64 data URL. When every photo is one and the three
    clients can be built, it makes 1 call when generation fails, 2 when the
    first verdict is PASS, and 4 when it is not and comes with a list of
    issues (issues that [join] accepts; with others the run throws after 2
    calls). *)
Theorem pipeline_call_bound env photos subject grade w r w' :
  processChapterWithAI env photos subject grade w = (r, w') →
  ∃ new, calls w' = calls w ++ new ∧ (length new ≤ 4)%nat
    ∧ (¬ Forall valid_photo photos → new = [])
    ∧ (Forall valid_photo photos → clients_ready env w →
       ∀ r1 w1, generateWithGemini env photos subject grade w = (r1, w1) →
         match r1 with
         | Throw _ => length new = 1%nat
         | Ok c =>
             ∀ v w2, verifyWithGPT env c w1 = (Ok v, w2) →
               (strict_eq_str (status v) "PASS" = true → length new = 2%nat)
               ∧ (strict_eq_str (status v) "PASS" = false →
                  (join_throws (issues v) = false → length new = 4%nat)
                  ∧ (join_throws (issues v) = true → length new = 2%nat))
         end).
Proof.
  intros Hrun.
  destruct (generateWithGemini env photos subject grade w) as [r1 w1] eqn:Hgen.
  destruct (generateWithGemini_runs _ _ _ _ _ _ _ Hgen)
    as (new1 & Hext1 & Hle1 & Hone1 & Hzero1).
  destruct r1 as [c|e].
  2:{ rewrite (pipeline_generation_throws _ _ _ _ _ _ _ Hgen) in Hrun.
      simplify_eq. exists new1. split; [apply Hext1|]. split; [lia|].
      split; [intros Hn; by apply Hzero1|].
      intros Hv (Hg & _ & _) r1 w0 [= <- <-]. auto. }
  assert (Forall valid_photo photos) as Hv.
  { destruct (decide (Forall valid_photo photos)) as [|Hn]; [done|].
    destruct (Hzero1 Hn) as (_ & e & ?). done. }
  destruct (verifyWithGPT_runs env c w1) as (v & w2 & new2 & Hver & Hext2 & Hle2 & Hone2).
  destruct (strict_eq_str (status v) "PASS") eqn:Hpass.
  { rewrite (pipeline_passes _ _ _ _ _ _ _ _ _ Hgen Hver Hpass) in Hrun.
    simplify_eq. exists (new1 ++ new2).
    split; [simpl; rewrite (ext_calls _ _ _ _ Hext2), (ext_calls _ _ _ _ Hext1);
            by rewrite app_assoc|].
    rewrite length_app. split; [lia|]. split; [tauto|].
    intros _ (Hg & Ho & _) r1 w0 [= <- <-] v0 w3 Hver0.
    rewrite Hver in Hver0. simplify_eq. split; [|congruence].
    intros _. rewrite Hone1, Hone2; auto. by apply Hext1. }
  pose proof (extends_after_verdict_logs env w2) as Hext2'.
  pose proof (extends_trans _ _ _ _ _ _ Hext1
                (extends_trans _ _ _ _ _ _ Hext2 Hext2')) as Hext12.
  rewrite app_nil_r in Hext12.
  destruct (join_throws (issues v)) eqn:Hj.
  - destruct (fixWithClaude_join_throws env c (issues v) (after_verdict_logs w2) Hj)
      as (w3 & Hfix & Hcalls & _).
    rewrite (pipeline_repair_throws _ _ _ _ _ _ _ _ _ _ _ Hgen Hver Hpass Hfix) in Hrun.
    simplify_eq. exists (new1 ++ new2).
    split; [rewrite Hcalls; apply Hext12|].
    rewrite length_app. split; [lia|]. split; [tauto|].
    intros _ (Hg & Ho & _) r1 w0 [= <- <-] v0 w6 Hver0.
    rewrite Hver in Hver0. simplify_eq. split; [congruence|].
    intros _. rewrite Hj. split; [done|]. intros _.
    rewrite Hone1, Hone2; auto. by apply Hext1.
  - destruct (fixWithClaude_runs env c (issues v) (after_verdict_logs w2) Hj)
      as (c' & w3 & new3 & Hfix & Hext3 & Hle3 & Hone3).
    destruct (verifyWithGPT_runs env c' w3)
      as (v' & w4 & new4 & Hver' & Hext4 & Hle4 & Hone4).
    destruct (pipeline_repairs _ _ _ _ _ _ _ _ _ _ _ _ _
                Hgen Hver Hpass Hfix Hver') as (w5 & Hrun' & Hcalls).
    rewrite Hrun' in Hrun. simplify_eq.
    pose proof (extends_trans _ _ _ _ _ _ Hext12
                  (extends_trans _ _ _ _ _ _ Hext3 Hext4)) as Hall.
    exists ((new1 ++ new2) ++ new3 ++ new4).
    split; [rewrite Hcalls; apply Hall|].
    rewrite !length_app. split; [lia|]. split; [tauto|].
    intros _ (Hg & Ho & Ha) r1 w0 [= <- <-] v0 w6 Hver0.
    rewrite Hver in Hver0. simplify_eq. split; [congruence|].
    intros _. rewrite Hj. split; [|done]. intros _.
    rewrite Hone1, Hone2, Hone3, Hone4; auto.
    + apply Hext3. by apply Hext12.
    + by apply Hext12.
    + by apply Hext1.
Qed.

Lemma pipeline_call_bound_witness :
  ∃ new,
    calls (snd (processChapterWithAI Sample.env_repaired [Sample.photo] "math"
                  Sample.grade3 Sample.start))
    = calls Sample.start ++ new
    ∧ length new = 4%nat.
Proof.
  pose (run := processChapterWithAI Sample.env_repaired [Sample.photo] "math"
                 Sample.grade3 Sample.start).
  pose (gen := generateWithGemini Sample.env_repaired [Sample.photo] "math"
                 Sample.grade3 Sample.start).
  pose (ver := verifyWithGPT Sample.env_repaired Sample.lesson (snd gen)).
  destruct (pipeline_call_bound Sample.env_repaired [Sample.photo] "math"%string
              Sample.grade3 Sample.start (fst run) (snd run))
    as (new & Hcalls & _ & _ & Hcount).
  { vm_compute. reflexivity. }
  exists new. split; [exact Hcalls|].
  assert (Forall valid_photo [Sample.photo]) as Hv.
  { constructor; [|constructor]. vm_compute. eauto. }
  assert (clients_ready Sample.env_repaired Sample.start) as Hr.
  { repeat split; reflexivity. }
  specialize (Hcount Hv Hr (Ok Sample.lesson) (snd gen)).
  refine (proj1 (proj2 (Hcount _ {| status := FAIL;
                                     issues := JArr [JStr "unclear wording"] |}
                          (snd ver) _) _) _).
  - vm_compute. reflexivity.
  - vm_compute. reflexivity.
  - reflexivity.
  - reflexivity.
Defined.

(** C6 as stated fails: a photo that is no data URL is refused before the
    generation call, and the run makes no external call at all. *)
Lemma pipeline_no_call_on_bad_photo :
  let run := processChapterWithAI Sample.env_repaired ["holiday.png"%string] "math"
               Sample.grade3 Sample.start in
  fst run = Throw (ErrorMsg "Invalid data URL format")
  ∧ length (calls (snd run)) = 0%nat.
Proof. vm_compute. split; reflexivity. Qed.

(** ** Ownership checks of the handlers *)

Lemma present_nonempty s : s ≠ EmptyString → present (Some s) = Some s.
Proof. by destruct s. Qed.

Lemma mismatch_present id owner :
  id ≠ EmptyString → Routes.mismatch (Some id) owner = negb (String.eqb owner id).
Proof. intros H. unfold Routes.mismatch. by rewrite present_nonempty. Qed.

Lemma mismatch_absent owner : Routes.mismatch None owner = false.
Proof. done. Qed.

Lemma get_chapter_child db childId id :
  childId ≠ EmptyString →
  Routes.get_chapter db
    {| authenticatedChildId := Some childId; authenticatedParentId := None; param := id |}
  = match chapters db !! id with
    | None => Status 404
    | Some chapter =>
        if String.eqb (Chapter.childId chapter) childId then Json chapter else Status 403
    end.
Proof.
  intros H. unfold Routes.get_chapter, Storage.getChapterById. simpl.
  destruct (chapters db !! id) as [chapter|]; [|done].
  rewrite mismatch_present by done. rewrite ?mismatch_absent. simpl.
  by destruct (String.eqb (Chapter.childId chapter) childId).
Qed.

Lemma get_chapter_parent db parentId id :
  parentId ≠ EmptyString →
  Routes.get_chapter db
    {| authenticatedChildId := None; authenticatedParentId := Some parentId; param := id |}
  = match chapters db !! id with
    | None => Status 404
    | Some chapter =>
        if String.eqb (Chapter.parentId chapter) parentId then Json chapter else Status 403
    end.
Proof.
  intros H. unfold Routes.get_chapter, Storage.getChapterById. simpl.
  destruct (chapters db !! id) as [chapter|]; [|done].
  rewrite mismatch_present by done. rewrite ?mismatch_absent. simpl.
  by destruct (String.eqb (Chapter.parentId chapter) parentId).
Qed.

Lemma get_result_child db childId id :
  childId ≠ EmptyString →
  Routes.get_result db
    {| authenticatedChildId := Some childId; authenticatedParentId := None; param := id |}
  = match chapterResults db !! id with
    | None => Status 404
    | Some result =>
        if String.eqb (ChapterResult.childId result) childId then Json result
        else Status 403
    end.
Proof.
  intros H. unfold Routes.get_result, Storage.getResultById. simpl.
  destruct (chapterResults db !! id) as [result|]; [|done].
  rewrite mismatch_present by done.
  by destruct (String.eqb (ChapterResult.childId result) childId).
Qed.

Lemma get_result_parent db parentId id :
  parentId ≠ EmptyString →
  Routes.get_result db
    {| authenticatedChildId := None; authenticatedParentId := Some parentId; param := id |}
  = match chapterResults db !! id with
    | None => Status 404
    | Some result =>
        match chapters db !! ChapterResult.chapterId result with
        | None => Status 403
        | Some chapter =>
            if String.eqb (Chapter.parentId chapter) parentId then Json result
            else Status 403
        end
    end.
Proof.
  intros H. unfold Routes.get_result, Storage.getResultById, Storage.getChapterById.
  destruct parentId as [|a parentId]; [done|]. simpl.
  destruct (chapterResults db !! id) as [result|]; [|done].
  destruct (chapters db !! ChapterResult.chapterId result) as [chapter|]; [|done].
  by destruct (String.eqb (Chapter.parentId chapter) (String a parentId)).
Qed.

(** C1. Behind the gate, GET /api/chapters/:id and GET /api/results/:id
    return the resource to an authenticated caller exactly when the resource
    exists and the owner predicate holds: a child caller's childId is the
    resource's childId, or a parent caller's parentId is the parentId of the
    chapter (for a result: of its chapter). When the resource exists and the
    predicate fails the answer is 403, not 404. *)
Theorem reads_check_owner db caller id :
  subject_id caller ≠ EmptyString →
  (∀ chapter,
     Routes.guarded Routes.get_chapter db (Some caller) None id = Json chapter
     ↔ chapters db !! id = Some chapter ∧ owns_chapter caller chapter)
  ∧ (∀ chapter,
       chapters db !! id = Some chapter → ¬ owns_chapter caller chapter →
       Routes.guarded Routes.get_chapter db (Some caller) None id = Status 403)
  ∧ (∀ result,
       Routes.guarded Routes.get_result db (Some caller) None id = Json result
       ↔ chapterResults db !! id = Some result ∧ owns_result db caller result)
  ∧ (∀ result,
       chapterResults db !! id = Some result → ¬ owns_result db caller result →
       Routes.guarded Routes.get_result db (Some caller) None id = Status 403).
Proof.
  intros Hid. unfold Routes.guarded.
  destruct caller as [parentId|childId parentId]; simpl in *.
  - rewrite get_chapter_parent, get_result_parent by done.
    split; [|split; [|split]].
    + intros chapter. destruct (chapters db !! id) as [c|]; [|by split; [|intros []]].
      destruct (String.eqb_spec (Chapter.parentId c) parentId) as [He|Hne].
      * split; [by intros [= ->]|by intros [[= ->] _]].
      * split; [done|]. intros [[= ->] ?]. done.
    + intros chapter Hc Hn. rewrite Hc.
      destruct (String.eqb_spec (Chapter.parentId chapter) parentId); done.
    + intros result. destruct (chapterResults db !! id) as [r|]; [|by split; [|intros []]].
      destruct (chapters db !! ChapterResult.chapterId r) as [c|] eqn:Hc.
      2:{ split; [done|]. intros [[= ->] (c & Hc' & _)]. congruence. }
      destruct (String.eqb_spec (Chapter.parentId c) parentId) as [He|Hne].
      * split; [intros [= ->]; eauto|by intros [[= ->] _]].
      * split; [done|]. intros [[= ->] (c' & Hc' & ?)]. congruence.
    + intros result Hr Hn. rewrite Hr.
      destruct (chapters db !! ChapterResult.chapterId result) as [c|]; [|done].
      destruct (String.eqb_spec (Chapter.parentId c) parentId); [|done].
      destruct Hn. eauto.
  - rewrite get_chapter_child, get_result_child by done.
    split; [|split; [|split]].
    + intros chapter. destruct (chapters db !! id) as [c|]; [|by split; [|intros []]].
      destruct (String.eqb_spec (Chapter.childId c) childId) as [He|Hne].
      * split; [by intros [= ->]|by intros [[= ->] _]].
      * split; [done|]. intros [[= ->] ?]. done.
    + intros chapter Hc Hn. rewrite Hc.
      destruct (String.eqb_spec (Chapter.childId chapter) childId); done.
    + intros result. destruct (chapterResults db !! id) as [r|]; [|by split; [|intros []]].
      destruct (String.eqb_spec (ChapterResult.childId r) childId) as [He|Hne].
      * split; [by intros [= ->]|by intros [[= ->] _]].
      * split; [done|]. intros [[= ->] ?]. done.
    + intros result Hr Hn. rewrite Hr.
      destruct (String.eqb_spec (ChapterResult.childId result) childId); done.
Qed.

(** C2. POST /api/child/login sets the child cookie only when the parent
    token of the request verifies, the child exists and its parentId is the
    parent's id, and the cookie is for that child and that parent. When the
    request names a child and carries a valid parent token, and the child does
    not exist or belongs to another parent, the answer is 403 and no child
    cookie is set. *)
Theorem child_login_requires_owner verifyParentToken db req :
  let r := Routes.child_login verifyParentToken db req in
  (∀ cookie,
     Routes.childCookie r = Some cookie →
     ∃ childId parentToken parentId child,
       present (Routes.body_childId req) = Some childId
       ∧ present (Routes.cookie_parentToken req) = Some parentToken
       ∧ verifyParentToken parentToken = Some parentId
       ∧ children db !! childId = Some child
       ∧ Child.parentId child = parentId
       ∧ cookie = (childId, parentId))
  ∧ (∀ childId parentToken parentId,
       present (Routes.body_childId req) = Some childId →
       present (Routes.cookie_parentToken req) = Some parentToken →
       verifyParentToken parentToken = Some parentId →
       (children db !! childId = None
        ∨ ∃ child, children db !! childId = Some child
                   ∧ Child.parentId child ≠ parentId) →
       Routes.code r = 403 ∧ Routes.childCookie r = None).
Proof.
  unfold Routes.child_login, Storage.getChildById. simpl. split.
  - intros cookie.
    destruct (present (Routes.body_childId req)) as [childId|]; [|done].
    destruct (present (Routes.cookie_parentToken req)) as [token|]; [|done].
    destruct (verifyParentToken token) as [parentId|] eqn:Hv; [|done].
    destruct (children db !! childId) as [child|] eqn:Hc; [|done].
    destruct (String.eqb_spec (Child.parentId child) parentId) as [He|Hne]; [|done].
    simpl. intros [= <-]. exists childId, token, parentId, child. done.
  - intros childId token parentId -> -> -> [->|(child & -> & Hne)]; [done|].
    destruct (String.eqb_spec (Child.parentId child) parentId); done.
Qed.

Lemma child_login_requires_owner_witness :
  let r := Routes.child_login Sample.verify_token Sample.db
             {| Routes.body_childId := Some "kid-2"%string;
                Routes.cookie_parentToken := Some "token-of-parent-1"%string |} in
  Routes.code r = 403 ∧ Routes.childCookie r = None.
Proof.
  refine (proj2 (child_login_requires_owner Sample.verify_token Sample.db _)
            "kid-2"%string "token-of-parent-1"%string "parent-1"%string _ _ _ _).
  - reflexivity.
  - reflexivity.
  - reflexivity.
  - right. exists Sample.omar. split; [reflexivity|]. vm_compute. discriminate.
Defined.

Lemma reads_check_owner_witness :
  Routes.guarded Routes.get_chapter Sample.db
    (Some (ParentSession "parent-1")) None "chapter-2"
  = Status 403.
Proof.
  refine (proj1 (proj2 (reads_check_owner Sample.db (ParentSession "parent-1")
                          "chapter-2"%string _)) Sample.omar_chapter _ _).
  - simpl. discriminate.
  - reflexivity.
  - simpl. discriminate.
Defined.

Lemma get_child_any_parent db parentId claimed childId :
  Routes.guarded Routes.get_child db (Some (ParentSession parentId)) claimed childId
  = match children db !! childId with
    | Some child => Json child
    | None => Status 404
    end.
Proof. done. Qed.

(** C9 at the failing request. With the session of parent-1 and no child
    session, the three child routes answer the row, the chapters and the
    results of Omar, whose parentId is parent-2: the handlers look up no
    owner. *)
Theorem parent_reads_other_family :
  Child.parentId Sample.omar ≠ "parent-1"%string
  ∧ Routes.guarded Routes.get_child Sample.db
      (Some (ParentSession "parent-1")) (Some "kid-2"%string) "kid-2"
    = Json Sample.omar
  ∧ Routes.guarded Routes.get_child_chapters Sample.db
      (Some (ParentSession "parent-1")) (Some "kid-2"%string) "kid-2"
    = Json [Sample.omar_chapter]
  ∧ Routes.guarded Routes.get_child_results Sample.db
      (Some (ParentSession "parent-1")) (Some "kid-2"%string) "kid-2"
    = Json [Sample.omar_result].
Proof. split; [vm_compute; discriminate|]. vm_compute. repeat split; reflexivity. Qed.

(** ** The writes of a chapter row *)

Lemma post_chapters_starts_task newId authenticatedParentId body db r db1 task :
  Routes.post_chapters newId authenticatedParentId body db = (r, db1, Some task) →
  ∃ data,
    body = Some data
    ∧ authenticatedParentId = Some (ins_parentId (Routes.chapterData data))
    ∧ r = Json (created_row (Routes.chapterData data))
    ∧ chapter_writes db1 = chapter_writes db ++ [Insert newId (Routes.chapterData data)]
    ∧ chapters db1 !! newId = Some (created_row (Routes.chapterData data))
    ∧ task = {| Routes.task_chapterId := newId;
                Routes.task_photos := map fst (Routes.photos data);
                Routes.task_subject := ins_subject (Routes.chapterData data);
                Routes.task_grade := Num.of_Z (ins_grade (Routes.chapterData data)) |}.
Proof.
  unfold Routes.post_chapters. destruct body as [data|]; [|done].
  case_bool_decide as Hp; simpl; [|done].
  assert (∀ saved,
            (∀ db2, saved = Some db2 →
               chapter_writes db2
               = chapter_writes db ++ [Insert newId (Routes.chapterData data)]
               ∧ chapters db2 !! newId = Some (created_row (Routes.chapterData data))) →
            match saved with
            | Some db2 =>
                (Json (created_row (Routes.chapterData data)), db2,
                 Some {| Routes.task_chapterId := newId;
                         Routes.task_photos := map fst (Routes.photos data);
                         Routes.task_subject := ins_subject (Routes.chapterData data);
                         Routes.task_grade :=
                           Num.of_Z (ins_grade (Routes.chapterData data)) |})
            | None =>
                (Status 400,
                 Storage.with_chapters db
                   (<[newId := created_row (Routes.chapterData data)]> (chapters db))
                   (Insert newId (Routes.chapterData data)), None)
            end = (r, db1, Some task) →
            ∃ data0,
              Some data = Some data0
              ∧ authenticatedParentId = Some (ins_parentId (Routes.chapterData data0))
              ∧ r = Json (created_row (Routes.chapterData data0))
              ∧ chapter_writes db1
                = chapter_writes db ++ [Insert newId (Routes.chapterData data0)]
              ∧ chapters db1 !! newId = Some (created_row (Routes.chapterData data0))
              ∧ task = {| Routes.task_chapterId := newId;
                          Routes.task_photos := map fst (Routes.photos data0);
                          Routes.task_subject := ins_subject (Routes.chapterData data0);
                          Routes.task_grade :=
                            Num.of_Z (ins_grade (Routes.chapterData data0)) |}) as Hgen.
  { intros [db2|] Hsaved; [|done]. intros [= <- <- <-].
    destruct (Hsaved db2 eq_refl) as [Hw Hrow]. exists data. done. }
  apply Hgen. intros db2. destruct (Routes.photos data) as [|p rest].
  - intros [= <-]. simpl. split; [done|]. apply lookup_insert_eq.
  - unfold Storage.createChapterPhotos.
    destruct (Storage.photo_rows newId (p :: rest)) as [rows|]; [|done].
    intros [= <-]. simpl. split; [done|]. apply lookup_insert_eq.
Qed.

(** C10 (as the code has it). When POST /api/chapters starts a run, it has
    inserted the chapter row with status "processing" and no content, and a
    read by its parent before the run ends sees that row. The run then
    appends exactly one write to the row, whatever the state of the other
    rows: when the pipeline returned content and the database accepted it,
    [updateChapterContent], which sets status "ready" and the content; when
    the database refused the content or the pipeline threw, a generation
    failure or not, [updateChapterStatus] with "error", which leaves the
    content absent. *)
Theorem chapter_row_written_twice jsonb_accepts env now newId authenticatedParentId
    body db r db1 task :
  Routes.post_chapters newId authenticatedParentId body db = (r, db1, Some task) →
  ∃ data,
    body = Some data
    ∧ r = Json (created_row (Routes.chapterData data))
    ∧ chapter_writes db1 = chapter_writes db ++ [Insert newId (Routes.chapterData data)]
    ∧ chapters db1 !! newId = Some (created_row (Routes.chapterData data))
    ∧ Chapter.status (created_row (Routes.chapterData data)) = Some "processing"%string
    ∧ Chapter.content (created_row (Routes.chapterData data)) = None
    ∧ (∀ parentId,
         authenticatedParentId = Some parentId → parentId ≠ EmptyString →
         Routes.guarded Routes.get_chapter db1 (Some (ParentSession parentId)) None newId
         = Json (created_row (Routes.chapterData data)))
    ∧ ∀ w db2,
        chapters db2 !! newId = Some (created_row (Routes.chapterData data)) →
        let run := processChapterWithAI env (Routes.task_photos task)
                     (Routes.task_subject task) (Routes.task_grade task) (task_start w) in
        let db3 := snd (Routes.run_task jsonb_accepts env now task w db2) in
        ∃ row write,
          chapters db3 !! newId = Some row
          ∧ chapter_writes db3 = chapter_writes db2 ++ [write]
          ∧ match fst run with
            | Ok content =>
                if jsonb_accepts content
                then write = UpdateContent newId content
                     ∧ Chapter.status row = Some "ready"%string
                     ∧ Chapter.content row = Some content
                else write = UpdateStatus newId "error"
                     ∧ Chapter.status row = Some "error"%string
                     ∧ Chapter.content row = None
            | Throw _ =>
                write = UpdateStatus newId "error"
                ∧ Chapter.status row = Some "error"%string
                ∧ Chapter.content row = None
            end.
Proof.
  intros Hpost.
  destruct (post_chapters_starts_task _ _ _ _ _ _ _ Hpost)
    as (data & -> & Hp & -> & Hwrites & Hrow1 & ->).
  exists data. split; [done|]. split; [done|]. split; [done|]. split; [done|].
  split; [done|]. split; [done|]. split.
  { intros parentId Hp' Hne. rewrite Hp in Hp'. injection Hp' as <-.
    unfold Routes.guarded, requireChildAccess.
    rewrite get_chapter_parent by done.
    rewrite Hrow1. simpl. by rewrite String.eqb_refl. }
  intros w db2 Hrow.
  unfold Routes.run_task, Routes.processChapterInBackground, Routes.mark_failed,
    Storage.updateChapterContent, task_start. simpl.
  destruct (processChapterWithAI env (map fst (Routes.photos data))
              (ins_subject (Routes.chapterData data))
              (Num.of_Z (ins_grade (Routes.chapterData data))) _)
    as [[content|e] w1]; simpl.
  - destruct (jsonb_accepts content); simpl.
    + exists (Storage.set_content content (created_row (Routes.chapterData data))),
        (UpdateContent newId content).
      split; [by rewrite lookup_alter_eq, Hrow|]. done.
    + exists (Storage.set_status "error" now (created_row (Routes.chapterData data))),
        (UpdateStatus newId "error").
      split; [by rewrite lookup_alter_eq, Hrow|]. done.
  - exists (Storage.set_status "error" now (created_row (Routes.chapterData data))),
      (UpdateStatus newId "error").
    split; [by rewrite lookup_alter_eq, Hrow|]. done.
Qed.

Lemma chapter_row_written_twice_witness :
  let posted := Routes.post_chapters "chapter-3" (Some "parent-1"%string)
                  (Some {| Routes.chapterData := Sample.new_chapter;
                           Routes.photos := [(Sample.photo, Num.of_Z 1)] |}) Sample.db in
  ∃ data,
    fst (fst posted) = Json (created_row (Routes.chapterData data))
    ∧ chapter_writes (snd (fst posted)) = [Insert "chapter-3" (Routes.chapterData data)].
Proof.
  destruct (chapter_row_written_twice Sample.jsonb_accepts Sample.env_repaired 1734600000
              "chapter-3"%string (Some "parent-1"%string)
              (Some {| Routes.chapterData := Sample.new_chapter;
                       Routes.photos := [(Sample.photo, Num.of_Z 1)] |}) Sample.db
              (Json (created_row Sample.new_chapter))
              (snd (fst (Routes.post_chapters "chapter-3" (Some "parent-1"%string)
                           (Some {| Routes.chapterData := Sample.new_chapter;
                                    Routes.photos := [(Sample.photo, Num.of_Z 1)] |})
                           Sample.db)))
              {| Routes.task_chapterId := "chapter-3"; Routes.task_photos := [Sample.photo];
                 Routes.task_subject := "math"; Routes.task_grade := Num.of_Z 3 |})
    as (data & _ & Hr & Hwrites & _).
  - reflexivity.
  - exists data. split; [exact Hr|exact Hwrites].
Defined.

(** C10 as stated fails: the row is set to "error" in runs without a
    generation failure. In the first run Gemini answers a lesson whose topic
    holds the character U+0000: generation succeeds and the pipeline returns
    the lesson, the database refuses it as [jsonb], and the [catch] around the
    update sets "error". In the second run the verifier gives its issues as one
    text: generation succeeds, the repair stage throws, and the [catch] sets
    "error". Both rows were written twice and hold no content. *)
Lemma chapter_marked_error_after_generation :
  let task := {| Routes.task_chapterId := "chapter-3"; Routes.task_photos := [Sample.photo];
                 Routes.task_subject := "math"; Routes.task_grade := Num.of_Z 3 |} in
  let posted := Routes.post_chapters "chapter-3" (Some "parent-1"%string)
                  (Some {| Routes.chapterData := Sample.new_chapter;
                           Routes.photos := [(Sample.photo, Num.of_Z 1)] |}) Sample.db in
  let after env :=
    snd (Routes.run_task Sample.jsonb_accepts env 1734600000 task Sample.start
           (snd (fst posted))) in
  let generated env :=
    fst (generateWithGemini env [Sample.photo] "math" (Num.of_Z 3)
           (task_start Sample.start)) in
  snd posted = Some task
  ∧ generated Sample.env_nul_lesson = Ok Sample.nul_lesson
  ∧ fst (processChapterWithAI Sample.env_nul_lesson [Sample.photo] "math" (Num.of_Z 3)
           (task_start Sample.start)) = Ok Sample.nul_lesson
  ∧ Sample.jsonb_accepts Sample.nul_lesson = false
  ∧ chapter_writes (after Sample.env_nul_lesson)
    = [Insert "chapter-3" Sample.new_chapter; UpdateStatus "chapter-3" "error"]
  ∧ chapters (after Sample.env_nul_lesson) !! "chapter-3"%string
    = Some (Storage.set_status "error" 1734600000 (created_row Sample.new_chapter))
  ∧ generated Sample.env_text_issues = Ok Sample.lesson
  ∧ chapter_writes (after Sample.env_text_issues)
    = [Insert "chapter-3" Sample.new_chapter; UpdateStatus "chapter-3" "error"]
  ∧ chapters (after Sample.env_text_issues) !! "chapter-3"%string
    = Some (Storage.set_status "error" 1734600000 (created_row Sample.new_chapter))
  ∧ Chapter.status (Storage.set_status "error" 1734600000 (created_row Sample.new_chapter))
    = Some "error"%string
  ∧ Chapter.content (Storage.set_status "error" 1734600000 (created_row Sample.new_chapter))
    = None.
Proof. vm_compute. repeat split; reflexivity. Qed.

(** * Further properties of the code *)

(** ** The regular expressions *)

Lemma append_cons a s t : (String a s ++ t)%string = String a (s ++ t).
Proof. reflexivity. Qed.

Lemma has_char_app c s t : has_char c (s ++ t) = has_char c s || has_char c t.
Proof.
  induction s as [|a s IH]; [reflexivity|].
  rewrite append_cons. simpl. by rewrite IH, orb_assoc.
Qed.

Lemma append_assoc s t u : ((s ++ t) ++ u)%string = (s ++ t ++ u)%string.
Proof.
  induction s as [|a s IH]; [reflexivity|].
  by rewrite !append_cons, IH.
Qed.

Lemma strip_prefix_Some p s r :
  Regex.strip_prefix p s = Some r ↔ s = (p ++ r)%string.
Proof.
  revert s. induction p as [|a p IH]; intros s; simpl.
  - split; [by intros [= ->]|by intros ->].
  - destruct s as [|b s]; [split; discriminate|].
    destruct (Ascii.eqb_spec a b) as [->|Hne].
    + rewrite IH. split; [by intros ->|by intros [= ->]].
    + split; [discriminate|]. intros [= ? ?]. done.
Qed.

Lemma break_at_sound c s pre post :
  Regex.break_at c s = (pre, post) →
  s = (pre ++ post)%string ∧ has_char c pre = false
  ∧ (post = EmptyString ∨ ∃ rest, post = String c rest).
Proof.
  revert pre. induction s as [|a s IH]; intros pre; simpl.
  - intros [= <- <-]. auto.
  - destruct (Ascii.eqb_spec a c) as [->|Hne].
    + intros [= <- <-]. eauto.
    + destruct (Regex.break_at c s) as [pre' post'].
      intros [= <- <-]. destruct (IH pre' eq_refl) as (-> & Hpre & Hpost).
      simpl. rewrite Hpre. by destruct (Ascii.eqb_spec a c).
Qed.

Lemma break_at_complete c pre post :
  has_char c pre = false →
  (post = EmptyString ∨ ∃ rest, post = String c rest) →
  Regex.break_at c (pre ++ post) = (pre, post).
Proof.
  intros Hpre Hpost. induction pre as [|a pre IH]; simpl in *.
  - destruct Hpost as [->|[rest ->]]; simpl; [done|]. by rewrite Ascii.eqb_refl.
  - apply orb_false_elim in Hpre as [Ha Hpre]. rewrite Ha, IH; done.
Qed.

Lemma from_first_cons c a s :
  Regex.from_first c (String a s)
  = if Ascii.eqb a c then Some (String a s) else Regex.from_first c s.
Proof. reflexivity. Qed.

Lemma from_first_Some c s t :
  Regex.from_first c s = Some t ↔
  ∃ pre rest, s = (pre ++ String c rest)%string ∧ has_char c pre = false
              ∧ t = String c rest.
Proof.
  induction s as [|a s IH]; simpl.
  - split; [discriminate|]. intros (pre & rest & Hs & _). by destruct pre.
  - destruct (Ascii.eqb_spec a c) as [->|Hne].
    + split.
      * intros [= <-]. by exists EmptyString, s.
      * intros (pre & rest & Hs & Hpre & ->). destruct pre as [|b pre]; simpl in *.
        -- by rewrite Hs.
        -- injection Hs as <- _. by rewrite Ascii.eqb_refl in Hpre.
    + rewrite IH. split.
      * intros (pre & rest & -> & Hpre & ->). exists (String a pre), rest.
        simpl. rewrite Hpre. by destruct (Ascii.eqb_spec a c).
      * intros (pre & rest & Hs & Hpre & ->). destruct pre as [|b pre]; simpl in *.
        -- by injection Hs as -> _.
        -- injection Hs as <- ->. apply orb_false_elim in Hpre as [_ Hpre]. eauto.
Qed.

Lemma from_first_None c s : Regex.from_first c s = None ↔ has_char c s = false.
Proof.
  induction s as [|a s IH]; simpl; [done|].
  destruct (Ascii.eqb a c); simpl; [split; discriminate|done].
Qed.

Lemma through_last_None c s : Regex.through_last c s = None ↔ has_char c s = false.
Proof.
  induction s as [|a s IH]; simpl; [done|].
  destruct (Regex.through_last c s).
  - split; [discriminate|]. intros H. apply orb_false_elim in H as [_ H].
    by apply IH in H.
  - destruct IH as [IH _]. rewrite (IH eq_refl), orb_false_r.
    destruct (Ascii.eqb a c); split; done.
Qed.

Lemma through_last_complete c body post :
  has_char c post = false →
  Regex.through_last c (body ++ String c post)
  = Some (body ++ String c EmptyString)%string.
Proof.
  intros Hpost. induction body as [|b body IH]; simpl.
  - apply through_last_None in Hpost. by rewrite Hpost, Ascii.eqb_refl.
  - by rewrite IH.
Qed.

Lemma through_last_Some c s t :
  Regex.through_last c s = Some t ↔
  ∃ body post, s = (body ++ String c post)%string ∧ has_char c post = false
               ∧ t = (body ++ String c EmptyString)%string.
Proof.
  split.
  - revert t. induction s as [|a s IH]; intros t; simpl; [discriminate|].
    destruct (Regex.through_last c s) as [t'|] eqn:Ht.
    + intros [= <-]. destruct (IH t' eq_refl) as (body & post & -> & Hpost & ->).
      by exists (String a body), post.
    + apply through_last_None in Ht.
      destruct (Ascii.eqb_spec a c) as [->|Hne]; [|discriminate].
      intros [= <-]. by exists EmptyString, s.
  - intros (body & post & -> & Hpost & ->). by apply through_last_complete.
Qed.

(** X1. [text.match(/\{[\s\S]*\}/)], the expression the generation and the
    repair stage cut the JSON out of a reply with, matches [m] exactly when
    the text is [pre ++ m ++ post] where [m] begins with an opening and ends
    with a closing brace, [pre] holds no opening brace and [post] no closing
    brace: the match runs from the first opening brace to the last closing
    brace of the text. *)
Theorem match_braces_spans text m :
  Regex.match_braces text = Some m ↔
  ∃ pre body post,
    text = (pre ++ m ++ post)%string
    ∧ m = ("{" ++ body ++ "}")%string
    ∧ has_char "{" pre = false
    ∧ has_char "}" post = false.
Proof.
  unfold Regex.match_braces. split.
  - destruct (Regex.from_first "{" text) as [s|] eqn:Hs; [|discriminate].
    apply from_first_Some in Hs as (pre & rest & -> & Hpre & ->).
    intros Hm. apply through_last_Some in Hm as (body & post & Hs & Hpost & ->).
    destruct body as [|b body]; [discriminate|]. simpl in Hs. injection Hs as <- ->.
    exists pre, body, post. split; [|by split].
    f_equal. by rewrite append_assoc.
  - intros (pre & body & post & -> & -> & Hpre & Hpost).
    assert (Regex.from_first "{" (pre ++ ("{" ++ body ++ "}") ++ post)
            = Some (String "{" (body ++ String "}" post))) as ->.
    { apply from_first_Some. exists pre, (body ++ String "}" post)%string.
      split; [|by split]. f_equal. by rewrite !append_assoc. }
    change (String "{" (body ++ String "}" post))
      with (String "{" body ++ String "}" post)%string.
    by rewrite (through_last_complete "}" (String "{" body) post).
Qed.

(** X2. The same expression finds no match exactly when no closing brace
    comes after an opening brace of the text. *)
Theorem match_braces_none text :
  Regex.match_braces text = None ↔
  ∀ pre post, text = (pre ++ String "{" post)%string → has_char "}" post = false.
Proof.
  unfold Regex.match_braces. split.
  - intros Hm pre post ->. induction pre as [|a pre IH].
    + change (EmptyString ++ String "{" post)%string with (String "{" post) in Hm.
      rewrite from_first_cons, Ascii.eqb_refl in Hm.
      apply through_last_None in Hm. simpl in Hm. done.
    + rewrite append_cons, from_first_cons in Hm.
      destruct (Ascii.eqb_spec a "{") as [->|Hne]; [|auto].
      apply through_last_None in Hm. rewrite <- append_cons, has_char_app in Hm.
      apply orb_false_elim in Hm as [_ Hm]. simpl in Hm. done.
  - intros Hall. destruct (Regex.from_first "{" text) as [s|] eqn:Hs; [|done].
    apply from_first_Some in Hs as (pre & rest & -> & Hpre & ->).
    apply through_last_None. simpl. by apply (Hall pre rest).
Qed.

(** X3. [extractBase64] returns [{mimeType, data}] exactly when the
    argument is [data:] followed by the mime type, [;base64,] and the data,
    the mime type is not empty and holds no semicolon, and the data is not
    empty and holds no line terminator; on every other text it throws. *)
Theorem extractBase64_decodes dataUrl part :
  extractBase64 dataUrl = inr part ↔
  dataUrl = ("data:" ++ mimeType part ++ ";base64," ++ data part)%string
  ∧ mimeType part ≠ EmptyString
  ∧ has_char ";" (mimeType part) = false
  ∧ data part ≠ EmptyString
  ∧ Regex.has_line_terminator (data part) = false.
Proof.
  unfold extractBase64, Regex.match_data_url. destruct part as [d m].
  cbn [data mimeType]. split.
  - destruct (Regex.strip_prefix "data:" dataUrl) as [rest|] eqn:Hp; [|discriminate].
    apply strip_prefix_Some in Hp as ->.
    destruct (Regex.break_at ";" rest) as [mime after] eqn:Hb.
    apply break_at_sound in Hb as (-> & Hmime & _).
    destruct mime as [|a mime]; [discriminate|].
    destruct (Regex.strip_prefix ";base64," after) as [dat|] eqn:Ha; [|discriminate].
    apply strip_prefix_Some in Ha as ->.
    destruct dat as [|b dat]; [discriminate|].
    destruct (Regex.has_line_terminator (String b dat)) eqn:Hl; [discriminate|].
    intros [= <- <-]. done.
  - intros (-> & Hm & Hsemi & Hd & Hl).
    rewrite (proj2 (strip_prefix_Some "data:" _ _) eq_refl).
    rewrite (break_at_complete ";" m (";base64," ++ d)) by eauto.
    destruct m as [|a m]; [done|].
    rewrite (proj2 (strip_prefix_Some ";base64," _ _) eq_refl).
    destruct d as [|b d]; [done|]. by rewrite Hl.
Qed.

(** ** The stages, one by one *)

Lemma map_extractBase64_decoded photos parts w :
  map_extractBase64 photos w = (Ok parts, w) ↔ decoded photos parts.
Proof.
  unfold decoded. revert parts. induction photos as [|p rest IH]; intros parts; simpl.
  - split.
    + intros [= <-]. constructor.
    + intros H. by inversion H.
  - destruct (extractBase64 p) as [e|part] eqn:Hp; run.
    + split; [discriminate|]. intros H. inversion H; subst. congruence.
    + destruct (map_extractBase64 rest w) as [[ps|e] w1] eqn:E.
      * pose proof (map_extractBase64_world _ _ _ _ E) as ->.
        split.
        -- intros [= <-]. constructor; [done|]. by apply IH.
        -- intros H. inversion H as [|? part' ? ps' Hp' Hrest]; subst.
           apply IH in Hrest. congruence.
      * split; [discriminate|]. intros H. inversion H as [|? part' ? ps' Hp' Hrest]; subst.
        apply IH in Hrest. congruence.
Qed.

(** X4. [generateWithGemini] returns a content [c] exactly when every
    photo is a data URL, the Gemini client can be constructed, the call
    resolves with a non-empty text, the text holds a span in braces, and
    [JSON.parse] of that span is [c]. *)
Theorem generateWithGemini_succeeds_iff env photos subject grade w c :
  (∃ w', generateWithGemini env photos subject grade w = (Ok c, w')) ↔
  ∃ parts text jsonMatch,
    decoded photos parts
    ∧ gemini_ready env w = true
    ∧ generateContent env (length (calls w)) parts subject grade = Resolved (Some text)
    ∧ Regex.match_braces text = Some jsonMatch
    ∧ JSON_parse env jsonMatch = Some c.
Proof.
  unfold generateWithGemini, gemini_ready. split.
  - intros [w' H]. run.
    destruct (map_extractBase64 photos _) as [[parts|e] w1] eqn:Hparts; [|done].
    pose proof (map_extractBase64_world _ _ _ _ Hparts) as ->.
    apply map_extractBase64_decoded in Hparts.
    exists parts. revert H. simpl.
    destruct (genAIClient w); simpl.
    + destruct (generateContent env (length (calls w)) parts subject grade)
        as [|[text|]] eqn:Hr; simpl; [done| |done].
      destruct (Regex.match_braces text) as [m|] eqn:Hm; simpl; [|done].
      destruct (JSON_parse env m) as [v|] eqn:Hv; simpl; [|done].
      intros [= <- _]. by exists text, m.
    + destruct (key_present _); simpl; [|done].
      destruct (generateContent env (length (calls w)) parts subject grade)
        as [|[text|]] eqn:Hr; simpl; [done| |done].
      destruct (Regex.match_braces text) as [m|] eqn:Hm; simpl; [|done].
      destruct (JSON_parse env m) as [v|] eqn:Hv; simpl; [|done].
      intros [= <- _]. by exists text, m.
  - intros (parts & text & m & Hparts & Hready & Hr & Hm & Hv). run.
    apply (map_extractBase64_decoded _ _
             (snd (console_write log "Generating content with Gemini Flash..." w)))
      in Hparts.
    simpl in Hparts. rewrite Hparts. simpl.
    destruct (genAIClient w); simpl in *.
    + rewrite Hr. simpl. rewrite Hm. simpl. rewrite Hv. simpl. eauto.
    + rewrite Hready. simpl. rewrite Hr. simpl. rewrite Hm. simpl. rewrite Hv. simpl. eauto.
Qed.

(** X5. [verifyWithGPT] never throws: for every content and every
    behaviour of the verification service it returns a verdict whose status
    and issues are both truthy, and it makes at most one call, a call for
    that content. *)
Theorem verifyWithGPT_always_answers env content w :
  ∃ v w',
    verifyWithGPT env content w = (Ok v, w')
    ∧ truthy (status v) = true
    ∧ truthy (issues v) = true
    ∧ (calls w' = calls w ∨ calls w' = calls w ++ [GPTCall content]).
Proof.
  assert (∀ a, truthy (or_default a PASS) = true) as Hs.
  { intros [v|]; simpl; [|done]. by destruct (truthy v) eqn:?. }
  assert (∀ a, truthy (or_default a (JArr [])) = true) as Hi.
  { intros [v|]; simpl; [|done]. by destruct (truthy v) eqn:?. }
  unfold verifyWithGPT. run.
  world_cases; simplify_eq; do 2 eexists; (split; [reflexivity|]); simpl;
    rewrite ?Hs, ?Hi; auto.
Qed.

(** X6. When [issues.join] does not throw (the issues are an array and no
    element of it, at any depth, is an object with a key [toString]),
    [fixWithClaude] returns content: either the content it was given, or the
    value [JSON.parse] gives for the span in braces of the first text block
    of the repair reply; it makes at most one call. *)
Theorem fixWithClaude_result_origin env content iss w :
  join_throws iss = false →
  ∃ c w',
    fixWithClaude env content iss w = (Ok c, w')
    ∧ (c = content
       ∨ ∃ blocks text jsonMatch,
           anthropic_ready env w = true
           ∧ stage3_reply env content iss w = Resolved blocks
           ∧ find_text blocks = Some text
           ∧ Regex.match_braces text = Some jsonMatch
           ∧ JSON_parse env jsonMatch = Some c)
    ∧ (calls w' = calls w ∨ calls w' = calls w ++ [ClaudeCall content iss]).
Proof.
  intros Hj. unfold fixWithClaude, join_issues, stage3_reply, anthropic_ready.
  rewrite Hj. run.
  world_cases; simplify_eq; do 2 eexists; (split; [reflexivity|]); simpl;
    (split; [|by auto]);
    first [ by left
          | right; do 3 eexists; repeat split; eauto;
            repeat match goal with H : ?x = _ |- context [?x] => rewrite H end; done ].
Qed.

Lemma fixWithClaude_result_origin_witness :
  ∃ c w',
    fixWithClaude Sample.env_repaired Sample.lesson (JArr [JStr "unclear wording"])
      Sample.start = (Ok c, w')
    ∧ calls w' = [ClaudeCall Sample.lesson (JArr [JStr "unclear wording"])].
Proof.
  destruct (fixWithClaude_result_origin Sample.env_repaired Sample.lesson
              (JArr [JStr "unclear wording"]) Sample.start eq_refl)
    as (c & w' & Hrun & _ & _).
  exists c, w'. split; [exact Hrun|].
  vm_compute in Hrun. injection Hrun as _ <-. reflexivity.
Defined.

Lemma join_throws_spec iss :
  join_throws iss = true
  ↔ (∀ items, iss ≠ JArr items)
    ∨ ∃ items v, iss = JArr items ∧ v ∈ items ∧ to_string_throws v = true.
Proof.
  destruct iss as [| | | |items|]; simpl;
    try (split; [intros _; left; congruence|done]).
  rewrite existsb_exists. split.
  - intros (v & Hin & Hv). right. exists items, v.
    split; [done|]. split; [by apply list_elem_of_In|done].
  - intros [Hn|(items' & v & [= <-] & Hin & Hv)]; [by destruct (Hn items)|].
    exists v. split; [by apply list_elem_of_In|done].
Qed.

(** X7. [fixWithClaude] throws exactly when [issues.join] throws: the
    issues are not an array, or they are an array with an element that has no
    conversion to a string (an object with a key [toString], or an array that
    holds such an element). The exception is a TypeError, raised before the
    Anthropic client is constructed and before any call is made. *)
Theorem fixWithClaude_throws_iff env content iss w :
  ((∃ e w', fixWithClaude env content iss w = (Throw e, w'))
   ↔ (∀ items, iss ≠ JArr items)
     ∨ ∃ items v, iss = JArr items ∧ v ∈ items ∧ to_string_throws v = true)
  ∧ (∀ e w',
       fixWithClaude env content iss w = (Throw e, w') →
       e = TypeError ∧ calls w' = calls w ∧ anthropicClient w' = anthropicClient w).
Proof.
  rewrite <- join_throws_spec.
  destruct (join_throws iss) eqn:Hj.
  - destruct (fixWithClaude_join_throws env content iss w Hj) as (w1 & Hrun & Hc & Ha).
    split; [split; eauto|]. intros e w'. rewrite Hrun. by intros [= <- <-].
  - destruct (fixWithClaude_runs env content iss w Hj) as (c & w1 & new & Hok & _).
    split; [split; [|done]|].
    + intros (e & w' & H). congruence.
    + intros e w' H. congruence.
Qed.

(** ** The order of the calls *)






(** ** More on scoring *)

Lemma forEach_count_le_answers questions answers index score :
  (forEach_count questions answers index score ≤ score + length answers)%nat.
Proof.
  revert index score. induction answers as [|a rest IH]; intros index score; simpl.
  - lia.
  - etrans; [apply IH|]. destruct (answer_matches questions index a); lia.
Qed.

Lemma calculateStars_range score total : 1 ≤ calculateStars score total ≤ 5.
Proof. unfold calculateStars. repeat case_match; lia. Qed.

(** X9. Each score of [calculateScores] is at most the number of answers
    given and at most the number of questions of its part, and the stars are
    between 1 and 5. *)
Theorem calculateScores_bounds practiceAnswers testAnswers practiceQuestions testQuestions :
  let r := calculateScores practiceAnswers testAnswers practiceQuestions testQuestions in
  (practiceScore r ≤ length practiceAnswers)%nat
  ∧ (practiceScore r ≤ length practiceQuestions)%nat
  ∧ (testScore r ≤ length testAnswers)%nat
  ∧ (testScore r ≤ length testQuestions)%nat
  ∧ 1 ≤ stars r ≤ 5.
Proof.
  unfold calculateScores. cbn [practiceScore testScore stars].
  pose proof (forEach_count_le practiceQuestions practiceAnswers 0 0).
  pose proof (forEach_count_le testQuestions testAnswers 0 0).
  pose proof (forEach_count_le_answers practiceQuestions practiceAnswers 0 0).
  pose proof (forEach_count_le_answers testQuestions testAnswers 0 0).
  pose proof (calculateStars_range
                (Num.of_nat (forEach_count practiceQuestions practiceAnswers 0 0
                             + forEach_count testQuestions testAnswers 0 0))
                (Num.of_Z 15)).
  repeat split; lia.
Qed.

Lemma forEach_count_drop questions answers index score :
  forEach_count questions answers index score
  = forEach_count (drop index questions) answers 0 score.
Proof.
  revert index score questions.
  induction answers as [|a rest IH]; intros index score questions; simpl; [done|].
  rewrite (IH (S index)), (IH 1%nat (if answer_matches (drop index questions) 0 a
                                     then S score else score)).
  rewrite drop_drop. replace (index + 1)%nat with (S index) by lia.
  unfold answer_matches. rewrite lookup_drop, Nat.add_0_r. done.
Qed.

Lemma forEach_count_nil_questions answers index score :
  forEach_count [] answers index score = score.
Proof.
  revert index score. induction answers as [|a rest IH]; intros index score; simpl; [done|].
  by rewrite IH.
Qed.

Lemma forEach_count_cons q questions a answers score :
  forEach_count (q :: questions) (a :: answers) 0 score
  = forEach_count questions answers 0
      (if bool_decide (letter_string (correct q) = a) then S score else score).
Proof. simpl. rewrite forEach_count_drop. done. Qed.

Lemma forEach_count_take questions answers score :
  forEach_count questions answers 0 score
  = forEach_count questions (take (length questions) answers) 0 score.
Proof.
  revert answers score.
  induction questions as [|q questions IH]; intros answers score.
  - by rewrite !forEach_count_nil_questions.
  - destruct answers as [|a answers]; [done|].
    simpl take. rewrite !forEach_count_cons. apply IH.
Qed.

(** X10. Answers beyond the number of questions do not change the result
    of [calculateScores]. *)
Theorem calculateScores_ignores_extra_answers
    practiceAnswers testAnswers practiceQuestions testQuestions :
  calculateScores practiceAnswers testAnswers practiceQuestions testQuestions
  = calculateScores (take (length practiceQuestions) practiceAnswers)
      (take (length testQuestions) testAnswers) practiceQuestions testQuestions.
Proof.
  unfold calculateScores.
  by rewrite <- (forEach_count_take practiceQuestions),
             <- (forEach_count_take testQuestions).
Qed.

Lemma forEach_count_perfect questions extra score :
  forEach_count questions (map (λ q, letter_string (correct q)) questions ++ extra) 0 score
  = (score + length questions)%nat.
Proof.
  revert score. induction questions as [|q questions IH]; intros score; simpl map.
  - simpl app. rewrite forEach_count_nil_questions. simpl. lia.
  - rewrite <- app_comm_cons, forEach_count_cons, bool_decide_eq_true_2 by done.
    rewrite IH. simpl. lia.
Qed.

(** X11. Answering every question with its correct letter scores every
    question; with 5 practice and 10 test questions the total is 15 and the
    rating is 5 stars. *)
Theorem perfect_answers_score_all practiceQuestions testQuestions :
  let letters := map (λ q, letter_string (correct q)) in
  let r := calculateScores (letters practiceQuestions) (letters testQuestions)
             practiceQuestions testQuestions in
  practiceScore r = length practiceQuestions
  ∧ testScore r = length testQuestions
  ∧ (length practiceQuestions = 5%nat → length testQuestions = 10%nat →
     totalScore r = 15%nat ∧ stars r = 5).
Proof.
  intros letters r.
  assert (practiceScore r = length practiceQuestions) as Hp.
  { subst r letters. unfold calculateScores. cbn [practiceScore].
    rewrite <- (app_nil_r (map _ practiceQuestions)). apply forEach_count_perfect. }
  assert (testScore r = length testQuestions) as Ht.
  { subst r letters. unfold calculateScores. cbn [testScore].
    rewrite <- (app_nil_r (map _ testQuestions)). apply forEach_count_perfect. }
  split; [done|]. split; [done|]. intros H5 H10.
  assert (totalScore r = 15%nat) as Htot.
  { change (totalScore r) with (practiceScore r + testScore r)%nat. lia. }
  split; [done|].
  change (stars r) with (calculateStars (Num.of_nat (totalScore r)) (Num.of_Z 15)).
  rewrite Htot. vm_compute. reflexivity.
Qed.

Lemma answer_matches_letter questions index a :
  answer_matches questions index a = true → is_letter a = true.
Proof.
  unfold answer_matches. destruct (questions !! index) as [q|]; [|done].
  intros H. apply bool_decide_eq_true in H as <-. by destruct (correct q).
Qed.

Lemma forEach_count_no_letter questions answers index score :
  Forall (λ a, is_letter a = false) answers →
  forEach_count questions answers index score = score.
Proof.
  intros H. revert index score.
  induction H as [|a rest Ha _ IH]; intros index score; simpl; [done|].
  destruct (answer_matches questions index a) eqn:Hm; [|apply IH].
  apply answer_matches_letter in Hm. congruence.
Qed.

(** X12. Answers that are none of the texts A, B, C, D (lower-case letters,
    the empty text, option texts) score nothing: the total is 0 and the
    rating is 1 star. *)
Theorem answers_outside_letters_score_nothing
    practiceAnswers testAnswers practiceQuestions testQuestions :
  Forall (λ a, is_letter a = false) practiceAnswers →
  Forall (λ a, is_letter a = false) testAnswers →
  let r := calculateScores practiceAnswers testAnswers practiceQuestions testQuestions in
  totalScore r = 0%nat ∧ stars r = 1.
Proof.
  intros Hp Ht. unfold calculateScores. cbn [totalScore stars].
  rewrite !forEach_count_no_letter by done. split; [done|]. vm_compute. reflexivity.
Qed.

Lemma answers_outside_letters_score_nothing_witness :
  let r := calculateScores ["a"; "1"; "Fractions"]%string ["b"; EmptyString]%string
             [mkQuestion "q" [] A easy; mkQuestion "q" [] A easy] [mkQuestion "q" [] B hard] in
  totalScore r = 0%nat ∧ stars r = 1.
Proof.
  apply answers_outside_letters_score_nothing; repeat constructor.
Defined.


(** ** Scoring on the stored content *)

Lemma correct_of_questions questions index :
  correct_of (Some (JArr (question_json <$> questions))) index
  = inr ((λ q, JStr (letter_string (correct q))) <$> questions !! index).
Proof.
  unfold correct_of. rewrite list_lookup_fmap.
  by destruct (questions !! index).
Qed.

Lemma forEach_count_js_questions questions answers index score :
  forEach_count_js (Some (JArr (question_json <$> questions))) answers index score
  = inr (forEach_count questions answers index score).
Proof.
  revert index score. induction answers as [|a rest IH]; intros index score; [done|].
  cbn [forEach_count_js forEach_count]. rewrite correct_of_questions, IH.
  do 3 f_equal. unfold answer_matches.
  destruct (questions !! index) as [q|]; simpl; [|done].
  destruct (String.eqb_spec (letter_string (correct q)) a).
  - by rewrite bool_decide_eq_true_2.
  - by rewrite bool_decide_eq_false_2.
Qed.

(** X14. On stored content whose [practice] and [test] are arrays of question
    objects, [calculateScores] as JavaScript runs it (optional chaining on
    values of any shape) does not throw and gives the scores of the typed
    model. *)
Theorem calculateScores_js_on_questions
    practiceAnswers testAnswers practiceQuestions testQuestions :
  calculateScores_js practiceAnswers testAnswers
    (Some (JArr (question_json <$> practiceQuestions)))
    (Some (JArr (question_json <$> testQuestions)))
  = inr (calculateScores practiceAnswers testAnswers practiceQuestions testQuestions).
Proof.
  unfold calculateScores_js. by rewrite !forEach_count_js_questions.
Qed.

Lemma forEach_count_js_throws questions answers index score :
  (∃ e, forEach_count_js questions answers index score = inl e)
  ↔ answers ≠ [] ∧ nullish questions.
Proof.
  unfold nullish. destruct answers as [|a rest].
  - split; [by intros [e ?]|by intros [? _]].
  - assert (∀ c, correct_of questions index = inr c →
                 ∀ l i sc, ∃ n, forEach_count_js questions l i sc = inr n) as Hok.
    { intros c Hc l. induction l as [|b l IH]; intros i sc; [by eexists|].
      cbn [forEach_count_js].
      assert (∃ c', correct_of questions i = inr c') as [c' ->]; [|apply IH].
      unfold correct_of in *. repeat case_match; simplify_eq; eauto. }
    cbn [forEach_count_js].
    destruct (correct_of questions index) as [e|c] eqn:Hc.
    + split; [|eauto]. intros _. split; [done|].
      unfold correct_of in Hc. repeat case_match; simplify_eq; auto.
    + split.
      * intros [e He]. destruct (Hok c eq_refl rest (S index)
                                   (if strict_eq_opt c a then S score else score)) as [n Hn].
        congruence.
      * intros [_ [->| ->]]; discriminate.
Qed.

(** X15. [calculateScores] throws exactly when an answer list is not empty
    and the question list of its part is [undefined] or [null]; for every
    other value of the question lists (a text, a number, an object, an array
    of anything) it returns scores. *)
Theorem calculateScores_js_throws_iff
    practiceAnswers testAnswers practiceQuestions testQuestions :
  (∃ e, calculateScores_js practiceAnswers testAnswers practiceQuestions testQuestions
        = inl e)
  ↔ (practiceAnswers ≠ [] ∧ nullish practiceQuestions)
    ∨ (testAnswers ≠ [] ∧ nullish testQuestions).
Proof.
  unfold calculateScores_js.
  destruct (forEach_count_js practiceQuestions practiceAnswers 0 0) as [e|n] eqn:Hp.
  - split; [|eauto]. intros _. left. apply (forEach_count_js_throws _ _ 0 0). eauto.
  - destruct (forEach_count_js testQuestions testAnswers 0 0) as [e|m] eqn:Ht.
    + split; [|eauto]. intros _. right. apply (forEach_count_js_throws _ _ 0 0). eauto.
    + split; [by intros [e ?]|].
      intros [H|H]; apply (forEach_count_js_throws _ _ 0 0) in H as [e He]; congruence.
Qed.

(** ** The chapter table *)

(** X16. [createChapter] followed by [getChapterById] of the new id gives the
    row that was returned, with the child and parent of the request, status
    processing and no content; the other chapter rows, the children and the
    results are unchanged. *)
Theorem createChapter_then_lookup db id data :
  let out := Storage.createChapter db id data in
  Storage.getChapterById (snd out) id = Some (fst out)
  ∧ Chapter.childId (fst out) = ins_childId data
  ∧ Chapter.parentId (fst out) = ins_parentId data
  ∧ Chapter.status (fst out) = Some "processing"%string
  ∧ Chapter.content (fst out) = None
  ∧ (∀ other, other ≠ id →
       Storage.getChapterById (snd out) other = Storage.getChapterById db other)
  ∧ children (snd out) = children db
  ∧ chapterResults (snd out) = chapterResults db.
Proof.
  unfold Storage.createChapter, Storage.getChapterById. simpl.
  split; [apply lookup_insert_eq|]. do 4 (split; [done|]).
  split; [|done]. intros other Hne. by apply lookup_insert_ne.
Qed.

(** X17. [updateChapterStatus] on an existing chapter sets the status and
    keeps content, child and parent; [completedAt] is set to the current
    time when the status is completed and kept otherwise; no other chapter
    row changes. *)
Theorem updateChapterStatus_keeps_content db now id status row :
  Storage.getChapterById db id = Some row →
  ∃ row',
    Storage.getChapterById (Storage.updateChapterStatus db now id status) id = Some row'
    ∧ Chapter.status row' = Some status
    ∧ Chapter.content row' = Chapter.content row
    ∧ Chapter.childId row' = Chapter.childId row
    ∧ Chapter.parentId row' = Chapter.parentId row
    ∧ Chapter.completedAt row'
      = (if String.eqb status "completed" then Some now else Chapter.completedAt row)
    ∧ ∀ other, other ≠ id →
        Storage.getChapterById (Storage.updateChapterStatus db now id status) other
        = Storage.getChapterById db other.
Proof.
  unfold Storage.getChapterById, Storage.updateChapterStatus. simpl. intros Hrow.
  exists (Storage.set_status status now row).
  split; [by rewrite lookup_alter_eq, Hrow|]. repeat split.
  intros other Hne. by apply lookup_alter_ne.
Qed.

Lemma updateChapterStatus_keeps_content_witness :
  ∃ row',
    Storage.getChapterById
      (Storage.updateChapterStatus Sample.db 1734700000 "chapter-2" "error") "chapter-2"
    = Some row'
    ∧ Chapter.content row' = Some Sample.lesson.
Proof.
  destruct (updateChapterStatus_keeps_content Sample.db 1734700000 "chapter-2"%string
              "error"%string Sample.omar_chapter) as (row' & Hrow & _ & Hc & _).
  - reflexivity.
  - exists row'. split; [exact Hrow|exact Hc].
Defined.

(** X18. [updateChapterStatus] and [updateChapterContent] with an id that
    has no row leave the chapter table as it was: an update creates no
    row, whether or not the database accepts the content. *)
Theorem updates_of_absent_chapter_change_no_row jsonb_accepts db now id status content :
  Storage.getChapterById db id = None →
  chapters (Storage.updateChapterStatus db now id status) = chapters db
  ∧ chapters (default db (Storage.updateChapterContent jsonb_accepts db id content))
    = chapters db.
Proof.
  unfold Storage.getChapterById, Storage.updateChapterStatus,
    Storage.updateChapterContent. simpl. intros Hnone.
  assert (∀ f, alter f id (chapters db) = chapters db) as Halter.
  { intros f. apply map_eq. intros k. destruct (decide (k = id)) as [->|Hne].
    - by rewrite lookup_alter_eq, Hnone.
    - by rewrite lookup_alter_ne. }
  split; [apply Halter|].
  destruct (jsonb_accepts content); [apply Halter|done].
Qed.

Lemma updates_of_absent_chapter_change_no_row_witness :
  chapters (Storage.updateChapterStatus Sample.db 0 "chapter-9" "error")
  = chapters Sample.db
  ∧ chapters (default Sample.db
                (Storage.updateChapterContent Sample.jsonb_accepts Sample.db "chapter-9"
                   Sample.lesson))
    = chapters Sample.db.
Proof.
  apply updates_of_absent_chapter_change_no_row. reflexivity.
Defined.

(** ** The list routes of a parent *)

(** X19. GET /api/children and GET /api/chapters answer a parent with
    exactly the rows whose [parentId] is the authenticated parent: every own
    row and no row of another parent. *)
Theorem parent_lists_hold_own_rows db parentId :
  parentId ≠ EmptyString →
  ∃ childrenList chaptersList,
    Handlers.get_children db (Some parentId) = Json childrenList
    ∧ Handlers.get_chapters db (Some parentId) = Json chaptersList
    ∧ (∀ id child,
         (id, child) ∈ childrenList
         ↔ children db !! id = Some child ∧ Child.parentId child = parentId)
    ∧ (∀ id chapter,
         (id, chapter) ∈ chaptersList
         ↔ chapters db !! id = Some chapter ∧ Chapter.parentId chapter = parentId).
Proof.
  intros Hp. unfold Handlers.get_children, Handlers.get_chapters.
  rewrite present_nonempty by done. do 2 eexists. split; [done|]. split; [done|].
  unfold StorageMore.getChildrenByParent, StorageMore.getChaptersByParent.
  split; intros id row; rewrite list_elem_of_filter, elem_of_map_to_list; simpl; tauto.
Qed.

Lemma parent_lists_hold_own_rows_witness :
  Handlers.get_children Sample.db (Some "parent-1"%string) = Json [("kid-1"%string, Sample.sara)].
Proof.
  destruct (parent_lists_hold_own_rows Sample.db "parent-1"%string)
    as (l & _ & Hl & _); [discriminate|].
  rewrite Hl. vm_compute in Hl. injection Hl as <-. reflexivity.
Defined.

(** ** More ownership checks *)

Lemma getResultByChapter_Some db chapterId result :
  StorageMore.getResultByChapter db chapterId = Some result →
  ChapterResult.chapterId result = chapterId
  ∧ ∃ id, chapterResults db !! id = Some result.
Proof.
  unfold StorageMore.getResultByChapter. intros H.
  apply head_Some_elem_of in H. apply list_elem_of_filter in H as [Hc Hin].
  split; [done|]. apply list_elem_of_fmap in Hin as ([id r] & -> & Hin).
  apply elem_of_map_to_list in Hin. eauto.
Qed.

(** X20. GET /api/chapters/:id/result on an existing chapter answers 403
    when the authenticated child or the authenticated parent is not the
    chapter's; when it answers a result, GET /api/chapters/:id answers the
    same caller with the chapter, and the result is a stored row of that
    chapter. *)
Theorem chapter_result_checks_owner_first db req chapter :
  chapters db !! param req = Some chapter →
  (Routes.mismatch (authenticatedChildId req) (Chapter.childId chapter) = true
   ∨ Routes.mismatch (authenticatedParentId req) (Chapter.parentId chapter) = true →
   Handlers.get_chapter_result db req = Status 403)
  ∧ (∀ result,
       Handlers.get_chapter_result db req = Json result →
       Routes.get_chapter db req = Json chapter
       ∧ ChapterResult.chapterId result = param req
       ∧ ∃ id, chapterResults db !! id = Some result).
Proof.
  intros Hc. unfold Handlers.get_chapter_result, Routes.get_chapter, Storage.getChapterById.
  rewrite Hc. split.
  - intros [-> | H]; [done|].
    destruct (Routes.mismatch (authenticatedChildId req) _); [done|]. by rewrite H.
  - intros result.
    destruct (Routes.mismatch (authenticatedChildId req) _); [done|].
    destruct (Routes.mismatch (authenticatedParentId req) _); [done|].
    destruct (StorageMore.getResultByChapter db (param req)) as [r|] eqn:Hr; [|done].
    intros [= ->]. split; [done|]. by apply getResultByChapter_Some.
Qed.

Lemma chapter_result_checks_owner_first_witness :
  Handlers.get_chapter_result Sample.db
    {| authenticatedChildId := None; authenticatedParentId := Some "parent-1"%string;
       param := "chapter-2" |}
  = Status 403.
Proof.
  refine (proj1 (chapter_result_checks_owner_first Sample.db _ Sample.omar_chapter _) _).
  - reflexivity.
  - right. reflexivity.
Defined.

(** X21. With a child session the three handlers under /api/children/:id
    ignore the id of the path: they answer with the row, the chapters and the
    results of the authenticated child. *)
Theorem child_session_reads_own_rows db req childId :
  authenticatedChildId req = Some childId →
  childId ≠ EmptyString →
  Routes.get_child db req
  = match children db !! childId with
    | Some child => Json child
    | None => Status 404
    end
  ∧ Routes.get_child_chapters db req = Json (Storage.getChaptersByChild db childId)
  ∧ Routes.get_child_results db req = Json (Storage.getResultsByChild db childId).
Proof.
  intros Hc Hne.
  unfold Routes.get_child, Routes.get_child_chapters, Routes.get_child_results,
    Routes.target_child, Storage.getChildById.
  rewrite Hc, present_nonempty by done. done.
Qed.

Lemma child_session_reads_own_rows_witness :
  Routes.get_child Sample.db
    {| authenticatedChildId := Some "kid-1"%string; authenticatedParentId := None;
       param := "kid-2" |}
  = Json Sample.sara.
Proof.
  refine (proj1 (child_session_reads_own_rows Sample.db _ "kid-1"%string _ _)).
  - reflexivity.
  - discriminate.
Defined.



(** ** Learning sessions *)

(** X23. POST /api/sessions/start creates a session only for a chapter
    that exists and belongs to the child of the body, and only when that child
    is the authenticated child or (with a parent session alone) a child of the
    authenticated parent; the session is created open; every refusal is 400 or
    403 and writes nothing. *)
Theorem sessions_start_checks_owner newId req body s :
  let out := Handlers.sessions_start newId req body s in
  (∀ session,
     fst out = Json session →
     ∃ chapter,
       chapters (tables s) !! LearningSession.chapterId session = Some chapter
       ∧ Chapter.childId chapter = LearningSession.childId session
       ∧ (∀ childId, present (authenticatedChildId req) = Some childId →
            LearningSession.childId session = childId)
       ∧ (∀ parentId, present (authenticatedChildId req) = None →
            present (authenticatedParentId req) = Some parentId →
            ∃ child, children (tables s) !! LearningSession.childId session = Some child
                     ∧ Child.parentId child = parentId)
       ∧ LearningSession.endedAt session = None
       ∧ snd out = StorageMore.createLearningSession s newId session)
  ∧ (∀ code, fst out = Status code → snd out = s ∧ (code = 400 ∨ code = 403)).
Proof.
  unfold Handlers.sessions_start, Storage.getChildById, Storage.getChapterById.
  destruct (Handlers.startSessionSchema body) as [data|]; simpl.
  2:{ split; [done|]. intros code [= <-]. auto. }
  destruct (present (authenticatedChildId req)) as [cid|] eqn:Hc.
  - destruct (String.eqb_spec (Handlers.start_childId data) cid) as [He|Hne]; simpl.
    2:{ split; [done|]. intros code [= <-]. auto. }
    destruct (chapters (tables s) !! Handlers.start_chapterId data) as [chapter|] eqn:Hch;
      simpl.
    2:{ split; [done|]. intros code [= <-]. auto. }
    destruct (String.eqb_spec (Chapter.childId chapter) (Handlers.start_childId data))
      as [He'|Hne']; simpl.
    2:{ split; [done|]. intros code [= <-]. auto. }
    split; [|done]. intros session [= <-]. simpl. exists chapter.
    split; [done|]. split; [done|]. split; [by intros ? [= <-]|]. split; [done|]. done.
  - destruct (present (authenticatedParentId req)) as [pid|] eqn:Hp.
    + destruct (children (tables s) !! Handlers.start_childId data) as [child|] eqn:Hk;
        simpl.
      2:{ split; [done|]. intros code [= <-]. auto. }
      destruct (String.eqb_spec (Child.parentId child) pid) as [He|Hne]; simpl.
      2:{ split; [done|]. intros code [= <-]. auto. }
      destruct (chapters (tables s) !! Handlers.start_chapterId data) as [chapter|] eqn:Hch;
        simpl.
      2:{ split; [done|]. intros code [= <-]. auto. }
      destruct (String.eqb_spec (Chapter.childId chapter) (Handlers.start_childId data))
        as [He'|Hne']; simpl.
      2:{ split; [done|]. intros code [= <-]. auto. }
      split; [|done]. intros session [= <-]. simpl. exists chapter.
      split; [done|]. split; [done|]. split; [done|].
      split; [intros ? _ [= <-]; eauto|]. done.
    + simpl.
      destruct (chapters (tables s) !! Handlers.start_chapterId data) as [chapter|] eqn:Hch;
        simpl.
      2:{ split; [done|]. intros code [= <-]. auto. }
      destruct (String.eqb_spec (Chapter.childId chapter) (Handlers.start_childId data))
        as [He'|Hne']; simpl.
      2:{ split; [done|]. intros code [= <-]. auto. }
      split; [|done]. intros session [= <-]. simpl. exists chapter.
      split; [done|]. split; [done|]. split; [done|]. split; [done|]. done.
Qed.

Lemma endSessionSchema_to_int4 body x z :
  Handlers.endSessionSchema body = Some x → to_int4 x = Some z → 0 ≤ z.
Proof.
  unfold Handlers.endSessionSchema.
  destruct body as [| | | | |fields]; try done.
  destruct (assoc "durationSeconds" fields) as [[| |y| | |]|]; try done.
  destruct (Num.geb y (Num.of_Z 0)) eqn:Hge; [|done]. intros [= <-].
  unfold to_int4.
  destruct y as [sg|sg| |sg m e]; try done; [by intros [= <-]|].
  destruct sg; [done|].
  assert (∀ v, 0 ≤ v →
               (if (- 2 ^ 31 <=? v) && (v <? 2 ^ 31) then Some v else None) = Some z →
               0 ≤ z) as Hr.
  { intros v Hv. case_match; [|done]. by intros [= <-]. }
  destruct (0 <=? e) eqn:He.
  - apply Hr. apply Z.leb_le in He. nia.
  - destruct ((Z.pos m mod 2 ^ (- e)) =? 0); [|done]. apply Hr.
    apply Z.leb_gt in He. rewrite Z.mul_1_l. apply Z.div_pos; lia.
Qed.

(** X24. POST /api/sessions/:id/end ends a session only when it exists, the
    duration is a whole number of seconds that is not negative, and the
    session's child is the authenticated child or (with a parent session
    alone) a child of the authenticated parent; it then sets [endedAt] and the
    duration of that session and of no other; every refusal writes nothing. *)
Theorem sessions_end_checks_owner now req body s :
  let out := Handlers.sessions_end now req body s in
  (fst out = Json tt →
   ∃ session durationSeconds seconds,
     learningSessions s !! param req = Some session
     ∧ Handlers.endSessionSchema body = Some durationSeconds
     ∧ to_int4 durationSeconds = Some seconds
     ∧ 0 ≤ seconds
     ∧ (∀ childId, present (authenticatedChildId req) = Some childId →
          LearningSession.childId session = childId)
     ∧ (∀ parentId, present (authenticatedChildId req) = None →
          present (authenticatedParentId req) = Some parentId →
          ∃ child, children (tables s) !! LearningSession.childId session = Some child
                   ∧ Child.parentId child = parentId)
     ∧ learningSessions (snd out) !! param req
       = Some (StorageMore.set_ended now seconds session)
     ∧ ∀ other, other ≠ param req →
         learningSessions (snd out) !! other = learningSessions s !! other)
  ∧ (∀ code, fst out = Status code → snd out = s).
Proof.
  unfold Handlers.sessions_end, StorageMore.getLearningSessionById, Storage.getChildById.
  destruct (Handlers.endSessionSchema body) as [x|] eqn:Hbody; simpl; [|by split].
  destruct (learningSessions s !! param req) as [session|] eqn:Hs; simpl; [|by split].
  unfold Routes.mismatch.
  destruct (present (authenticatedChildId req)) as [cid|] eqn:Hc.
  - destruct (String.eqb_spec (LearningSession.childId session) cid) as [He|Hne]; simpl;
      [|by split].
    replace (match present (authenticatedParentId req) with
             | Some _ | _ => false end) with false by (by case_match).
    destruct (to_int4 x) as [z|] eqn:Hz; simpl; [|by split].
    split; [|done]. intros _. exists session, x, z.
    split; [done|]. split; [done|]. split; [done|].
    split; [by eapply endSessionSchema_to_int4|].
    split; [by intros ? [= <-]|]. split; [done|].
    split; [by rewrite lookup_alter_eq, Hs|].
    intros other Hne. by apply lookup_alter_ne.
  - destruct (present (authenticatedParentId req)) as [pid|] eqn:Hp.
    + destruct (children (tables s) !! LearningSession.childId session) as [child|] eqn:Hk;
        simpl; [|by split].
      destruct (String.eqb_spec (Child.parentId child) pid) as [He|Hne]; simpl; [|by split].
      destruct (to_int4 x) as [z|] eqn:Hz; simpl; [|by split].
      split; [|done]. intros _. exists session, x, z.
      split; [done|]. split; [done|]. split; [done|].
      split; [by eapply endSessionSchema_to_int4|].
      split; [done|]. split; [intros ? _ [= <-]; eauto|].
      split; [by rewrite lookup_alter_eq, Hs|].
      intros other Hne. by apply lookup_alter_ne.
    + simpl. destruct (to_int4 x) as [z|] eqn:Hz; simpl; [|by split].
      split; [|done]. intros _. exists session, x, z.
      split; [done|]. split; [done|]. split; [done|].
      split; [by eapply endSessionSchema_to_int4|].
      split; [done|]. split; [done|].
      split; [by rewrite lookup_alter_eq, Hs|].
      intros other Hne. by apply lookup_alter_ne.
Qed.

(** ** Notifications *)

(** X25. PATCH /api/notifications/:id/read marks a notification read only
    when it exists and belongs to the authenticated parent, and changes no
    other notification; every refusal writes nothing, and a missing
    notification is answered 403, like one of another user. *)
Theorem notification_read_needs_owner authenticatedParentId id s :
  let out := Handlers.notification_read authenticatedParentId id s in
  (fst out = Json tt →
   ∃ notification,
     notifications s !! id = Some notification
     ∧ authenticatedParentId = Some (Notification.userId notification)
     ∧ notifications (snd out) !! id = Some (StorageMore.set_read notification)
     ∧ ∀ other, other ≠ id → notifications (snd out) !! other = notifications s !! other)
  ∧ (∀ code, fst out = Status code → snd out = s)
  ∧ (id ≠ EmptyString → notifications s !! id = None → fst out = Status 403).
Proof.
  unfold Handlers.notification_read, StorageMore.getNotificationById.
  destruct id as [|a id]; [by repeat split|].
  destruct (notifications s !! String a id) as [n|] eqn:Hn; [|by repeat split].
  case_bool_decide as Hp; simpl; [|by repeat split].
  split; [|by split]. intros _. exists n. split; [done|]. split; [done|].
  split; [by rewrite lookup_alter_eq, Hn|].
  intros other Hne. by apply lookup_alter_ne.
Qed.

Lemma getUnreadCount_zero_iff s userId :
  StorageMore.getUnreadCount s userId = 0%nat
  ↔ ∀ id n, notifications s !! id = Some n → Notification.userId n = userId →
            Notification.read n = true.
Proof.
  unfold StorageMore.getUnreadCount. rewrite length_zero_iff_nil. split.
  - intros Hnil id n Hn Hu. destruct (Notification.read n) eqn:Hr; [done|].
    assert (n ∈ filter (λ n, Notification.userId n = userId ∧ Notification.read n = false)
                  (snd <$> map_to_list (notifications s))) as Hin.
    { apply list_elem_of_filter. split; [done|]. apply list_elem_of_fmap.
      exists (id, n). split; [done|]. by apply elem_of_map_to_list. }
    rewrite Hnil in Hin. by apply elem_of_nil in Hin.
  - intros Hall.
    destruct (filter _ _) as [|n rest] eqn:Hf; [done|].
    assert (n ∈ n :: rest) as Hin by left.
    rewrite <- Hf in Hin. apply list_elem_of_filter in Hin as [[Hu Hr] Hin].
    apply list_elem_of_fmap in Hin as ([id n'] & -> & Hin).
    apply elem_of_map_to_list in Hin. simpl in *.
    rewrite (Hall id n' Hin Hu) in Hr. done.
Qed.

(** X26. After PATCH .../notifications/read-all the unread count of the
    authenticated parent is 0, and the notifications of every other user and
    the other tables are unchanged. *)
Theorem read_all_clears_unread_count authenticatedParentId s userId :
  present authenticatedParentId = Some userId →
  let out := Handlers.notifications_read_all authenticatedParentId s in
  fst out = Json tt
  ∧ Handlers.get_unread_count authenticatedParentId (snd out) = Json 0%nat
  ∧ (∀ id n, notifications s !! id = Some n → Notification.userId n ≠ userId →
       notifications (snd out) !! id = Some n)
  ∧ tables (snd out) = tables s.
Proof.
  intros Hp. unfold Handlers.notifications_read_all, Handlers.get_unread_count.
  rewrite Hp. simpl. split; [done|]. split.
  - f_equal. apply getUnreadCount_zero_iff. intros id n. simpl.
    rewrite lookup_fmap. destruct (notifications s !! id) as [n0|]; [|done].
    simpl. intros [= <-]. case_bool_decide; [done|]. intros ?. done.
  - split; [|done]. intros id n Hn Hu. simpl. rewrite lookup_fmap, Hn. simpl.
    by rewrite bool_decide_eq_false_2.
Qed.

(** ** Submitting answers *)

Lemma forEach_count_js_le questions answers index score n :
  forEach_count_js questions answers index score = inr n →
  (score ≤ n ≤ score + length answers)%nat.
Proof.
  revert index score. induction answers as [|a rest IH]; intros index score; simpl.
  - intros [= <-]. lia.
  - destruct (correct_of questions index) as [e|c]; [done|].
    intros H. apply IH in H. destruct (strict_eq_opt c a); lia.
Qed.

Lemma calculateScores_js_bounds practiceAnswers testAnswers practiceQuestions
    testQuestions scores :
  calculateScores_js practiceAnswers testAnswers practiceQuestions testQuestions
  = inr scores →
  (practiceScore scores ≤ length practiceAnswers)%nat
  ∧ (testScore scores ≤ length testAnswers)%nat
  ∧ totalScore scores = (practiceScore scores + testScore scores)%nat
  ∧ 1 ≤ stars scores ≤ 5.
Proof.
  unfold calculateScores_js.
  destruct (forEach_count_js practiceQuestions _ _ _) as [e|p] eqn:Hp; [done|].
  destruct (forEach_count_js testQuestions _ _ _) as [e|t] eqn:Ht; [done|].
  intros [= <-]. simpl. apply forEach_count_js_le in Hp, Ht.
  split; [lia|]. split; [lia|]. split; [done|]. apply calculateStars_range.
Qed.

(** X27. POST /api/chapters/:id/submit records a result only for a child
    session whose child owns the chapter, on a chapter that has content (a
    parent session alone is answered 403); the scores of the result are
    within the numbers of answers given, the total is their sum and the stars
    are between 1 and 5. Every refusal is 400, 403 or 404. A 403 and a 404
    write nothing; a 400 writes nothing either, unless it comes from the
    update of the stars, whose new total is no whole number of 32 bits: the
    result is then stored and the chapter marked completed, and neither the
    stars nor a notification are written. *)
Theorem submit_needs_owning_child now resultId notificationId req body s :
  let out := Handlers.submit now resultId notificationId req body s in
  (∀ code,
     fst out = Status code →
     (code = 400 ∨ code = 403 ∨ code = 404)
     ∧ (code = 403 ∨ code = 404 → snd out = s)
     ∧ (snd out = s
        ∨ ∃ chapter child result,
            code = 400
            ∧ chapters (tables s) !! param req = Some chapter
            ∧ authenticatedChildId req = Some (Chapter.childId chapter)
            ∧ children (tables s) !! Chapter.childId chapter = Some child
            ∧ in_int4 (Child.totalStars child + ChapterResult.stars result) = false
            ∧ 1 ≤ ChapterResult.stars result ≤ 5
            ∧ snd out
              = StorageMore.with_tables s
                  (Storage.updateChapterStatus
                     (StorageMore.createChapterResult (tables s) resultId result)
                     now (param req) "completed")))
  ∧ (∀ result,
       fst out = Json result →
       ∃ chapter content practiceAnswers testAnswers,
         chapters (tables s) !! param req = Some chapter
         ∧ Chapter.content chapter = Some content
         ∧ truthy content = true
         ∧ authenticatedChildId req = Some (Chapter.childId chapter)
         ∧ Handlers.submitAnswersSchema body = Some (practiceAnswers, testAnswers)
         ∧ ChapterResult.chapterId result = param req
         ∧ ChapterResult.childId result = Chapter.childId chapter
         ∧ 0 ≤ ChapterResult.practiceScore result ≤ Z.of_nat (length practiceAnswers)
         ∧ 0 ≤ ChapterResult.testScore result ≤ Z.of_nat (length testAnswers)
         ∧ ChapterResult.totalScore result
           = ChapterResult.practiceScore result + ChapterResult.testScore result
         ∧ 1 ≤ ChapterResult.stars result ≤ 5).
Proof.
  unfold Handlers.submit, Storage.getChapterById.
  destruct (Handlers.submitAnswersSchema body) as [[pa ta]|] eqn:Hbody; simpl.
  2:{ split; [|done]. intros code [= <-]. auto. }
  destruct (chapters (tables s) !! param req) as [chapter|] eqn:Hch; simpl.
  2:{ split; [|done]. intros code [= <-]. auto. }
  destruct (Chapter.content chapter) as [content|] eqn:Hcontent; simpl.
  2:{ split; [|done]. intros code [= <-]. auto. }
  destruct (truthy content) eqn:Htruthy; simpl.
  2:{ split; [|done]. intros code [= <-]. auto. }
  destruct (authenticatedChildId req) as [cid|] eqn:Hcid; simpl.
  2:{ split; [|done]. intros code [= <-]. auto. }
  destruct cid as [|c0 cid]; simpl.
  { split; [|done]. intros code [= <-]. auto. }
  destruct (String.eqb_spec (Chapter.childId chapter) (String c0 cid)) as [He|Hne]; simpl.
  2:{ split; [|done]. intros code [= <-]. auto. }
  destruct (calculateScores_js pa ta _ _) as [e|scores] eqn:Hscores; simpl.
  { split; [|done]. intros code [= <-]. auto. }
  apply calculateScores_js_bounds in Hscores as (Hp & Ht & Htot & Hstars).
  match goal with
  | |- context [Json ?r] => set (result0 := r)
  end.
  assert (∀ result, result = result0 →
            ∃ chapter0 content0 practiceAnswers testAnswers,
              Some chapter = Some chapter0
              ∧ Chapter.content chapter0 = Some content0
              ∧ truthy content0 = true
              ∧ Some (String c0 cid) = Some (Chapter.childId chapter0)
              ∧ Some (pa, ta) = Some (practiceAnswers, testAnswers)
              ∧ ChapterResult.chapterId result = param req
              ∧ ChapterResult.childId result = Chapter.childId chapter0
              ∧ 0 ≤ ChapterResult.practiceScore result ≤ Z.of_nat (length practiceAnswers)
              ∧ 0 ≤ ChapterResult.testScore result ≤ Z.of_nat (length testAnswers)
              ∧ ChapterResult.totalScore result
                = ChapterResult.practiceScore result + ChapterResult.testScore result
              ∧ 1 ≤ ChapterResult.stars result ≤ 5) as Hgood.
  { intros result ->. exists chapter, content, pa, ta. subst result0. simpl.
    rewrite He. repeat split; try done; try lia. }
  unfold Storage.getChildById.
  cbn [children Storage.updateChapterStatus Storage.with_chapters
       StorageMore.createChapterResult].
  destruct (children (tables s) !! Chapter.childId chapter) as [child|] eqn:Hchild.
  2:{ simpl. split; [done|]. intros result [= <-]. by apply Hgood. }
  unfold StorageMore.updateChildStars.
  destruct (in_int4 (Child.totalStars child + stars scores)) eqn:Hin.
  - destruct (Handlers.wants_chapter_complete _); simpl;
      (split; [done|]); intros result [= <-]; by apply Hgood.
  - simpl. split; [|done]. intros code [= <-].
    split; [auto|]. split; [intros [|]; done|].
    right. exists chapter, child, result0.
    split; [done|]. split; [done|]. split; [by rewrite He|].
    split; [done|]. split; [done|]. split; [done|]. done.
Qed.

Lemma submit_needs_owning_child_witness :
  snd (Handlers.submit 1734700000 "result-1" "note-1"
         {| authenticatedChildId := None; authenticatedParentId := Some "parent-1"%string;
            param := "chapter-1" |}
         SampleStore.answers SampleStore.store)
  = SampleStore.store.
Proof.
  exact (proj1 (proj2 (proj1 (submit_needs_owning_child 1734700000 "result-1"%string
                                "note-1"%string
                                {| authenticatedChildId := None;
                                   authenticatedParentId := Some "parent-1"%string;
                                   param := "chapter-1" |}
                                SampleStore.answers SampleStore.store) 403 eq_refl))
           (or_introl eq_refl)).
Defined.

(** X28. A submit that succeeds stores the result under the new id, marks
    the chapter completed at the current time with its content kept, adds the
    stars of the result to the total of the child, and writes one unread
    [chapter_complete] notification for the chapter's parent unless the child
    row is missing or the parent's preferences say [chapterComplete: false];
    other chapters and children, the sessions and the users are unchanged. *)
Theorem submit_records_completion now resultId notificationId req body s result :
  let out := Handlers.submit now resultId notificationId req body s in
  fst out = Json result →
  ∃ chapter,
    chapters (tables s) !! param req = Some chapter
    ∧ chapterResults (tables (snd out)) !! resultId = Some result
    ∧ chapters (tables (snd out)) !! param req
      = Some (Storage.set_status "completed" now chapter)
    ∧ (∀ other, other ≠ param req →
         chapters (tables (snd out)) !! other = chapters (tables s) !! other)
    ∧ (∀ child,
         children (tables s) !! Chapter.childId chapter = Some child →
         children (tables (snd out)) !! Chapter.childId chapter
         = Some (StorageMore.set_stars (Child.totalStars child + ChapterResult.stars result)
                   child))
    ∧ (∀ other, other ≠ Chapter.childId chapter →
         children (tables (snd out)) !! other = children (tables s) !! other)
    ∧ notifications (snd out)
      = (if bool_decide (is_Some (children (tables s) !! Chapter.childId chapter))
            && Handlers.wants_chapter_complete
                 (StorageMore.getNotificationPreferences s (Chapter.parentId chapter))
         then <[notificationId :=
                  {| Notification.userId := Chapter.parentId chapter;
                     Notification.type := "chapter_complete";
                     Notification.data_childId := Some (Chapter.childId chapter);
                     Notification.data_chapterId := Some (param req);
                     Notification.read := false |}]> (notifications s)
         else notifications s)
    ∧ learningSessions (snd out) = learningSessions s
    ∧ users (snd out) = users s.
Proof.
  unfold Handlers.submit, Storage.getChapterById, Storage.getChildById.
  destruct (Handlers.submitAnswersSchema body) as [[pa ta]|]; [|done].
  destruct (chapters (tables s) !! param req) as [chapter|] eqn:Hch; [|done].
  destruct (Chapter.content chapter) as [content|]; [|done].
  destruct (truthy content); [|done]. cbn [negb].
  destruct (present (authenticatedChildId req)) as [cid|]; [|done].
  destruct (String.eqb (Chapter.childId chapter) cid); [|done]. cbn [negb].
  destruct (calculateScores_js pa ta _ _) as [e|scores]; [done|].
  cbn zeta. cbn [children Storage.updateChapterStatus Storage.with_chapters
                   StorageMore.createChapterResult].
  destruct (children (tables s) !! Chapter.childId chapter) as [child|] eqn:Hchild.
  - unfold StorageMore.updateChildStars.
    destruct (in_int4 (Child.totalStars child + stars scores)); [|done].
    unfold StorageMore.getNotificationPreferences at 1. cbn [users StorageMore.with_tables].
    fold (StorageMore.getNotificationPreferences s (Chapter.parentId chapter)).
    destruct (Handlers.wants_chapter_complete _) eqn:Hw; cbn [fst snd]; intros [= <-];
      exists chapter; rewrite Hchild, Hw, bool_decide_eq_true_2 by eauto;
      cbn; rewrite lookup_alter_eq, Hch, lookup_insert_eq; cbn;
      (split; [done|]); (split; [done|]); (split; [done|]);
      (split; [by intros other Hne; apply lookup_alter_ne|]);
      (split; [intros ? [= <-]; by rewrite lookup_alter_eq, Hchild|]);
      (split; [by intros other Hne; apply lookup_alter_ne|]); done.
  - cbn [fst snd]. intros [= <-]. exists chapter.
    rewrite Hchild, bool_decide_eq_false_2 by (by intros [? ?]).
    cbn. rewrite lookup_alter_eq, Hch, lookup_insert_eq. cbn.
    repeat split; try done. intros other Hne. by apply lookup_alter_ne.
Qed.


Lemma sessions_start_checks_owner_witness :
  ∃ chapter,
    chapters SampleStore.db !! "chapter-1"%string = Some chapter
    ∧ Chapter.childId chapter = "kid-1"%string.
Proof.
  destruct (proj1 (sessions_start_checks_owner "session-2"%string
                     (SampleStore.as_sara EmptyString) SampleStore.start_practice
                     SampleStore.store)
              {| LearningSession.childId := "kid-1"; LearningSession.chapterId := "chapter-1";
                 LearningSession.stage := "practice"; LearningSession.endedAt := None;
                 LearningSession.durationSeconds := 0 |} eq_refl)
    as (chapter & H1 & H2 & _).
  exists chapter. split; [exact H1|exact H2].
Defined.

Lemma sessions_end_checks_owner_witness :
  ∃ session seconds,
    learningSessions SampleStore.store !! "session-1"%string = Some session
    ∧ 0 ≤ seconds
    ∧ learningSessions
        (snd (Handlers.sessions_end 1734700000 (SampleStore.as_sara "session-1")
                SampleStore.ninety_seconds SampleStore.store)) !! "session-1"%string
      = Some (StorageMore.set_ended 1734700000 seconds session).
Proof.
  destruct (proj1 (sessions_end_checks_owner 1734700000 (SampleStore.as_sara "session-1")
                     SampleStore.ninety_seconds SampleStore.store) eq_refl)
    as (session & x & seconds & H1 & _ & _ & H4 & _ & _ & H7 & _).
  exists session, seconds. split; [exact H1|]. split; [exact H4|exact H7].
Defined.

Lemma notification_read_needs_owner_witness :
  snd (Handlers.notification_read (Some "parent-1"%string) "note-2" SampleStore.store)
  = SampleStore.store.
Proof.
  exact (proj1 (proj2 (notification_read_needs_owner (Some "parent-1"%string)
                         "note-2"%string SampleStore.store)) 403 eq_refl).
Defined.

Lemma read_all_clears_unread_count_witness :
  Handlers.get_unread_count (Some "parent-2"%string)
    (snd (Handlers.notifications_read_all (Some "parent-2"%string) SampleStore.store))
  = Json 0%nat.
Proof.
  exact (proj1 (proj2 (read_all_clears_unread_count (Some "parent-2"%string)
                         SampleStore.store "parent-2"%string eq_refl))).
Defined.

Lemma submit_records_completion_witness :
  let out := Handlers.submit 1734700000 "result-1" "note-1"
               (SampleStore.as_sara "chapter-1") SampleStore.answers SampleStore.store in
  ∃ chapter,
    chapters SampleStore.db !! "chapter-1"%string = Some chapter
    ∧ chapterResults (tables (snd out)) !! "result-1"%string = Some SampleStore.sara_result
    ∧ chapters (tables (snd out)) !! "chapter-1"%string
      = Some (Storage.set_status "completed" 1734700000 chapter).
Proof.
  destruct (submit_records_completion 1734700000 "result-1"%string "note-1"%string
              (SampleStore.as_sara "chapter-1") SampleStore.answers SampleStore.store
              SampleStore.sara_result eq_refl)
    as (chapter & H1 & H2 & H3 & _).
  exists chapter. split; [exact H1|]. split; [exact H2|exact H3].
Defined.
